(** * The live-assistant hook: capture, playback and session lifecycle

    A shallow embedding of [src/hooks/useLiveAssistant.ts].  The hook keeps
    React state ([connectionState], [error], [isMuted]) and a handful of
    mutable refs; its callbacks are run by the browser one turn at a time.
    Each callback is embedded as a computation in a state-and-exception
    monad over the hook's cells and the browser objects they point to. *)

From Stdlib Require Import Ascii String QArith Qminmax Lqa.
From stdpp Require Import base gmap list strings.

Local Open Scope string_scope.
Local Open Scope list_scope.

(** ** Data *)

(** [src/types]: the ConnectionState enum. *)
Inductive ConnectionState := DISCONNECTED | CONNECTING | CONNECTED | ERROR.

#[global] Instance ConnectionState_eq_dec : EqDecision ConnectionState.
Proof. solve_decision. Defined.

(** A thrown JavaScript value, as far as the code inspects it: [err.name]
    and [err.message].  The empty string stands for a missing or empty
    field; both are falsy. *)
Record JsError := { err_name : string; err_message : string }.

(** The channel data of an input buffer (a Float32Array). *)
Definition Frame := list Q.

(** What [createPcmBlob] hands to the transport. *)
Record Blob := { blob_data : string; blob_mimeType : string }.

(** An AudioBuffer; the platform defines its duration as length over
    sample rate. *)
Record AudioBuffer := { buf_length : N; buf_sampleRate : positive }.

Definition duration (b : AudioBuffer) : Q :=
  Z.of_N (buf_length b) # buf_sampleRate b.

(** An AudioBufferSourceNode: its buffer, the time passed to [start] once
    it has been started, and whether [stop] has been called. *)
Record SourceNode := {
  node_buffer : AudioBuffer;
  node_start : option Q;
  node_stopped : bool }.

(** The input GainNode and its [gain.value].  The code reaches the node
    through [inputGainRef] only, so the cell holds the node's value. *)
Record GainNode := { gain_ctx : nat; gain_value : Q }.

(** The session handle delivered by the transport.  Whether its [close]
    throws is a property of the handle. *)
Record Session := { session_id : nat; close_throws : bool }.

(** The part of a LiveServerMessage the handler reads:
    [serverContent.modelTurn.parts[0].inlineData.data] and
    [serverContent.interrupted]. *)
Record Message := { inlineData : option string; interrupted : bool }.

(** One invocation of [connect].  Its callbacks close over the
    [connectionState] of the render that created [connect] and over the
    script processor built during setup.  [Opening] carries the reactions
    registered on the pending session promise by the capture handler: the
    blob to send and whether that send will throw. *)
Inductive Stage :=
| Acquiring
| Opening (proc : nat) (queue : list (Blob * bool))
| Opened (proc : nat) (s : Session)
| Failed.

Record Attempt := { att_rendered : ConnectionState; att_stage : Stage }.

Inductive LogLevel := Log | Warn | Error.

(** What the hook does to its surroundings, in order. *)
Inductive Effect :=
| StateSet (cs : ConnectionState)
| SessionClosed (sid : nat)
| TracksStopped (stream : nat)
| FrameSent (sid : nat) (b : Blob)
| Console (level : LogLevel) (text : string).

(** React state and refs of the hook (lines 7-27).  The analyser refs only
    feed the visualizer and are left out. *)
Record Hook := mkHook {
  connectionState : ConnectionState;
  error : option string;
  isMuted : bool;
  inputAudioContextRef : option nat;
  outputAudioContextRef : option nat;
  mediaStreamRef : option nat;
  inputGainRef : option GainNode;
  nextStartTimeRef : Q;
  audioSourcesRef : list nat;
  sessionPromiseRef : option nat;
  currentSessionRef : option Session }.

(** The browser and transport objects the refs point to. *)
Record World := mkWorld {
  nodes : gmap nat SourceNode;
  closedContexts : gset nat;
  attempts : gmap nat Attempt;
  handlers : gset nat;
  effects : list Effect;
  nextId : nat }.

Record St := mkSt { hook : Hook; world : World }.

Definition initial_hook : Hook :=
  mkHook DISCONNECTED None false None None None None 0%Q [] None None.

Definition initial_world : World := mkWorld ∅ ∅ ∅ ∅ [] 0.

Definition initial : St := mkSt initial_hook initial_world.

(** ** Cell updates *)

Definition with_connectionState v (h : Hook) : Hook :=
  mkHook v (error h) (isMuted h) (inputAudioContextRef h) (outputAudioContextRef h)
    (mediaStreamRef h) (inputGainRef h) (nextStartTimeRef h) (audioSourcesRef h)
    (sessionPromiseRef h) (currentSessionRef h).
Definition with_error v (h : Hook) : Hook :=
  mkHook (connectionState h) v (isMuted h) (inputAudioContextRef h) (outputAudioContextRef h)
    (mediaStreamRef h) (inputGainRef h) (nextStartTimeRef h) (audioSourcesRef h)
    (sessionPromiseRef h) (currentSessionRef h).
Definition with_isMuted v (h : Hook) : Hook :=
  mkHook (connectionState h) (error h) v (inputAudioContextRef h) (outputAudioContextRef h)
    (mediaStreamRef h) (inputGainRef h) (nextStartTimeRef h) (audioSourcesRef h)
    (sessionPromiseRef h) (currentSessionRef h).
Definition with_inputAudioContextRef v (h : Hook) : Hook :=
  mkHook (connectionState h) (error h) (isMuted h) v (outputAudioContextRef h)
    (mediaStreamRef h) (inputGainRef h) (nextStartTimeRef h) (audioSourcesRef h)
    (sessionPromiseRef h) (currentSessionRef h).
Definition with_outputAudioContextRef v (h : Hook) : Hook :=
  mkHook (connectionState h) (error h) (isMuted h) (inputAudioContextRef h) v
    (mediaStreamRef h) (inputGainRef h) (nextStartTimeRef h) (audioSourcesRef h)
    (sessionPromiseRef h) (currentSessionRef h).
Definition with_mediaStreamRef v (h : Hook) : Hook :=
  mkHook (connectionState h) (error h) (isMuted h) (inputAudioContextRef h) (outputAudioContextRef h)
    v (inputGainRef h) (nextStartTimeRef h) (audioSourcesRef h)
    (sessionPromiseRef h) (currentSessionRef h).
Definition with_inputGainRef v (h : Hook) : Hook :=
  mkHook (connectionState h) (error h) (isMuted h) (inputAudioContextRef h) (outputAudioContextRef h)
    (mediaStreamRef h) v (nextStartTimeRef h) (audioSourcesRef h)
    (sessionPromiseRef h) (currentSessionRef h).
Definition with_nextStartTimeRef v (h : Hook) : Hook :=
  mkHook (connectionState h) (error h) (isMuted h) (inputAudioContextRef h) (outputAudioContextRef h)
    (mediaStreamRef h) (inputGainRef h) v (audioSourcesRef h)
    (sessionPromiseRef h) (currentSessionRef h).
Definition with_audioSourcesRef v (h : Hook) : Hook :=
  mkHook (connectionState h) (error h) (isMuted h) (inputAudioContextRef h) (outputAudioContextRef h)
    (mediaStreamRef h) (inputGainRef h) (nextStartTimeRef h) v
    (sessionPromiseRef h) (currentSessionRef h).
Definition with_sessionPromiseRef v (h : Hook) : Hook :=
  mkHook (connectionState h) (error h) (isMuted h) (inputAudioContextRef h) (outputAudioContextRef h)
    (mediaStreamRef h) (inputGainRef h) (nextStartTimeRef h) (audioSourcesRef h)
    v (currentSessionRef h).
Definition with_currentSessionRef v (h : Hook) : Hook :=
  mkHook (connectionState h) (error h) (isMuted h) (inputAudioContextRef h) (outputAudioContextRef h)
    (mediaStreamRef h) (inputGainRef h) (nextStartTimeRef h) (audioSourcesRef h)
    (sessionPromiseRef h) v.

Definition with_nodes v (w : World) : World :=
  mkWorld v (closedContexts w) (attempts w) (handlers w) (effects w) (nextId w).
Definition with_closedContexts v (w : World) : World :=
  mkWorld (nodes w) v (attempts w) (handlers w) (effects w) (nextId w).
Definition with_attempts v (w : World) : World :=
  mkWorld (nodes w) (closedContexts w) v (handlers w) (effects w) (nextId w).
Definition with_handlers v (w : World) : World :=
  mkWorld (nodes w) (closedContexts w) (attempts w) v (effects w) (nextId w).
Definition with_effects v (w : World) : World :=
  mkWorld (nodes w) (closedContexts w) (attempts w) (handlers w) v (nextId w).
Definition with_nextId v (w : World) : World :=
  mkWorld (nodes w) (closedContexts w) (attempts w) (handlers w) (effects w) v.

(** ** The monad of a callback turn

    A computation transforms the state and either returns or throws; what
    it did before throwing stays done. *)

Inductive Res (A : Type) := Ok (a : A) | Throw (e : JsError).
Arguments Ok {A} a.
Arguments Throw {A} e.

Definition M (A : Type) : Type := St → St * Res A.

#[global] Instance M_ret : MRet M := λ A a st, (st, Ok a).

#[global] Instance M_bind : MBind M := λ A B f m st,
  match m st with
  | (st', Ok a) => f a st'
  | (st', Throw e) => (st', Throw e)
  end.

Definition throw {A} (e : JsError) : M A := λ st, (st, Throw e).

(** [try { m } catch (e) { h e }] *)
Definition try_catch {A} (m : M A) (h : JsError → M A) : M A := λ st,
  match m st with
  | (st', Ok a) => (st', Ok a)
  | (st', Throw e) => h e st'
  end.

(** A call to an async function whose promise is dropped: the caller goes
    on whatever the callee's outcome. *)
Definition detached (m : M unit) : M unit := λ st, ((m st).1, Ok tt).

Definition gets {A} (f : Hook → A) : M A := λ st, (st, Ok (f (hook st))).
Definition getw {A} (f : World → A) : M A := λ st, (st, Ok (f (world st))).
Definition modh (f : Hook → Hook) : M unit := λ st, (mkSt (f (hook st)) (world st), Ok tt).
Definition modw (f : World → World) : M unit := λ st, (mkSt (hook st) (f (world st)), Ok tt).

Definition emit (e : Effect) : M unit := modw (λ w, with_effects (effects w ++ [e]) w).

Fixpoint forEach {A} (f : A → M unit) (l : list A) : M unit :=
  match l with
  | [] => mret tt
  | x :: l' => f x ;; forEach f l'
  end.

Definition when (b : bool) (m : M unit) : M unit := if b then m else mret tt.

(** ** React setters and the console *)

Definition setConnectionState (cs : ConnectionState) : M unit :=
  modh (with_connectionState cs) ;; emit (StateSet cs).

Definition setError (msg : option string) : M unit := modh (with_error msg).

Definition setIsMuted (b : bool) : M unit := modh (with_isMuted b).

Definition console (level : LogLevel) (text : string) : M unit :=
  emit (Console level text).

(** ** Platform and transport operations *)

Definition InvalidStateError : JsError :=
  {| err_name := "InvalidStateError"; err_message := "" |}.

Definition TransportError : JsError :=
  {| err_name := "Error"; err_message := "transport failure" |}.

Definition stopped (n : SourceNode) : SourceNode :=
  {| node_buffer := node_buffer n; node_start := node_start n; node_stopped := true |}.

(** [AudioScheduledSourceNode.stop()]: an InvalidStateError unless the node
    has been started. *)
Definition source_stop (id : nat) : M unit :=
  ns ← getw nodes;
  match ns !! id with
  | Some n =>
      match node_start n with
      | Some _ => modw (with_nodes (<[id := stopped n]> ns))
      | None => throw InvalidStateError
      end
  | None => throw InvalidStateError
  end.

(** [ctx.createBufferSource()] followed by [sourceNode.buffer = audioBuffer]
    and the connection to the output gain. *)
Definition createBufferSource (audioBuffer : AudioBuffer) : M nat :=
  id ← getw nextId;
  modw (λ w, with_nextId (S id)
               (with_nodes (<[id := {| node_buffer := audioBuffer;
                                       node_start := None;
                                       node_stopped := false |}]> (nodes w)) w)) ;;
  mret id.

(** [sourceNode.start(when)]: an InvalidStateError when called twice.  The
    RangeError for a negative time is left out: the cursor passed here is
    never negative (lemma [run_cursor_nonneg]). *)
Definition source_start (id : nat) (when_ : Q) : M unit :=
  ns ← getw nodes;
  match ns !! id with
  | Some n =>
      match node_start n with
      | None => modw (with_nodes (<[id := {| node_buffer := node_buffer n;
                                            node_start := Some when_;
                                            node_stopped := node_stopped n |}]> ns))
      | Some _ => throw InvalidStateError
      end
  | None => throw InvalidStateError
  end.

(** [AudioContext.close()]: the promise rejects when the context is already
    closed. *)
Definition context_close (c : nat) : M unit :=
  closed ← getw closedContexts;
  if decide (c ∈ closed) then throw InvalidStateError
  else modw (with_closedContexts ({[c]} ∪ closed)).

(** [track.stop()] on every track of the stream.  MediaStreamTrack.stop has
    no failure mode: on an ended track it returns without doing anything. *)
Definition tracks_stop (stream : nat) : M unit := emit (TracksStopped stream).

Definition session_close (s : Session) : M unit :=
  if close_throws s then throw TransportError
  else emit (SessionClosed (session_id s)).

Definition sendRealtimeInput (s : Session) (media : Blob) (throws : bool) : M unit :=
  if throws then throw TransportError
  else emit (FrameSent (session_id s) media).

Definition fresh : M nat :=
  n ← getw nextId; modw (with_nextId (S n)) ;; mret n.

Definition set_stage (a : nat) (stage : Stage) : M unit :=
  modw (λ w, with_attempts
               (alter (λ t, {| att_rendered := att_rendered t; att_stage := stage |}) a
                  (attempts w)) w).

(** ** JavaScript strings *)

Definition truthy (s : string) : bool := negb (String.eqb s "").

Definition truthy_opt (o : option string) : bool :=
  match o with Some s => truthy s | None => false end.

Definition lower_ascii (c : ascii) : ascii :=
  let n := nat_of_ascii c in
  if (65 <=? n)%nat && (n <=? 90)%nat then ascii_of_nat (n + 32) else c.

(** [String.prototype.toLowerCase] is the platform's and knows all of
    Unicode (the Kelvin sign becomes k); its result reaches the hook with
    the event.  On text made of ASCII characters it changes the letters A
    to Z and nothing else: that map is [ascii_lower]. *)
Fixpoint ascii_lower (s : string) : string :=
  match s with
  | EmptyString => EmptyString
  | String c s' => String (lower_ascii c) (ascii_lower s')
  end.

Fixpoint ascii_only (s : string) : bool :=
  match s with
  | EmptyString => true
  | String c s' => (nat_of_ascii c <? 128)%nat && ascii_only s'
  end.

Fixpoint includes (s needle : string) : bool :=
  String.prefix needle s ||
  match s with
  | EmptyString => false
  | String _ s' => includes s' needle
  end.

(** ** disconnect (lines 29-72)

    The two awaited [close] calls settle within the turn. *)

(** Lines 43-45: [try { source.stop(); } catch (e) { /* ignore */ }]. *)
Definition stop_quietly (source : nat) : M unit :=
  try_catch (source_stop source) (λ _, mret tt).

Definition disconnect : M unit :=
  cur ← gets currentSessionRef;
  match cur with
  | Some s =>
      try_catch (session_close s) (λ _, console Warn "Error closing session:") ;;
      modh (with_currentSessionRef None)
  | None => mret tt
  end ;;
  modh (with_sessionPromiseRef None) ;;
  sources ← gets audioSourcesRef;
  forEach stop_quietly sources ;;
  modh (with_audioSourcesRef []) ;;
  stream ← gets mediaStreamRef;
  match stream with
  | Some ms => tracks_stop ms ;; modh (with_mediaStreamRef None)
  | None => mret tt
  end ;;
  inputCtx ← gets inputAudioContextRef;
  match inputCtx with
  | Some c =>
      try_catch (context_close c) (λ _, mret tt) ;;
      modh (with_inputAudioContextRef None)
  | None => mret tt
  end ;;
  outputCtx ← gets outputAudioContextRef;
  match outputCtx with
  | Some c =>
      try_catch (context_close c) (λ _, mret tt) ;;
      modh (with_outputAudioContextRef None)
  | None => mret tt
  end ;;
  setConnectionState DISCONNECTED ;;
  setIsMuted false.

(** ** connect (lines 74-246)

    [connect] suspends once, at [await getUserMedia].  [connect_begin] is
    the turn up to that point; [connect_resume] is the rest of the try
    block together with its catch clause, run when the microphone request
    settles. *)

(** Where the try block throws once both context refs are set (lines
    100-101): while the analysers, the output gain and the stream source
    are made, before [inputGainRef] is set (line 122), or after it, up to
    the call that creates the session. *)
Inductive LatePoint :=
| InGraph
| InClient.

(** How the microphone request settles and how far the rest of the try
    block gets.  The [fault] of [Granted] is thrown by an AudioContext
    constructor (lines 97-98), before the context refs are set. *)
Inductive MediaOutcome :=
| Granted (stream : nat) (fault : option JsError)
| Faulted (stream : nat) (point : LatePoint) (e : JsError)
| Rejected (e : JsError).

Definition connect_begin (API_KEY : option string) (rendered : ConnectionState) : M unit :=
  if negb (truthy_opt API_KEY) then
    setError (Some "API Key not found in environment variables.")
  else
    setConnectionState CONNECTING ;;
    setError None ;;
    a ← fresh;
    modw (λ w, with_attempts
                 (<[a := {| att_rendered := rendered; att_stage := Acquiring |}]> (attempts w)) w).

(** The exception a settled microphone request makes the try block throw,
    if any. *)
Definition setup_failure (o : MediaOutcome) : option JsError :=
  match o with
  | Rejected e => Some e
  | Granted _ fault => fault
  | Faulted _ _ e => Some e
  end.

(** The try block after [await getUserMedia] (lines 92-228).  The refs are
    set in the order of the source: the stream (92), both contexts
    (100-101), the input gain (122), the session promise (225). *)
Definition connect_setup (a : nat) (o : MediaOutcome) : M unit :=
  match o with
  | Rejected e => throw e
  | Granted stream fault =>
      modh (with_mediaStreamRef (Some stream)) ;;
      match fault with Some e => throw e | None => mret tt end ;;
      inputCtx ← fresh;
      outputCtx ← fresh;
      modh (with_inputAudioContextRef (Some inputCtx)) ;;
      modh (with_outputAudioContextRef (Some outputCtx)) ;;
      modh (with_inputGainRef (Some {| gain_ctx := inputCtx; gain_value := 1 |})) ;;
      scriptProcessor ← fresh;
      set_stage a (Opening scriptProcessor []) ;;
      modh (with_sessionPromiseRef (Some a))
  | Faulted stream point e =>
      modh (with_mediaStreamRef (Some stream)) ;;
      inputCtx ← fresh;
      outputCtx ← fresh;
      modh (with_inputAudioContextRef (Some inputCtx)) ;;
      modh (with_outputAudioContextRef (Some outputCtx)) ;;
      match point with
      | InGraph => throw e
      | InClient =>
          modh (with_inputGainRef (Some {| gain_ctx := inputCtx; gain_value := 1 |})) ;;
          throw e
      end
  end.

Definition connect_error_message (err : JsError) : string :=
  let errorMessage :=
    if truthy (err_message err) then err_message err
    else "Failed to connect to microphone or API." in
  if String.eqb (err_name err) "NotAllowedError"
     || String.eqb (err_name err) "PermissionDeniedError" then
    "Microphone access denied. Please allow microphone permissions in your browser."
  else if String.eqb (err_name err) "NotFoundError"
          || String.eqb (err_name err) "DevicesNotFoundError" then
    "No microphone found. Please connect a microphone."
  else if String.eqb (err_name err) "NotReadableError"
          || String.eqb (err_name err) "TrackStartError" then
    "Microphone is busy or not readable. Try closing other apps using the mic."
  else errorMessage.

(** The catch clause (lines 230-245) with the teardown it starts run to
    its end.  In the browser that teardown suspends at its first
    [await ...close()] when a context ref is set; [connect_catch_turn]
    below is the turn up to that point. *)
Definition connect_catch (err : JsError) : M unit :=
  console Error "Connection failed:" ;;
  setError (Some (connect_error_message err)) ;;
  setConnectionState ERROR ;;
  detached disconnect.

Definition connect_resume (a : nat) (o : MediaOutcome) : M unit :=
  try_catch (connect_setup a o) connect_catch.

(** ** Session callbacks *)

Definition send_reaction (s : Session) (r : Blob * bool) : M unit :=
  try_catch (sendRealtimeInput s r.1 r.2)
            (λ _, console Error "Error sending input:").

(** [sessionPromiseRef.current.then(session => ...)] (lines 162-168): on a
    pending promise the reaction is queued, on a fulfilled one it runs in
    the microtask that follows, on a rejected one it never runs. *)
Definition promise_then (a : nat) (r : Blob * bool) : M unit :=
  t ← getw (λ w, attempts w !! a);
  match att_stage <$> t with
  | Some (Opening proc queue) => set_stage a (Opening proc (queue ++ [r]))
  | Some (Opened _ s) => send_reaction s r
  | _ => mret tt
  end.

Definition gain_is_zero (g : option GainNode) : bool :=
  match g with
  | Some n => Qeq_bool (gain_value n) 0
  | None => false
  end.

(** onopen (lines 150-171): the capture handler is installed here. *)
Definition onopen (scriptProcessor : nat) : M unit :=
  console Log "Session opened" ;;
  setConnectionState CONNECTED ;;
  modw (λ w, with_handlers ({[scriptProcessor]} ∪ handlers w) w).

(** The transport acknowledges the session: [onopen] runs, then the session
    promise is fulfilled and its reactions run in registration order, the
    one of line 226 first. *)
Definition session_opened (a : nat) (s : Session) : M unit :=
  t ← getw (λ w, attempts w !! a);
  match att_stage <$> t with
  | Some (Opening proc queue) =>
      onopen proc ;;
      set_stage a (Opened proc s) ;;
      modh (with_currentSessionRef (Some s)) ;;
      forEach (send_reaction s) queue
  | _ => mret tt
  end.

Definition session_rejected (a : nat) : M unit :=
  t ← getw (λ w, attempts w !! a);
  match att_stage <$> t with
  | Some (Opening _ _) => set_stage a Failed
  | _ => mret tt
  end.

(** onclose (lines 205-210).  [connectionState] is the value captured by
    the closure of [connect], not the current state. *)
Definition onclose (rendered : ConnectionState) : M unit :=
  console Log "Session closed" ;;
  if decide (rendered = CONNECTED) then detached disconnect else mret tt.

(** onerror (lines 211-221); [lowered] is what [msg.toLowerCase()]
    evaluates to. *)
Definition onerror (e : JsError) (lowered : string) : M unit :=
  console Error "Session error" ;;
  let msg := if truthy (err_message e) then err_message e else "Connection error" in
  (if includes lowered "network" then
     setError (Some "Network Error: Could not connect to Gemini Live. Check your API Key and internet connection.")
   else
     setError (Some ("Session Error: " ++ msg)%string)) ;;
  detached disconnect.

(** toggleMute (lines 248-254); [rendered] is the [isMuted] its closure
    captured. *)
Definition toggleMute (rendered : bool) : M unit :=
  g ← gets inputGainRef;
  match g with
  | Some n =>
      let newMuteState := negb rendered in
      setIsMuted newMuteState ;;
      modh (with_inputGainRef
              (Some {| gain_ctx := gain_ctx n;
                       gain_value := if newMuteState then 0 else 1 |}))
  | None => mret tt
  end.

(** [sourceNode.onended] (lines 193-195). *)
Definition onended (id : nat) : M unit :=
  modh (λ h, with_audioSourcesRef (filter (λ x, x ≠ id) (audioSourcesRef h)) h).

(** [Set.prototype.add]: insertion order, no duplicates. *)
Definition set_add (id : nat) (l : list nat) : list nat :=
  if decide (id ∈ l) then l else l ++ [id].

(** ** Events

    What the browser, the transport and the user can make happen.  Nothing
    is assumed about when they happen: a script processor may fire after
    its context was closed, a message may arrive after teardown. *)

Inductive Event :=
| EvConnect (API_KEY : option string)
| EvUserMedia (a : nat) (o : MediaOutcome)
| EvOpen (a : nat) (s : Session)
| EvReject (a : nat)
| EvAudioProcess (proc : nat) (inputData : Frame) (send_throws : bool)
| EvMessage (m : Message) (now : Q)
| EvEnded (id : nat)
| EvClose (a : nat)
| EvError (e : JsError) (lowered : string)
| EvDisconnect
| EvToggleMute.

(** ** Vocabulary of the properties *)

Definition sent_frames (w : World) : list (nat * Blob) :=
  omap (λ e, match e with FrameSent sid b => Some (sid, b) | _ => None end) (effects w).

Definition transitions (w : World) : list ConnectionState :=
  omap (λ e, match e with StateSet cs => Some cs | _ => None end) (effects w).

(** What one guarded [stop] does to the node store. *)
Definition quiet_stop (id : nat) (ns : gmap nat SourceNode) : gmap nat SourceNode :=
  match ns !! id with
  | Some n =>
      match node_start n with
      | Some _ => <[id := stopped n]> ns
      | None => ns
      end
  | None => ns
  end.

Definition quiet_stops (l : list nat) (ns : gmap nat SourceNode) : gmap nat SourceNode :=
  foldl (λ m id, quiet_stop id m) ns l.

Definition started_in (ns : gmap nat SourceNode) (id : nat) : bool :=
  match ns !! id with
  | Some n => bool_decide (is_Some (node_start n))
  | None => false
  end.

Definition stopped_in (ns : gmap nat SourceNode) (id : nat) : bool :=
  match ns !! id with
  | Some n => node_stopped n
  | None => false
  end.

(** A node as [start(t)] leaves it. *)
Definition scheduled (buf : AudioBuffer) (t : Q) : SourceNode :=
  {| node_buffer := buf; node_start := Some t; node_stopped := false |}.

(** What a queued or immediate send reaction leaves in the effect log. *)
Definition reaction_effect (s : Session) (r : Blob * bool) : Effect :=
  if r.2 then Console Error "Error sending input:"
  else FrameSent (session_id s) r.1.


(** A turn of the playback side: of the hook cells only the cursor and the
    active source set may differ, and the world keeps its attempts,
    handlers, closed contexts, sent frames and state transitions. *)
Definition only_playback (st st' : St) : Prop :=
  (∃ q srcs, hook st' = with_audioSourcesRef srcs (with_nextStartTimeRef q (hook st))) ∧
  attempts (world st') = attempts (world st) ∧
  handlers (world st') = handlers (world st) ∧
  closedContexts (world st') = closedContexts (world st) ∧
  sent_frames (world st') = sent_frames (world st) ∧
  transitions (world st') = transitions (world st).

(** Every unit of the active source set has been started. *)
Definition sources_started (st : St) : Prop :=
  Forall (λ id, started_in (nodes (world st)) id = true) (audioSourcesRef (hook st)).

(** The hook cells as teardown leaves them. *)
Definition torn_down (h : Hook) : Hook :=
  mkHook DISCONNECTED (error h) false None None None
         (inputGainRef h) (nextStartTimeRef h) [] None None.

Definition cleared (h : Hook) : Prop :=
  connectionState h = DISCONNECTED ∧ currentSessionRef h = None ∧
  sessionPromiseRef h = None ∧ mediaStreamRef h = None ∧
  inputAudioContextRef h = None ∧ outputAudioContextRef h = None ∧
  audioSourcesRef h = [] ∧ isMuted h = false.

(** The gain node exists and its value agrees with [isMuted]. *)
Definition mute_in_sync (h : Hook) : Prop :=
  ∃ g, inputGainRef h = Some g ∧ gain_value g = if isMuted h then 0%Q else 1%Q.

(** No attempt's callbacks closed over the state CONNECTED. *)
Definition never_rendered_connected (st : St) : Prop :=
  ∀ a t, attempts (world st) !! a = Some t → att_rendered t ≠ CONNECTED.



Definition is_open (ev : Event) : Prop :=
  match ev with EvOpen _ _ => True | _ => False end.

Definition capture_events (frames : list (nat * Frame * bool)) : list Event :=
  (λ f, EvAudioProcess f.1.1 f.1.2 f.2) <$> frames.

Definition message_events (chunks : list (Message * Q)) : list Event :=
  (λ c, EvMessage c.1 c.2) <$> chunks.

(** ** A concrete codec and concrete traces *)

Definition sample_createPcmBlob (inputData : Frame) : Blob :=
  {| blob_data := "AAAA"; blob_mimeType := "audio/pcm;rate=16000" |}.

(** A toy codec: 1200 frames per character at 24 kHz; a payload of odd
    length is malformed. *)
Definition sample_decodeAudioData (data : string) : Res AudioBuffer :=
  if Nat.even (String.length data) then
    Ok {| buf_length := 1200 * N.of_nat (String.length data); buf_sampleRate := 24000 |}
  else Throw {| err_name := "RangeError"; err_message := "byte length" |}.

Definition sample_session : Session := {| session_id := 7; close_throws := false |}.

(** Credentials present, microphone granted, session acknowledged.  The
    attempt is object 0, the contexts 1 and 2, the script processor 3. *)
Definition sample_connect : list Event :=
  [EvConnect (Some "key"); EvUserMedia 0 (Granted 5 None); EvOpen 0 sample_session].

(** Half a second of audio, then three tenths. *)
Definition chunk_a : Message :=
  {| inlineData := Some "AAAAAAAAAA"; interrupted := false |}.

Definition chunk_b : Message :=
  {| inlineData := Some "BBBBBB"; interrupted := false |}.

Definition sample_chunks : list (Message * Q) := [(chunk_a, 1#4); (chunk_b, 1#2)].

Definition barge_in : Message := {| inlineData := None; interrupted := true |}.

(** Three units playing. *)
Definition sample_playing : list Event :=
  sample_connect ++ message_events [(chunk_a, 1#4); (chunk_b, 1#2); (chunk_b, 3#5)].

(** A state in which every guarded cleanup step fails: the session's close
    throws, source 9 does not exist, context 1 is already closed. *)
Definition wrecked : St :=
  mkSt (mkHook CONNECTED None true (Some 1) (Some 2) (Some 5)
          (Some {| gain_ctx := 1; gain_value := 0 |}) (3#2) [0; 9] (Some 0)
          (Some {| session_id := 7; close_throws := true |}))
       (mkWorld {[0 := scheduled {| buf_length := 12000; buf_sampleRate := 24000 |} 1]}
          {[1]} ∅ ∅ [] 10).

(** The transport reports close on an open session. *)
Definition remote_close : list Event := sample_connect ++ [EvClose 0].

(** Teardown while the session is opening, acknowledgment afterwards. *)
Definition late_open : list Event :=
  [EvConnect (Some "key"); EvUserMedia 0 (Granted 5 None); EvDisconnect;
   EvOpen 0 sample_session].

(** Teardown while the microphone request is pending, grant afterwards. *)
Definition late_grant : list Event :=
  [EvConnect (Some "key"); EvDisconnect; EvUserMedia 0 (Granted 5 None)].

(** A session, its teardown, then a mute toggle. *)
Definition toggle_after_teardown : list Event :=
  sample_connect ++ [EvDisconnect; EvToggleMute].

(** A session, its teardown, a second connect, a mute toggle while the
    microphone request is pending, then the second session opens.  The
    second attempt is object 4, its contexts 5 and 6, its processor 7. *)
Definition reconnect_muted : list Event :=
  sample_connect ++
  [EvDisconnect; EvConnect (Some "key"); EvToggleMute;
   EvUserMedia 4 (Granted 6 None);
   EvOpen 4 {| session_id := 8; close_throws := false |}].

Definition permission_denied : JsError :=
  {| err_name := "NotAllowedError"; err_message := "Permission denied" |}.

(** ** Reasoning support *)

Create HintDb hook_ops.

#[local] Hint Unfold mbind M_bind mret M_ret gets getw modh modw emit
  setConnectionState setError setIsMuted console throw try_catch detached
  when fresh set_stage tracks_stop session_close sendRealtimeInput : hook_ops.

Ltac crunch := autounfold with hook_ops; cbn.

(** ** Capture and playback handlers

    [createPcmBlob], [base64ToBytes] and [decodeAudioData] live in
    [utils/audioUtils], which is not among the sources at hand.  The
    handlers only pass the blob on and read the decoded buffer's duration,
    so the codec is a parameter: [decodeAudioData data] is what
    [decodeAudioData(base64ToBytes(data), ctx, 24000, 1)] settles to. *)

Section Handlers.

Variable createPcmBlob : Frame → Blob.
Variable decodeAudioData : string → Res AudioBuffer.

(** onaudioprocess (lines 155-170). *)
Definition onaudioprocess (inputData : Frame) (send_throws : bool) : M unit :=
  g ← gets inputGainRef;
  if gain_is_zero g then mret tt
  else
    let pcmBlob := createPcmBlob inputData in
    p ← gets sessionPromiseRef;
    match p with
    | Some a => promise_then a (pcmBlob, send_throws)
    | None => mret tt
    end.

(** Line 176. *)
Definition playback_rebase (now : Q) : M unit :=
  modh (λ h, with_nextStartTimeRef (Qmax (nextStartTimeRef h) now) h).

(** Lines 178-183. *)
Definition decode (base64Audio : string) : M AudioBuffer :=
  match decodeAudioData base64Audio with
  | Ok audioBuffer => mret audioBuffer
  | Throw e => throw e
  end.

(** Lines 185-195. *)
Definition playback_schedule (audioBuffer : AudioBuffer) : M unit :=
  sourceNode ← createBufferSource audioBuffer;
  startTime ← gets nextStartTimeRef;
  source_start sourceNode startTime ;;
  modh (with_nextStartTimeRef (startTime + duration audioBuffer)%Q) ;;
  modh (λ h, with_audioSourcesRef (set_add sourceNode (audioSourcesRef h)) h).

(** Lines 198-203. *)
Definition playback_interrupt : M unit :=
  console Log "Model interrupted" ;;
  sources ← gets audioSourcesRef;
  forEach source_stop sources ;;
  modh (with_audioSourcesRef []) ;;
  modh (with_nextStartTimeRef 0%Q).

(** onmessage (lines 172-204); [now] is [ctx.currentTime] as the handler
    reads it.  The turn runs to its end, awaited decoding included, before
    another callback touches the cursor. *)
Definition onmessage (message : Message) (now : Q) : M unit :=
  ctx ← gets outputAudioContextRef;
  match inlineData message, ctx with
  | Some base64Audio, Some _ =>
      if truthy base64Audio then
        playback_rebase now ;;
        audioBuffer ← decode base64Audio;
        playback_schedule audioBuffer
      else mret tt
  | _, _ => mret tt
  end ;;
  when (interrupted message) playback_interrupt.

(** ** The event loop *)

(** The turn an event starts.  The UI calls [connect] and [toggleMute] as
    the latest render created them, so their closures hold the current
    [connectionState] and [isMuted]; the transport callbacks of an attempt
    keep the closure of the [connect] call that made them.  An attempt
    leaves [Acquiring] when its microphone request settles, and a session
    promise settles once. *)
Definition handler (ev : Event) : M unit :=
  match ev with
  | EvConnect API_KEY =>
      rendered ← gets connectionState;
      connect_begin API_KEY rendered
  | EvUserMedia a o =>
      t ← getw (λ w, attempts w !! a);
      match att_stage <$> t with
      | Some Acquiring => set_stage a Failed ;; connect_resume a o
      | _ => mret tt
      end
  | EvOpen a s => session_opened a s
  | EvReject a => session_rejected a
  | EvAudioProcess proc inputData send_throws =>
      installed ← getw handlers;
      if decide (proc ∈ installed) then onaudioprocess inputData send_throws
      else mret tt
  | EvMessage m now => onmessage m now
  | EvEnded id => onended id
  | EvClose a =>
      t ← getw (λ w, attempts w !! a);
      match t with
      | Some {| att_rendered := rendered; att_stage := Opening _ _ |}
      | Some {| att_rendered := rendered; att_stage := Opened _ _ |} => onclose rendered
      | _ => mret tt
      end
  | EvError e lowered => onerror e lowered
  | EvDisconnect => disconnect
  | EvToggleMute =>
      rendered ← gets isMuted;
      toggleMute rendered
  end.

(** An exception that escapes a turn is reported by the runtime; the state
    the turn left behind stays. *)
Definition step (ev : Event) (st : St) : St := (handler ev st).1.

Definition run (evs : list Event) (st : St) : St :=
  foldl (λ s ev, step ev s) st evs.

(** Along the run, [connect] is only invoked while the state is not
    CONNECTED.  Nothing enforces this: the application shows its start
    button whenever [hasStarted] is false, also in state CONNECTED. *)
Fixpoint connects_guarded (evs : list Event) (st : St) : Prop :=
  match evs with
  | [] => True
  | ev :: evs' =>
      match ev with
      | EvConnect _ => connectionState (hook st) ≠ CONNECTED
      | _ => True
      end ∧ connects_guarded evs' (step ev st)
  end.

(** The message carries a non-empty audio payload that decodes to [buf]. *)
Definition playable (m : Message) (buf : AudioBuffer) : Prop :=
  ∃ data, inlineData m = Some data ∧ truthy data = true ∧
          decodeAudioData data = Ok buf.



(** ** Further vocabulary: playback bookkeeping *)

(** The unit has been started and not stopped. *)
Definition playing_in (ns : gmap nat SourceNode) (id : nat) : bool :=
  match ns !! id with
  | Some n => bool_decide (is_Some (node_start n)) && negb (node_stopped n)
  | None => false
  end.

(** The time a unit was started at, and the time its buffer ends. *)
Definition start_of (ns : gmap nat SourceNode) (id : nat) : Q :=
  match ns !! id with
  | Some n => default 0%Q (node_start n)
  | None => 0%Q
  end.

Definition end_of (ns : gmap nat SourceNode) (id : nat) : Q :=
  match ns !! id with
  | Some n => (default 0%Q (node_start n) + duration (node_buffer n))%Q
  | None => 0%Q
  end.

(** The active source set holds each unit once; its units were created,
    started and not stopped. *)
Definition active_set_sound (st : St) : Prop :=
  NoDup (audioSourcesRef (hook st)) ∧
  Forall (λ id, (id < nextId (world st))%nat ∧
                playing_in (nodes (world st)) id = true)
         (audioSourcesRef (hook st)).

(** Neither the cursor nor any start time is negative. *)
Definition times_nonneg (st : St) : Prop :=
  (0 <= nextStartTimeRef (hook st))%Q ∧
  ∀ id n t, nodes (world st) !! id = Some n → node_start n = Some t → (0 <= t)%Q.

(** The units of the active set, in the order they were added, do not
    overlap, and all of them end by the cursor. *)
Definition no_overlap (st : St) : Prop :=
  Forall (λ id, (end_of (nodes (world st)) id <= nextStartTimeRef (hook st))%Q)
         (audioSourcesRef (hook st)) ∧
  ForallOrdPairs (λ i j, (end_of (nodes (world st)) i <= start_of (nodes (world st)) j)%Q)
                 (audioSourcesRef (hook st)).

Definition playback_sound (st : St) : Prop :=
  active_set_sound st ∧ times_nonneg st ∧ no_overlap st.

(** What a turn outside the playback handlers may do to the playback
    cells: nothing, or what teardown does. *)
Definition playback_kept (st st' : St) : Prop :=
  nodes (world st') = nodes (world st) ∧
  audioSourcesRef (hook st') = audioSourcesRef (hook st) ∧
  nextStartTimeRef (hook st') = nextStartTimeRef (hook st) ∧
  (nextId (world st) <= nextId (world st'))%nat.

Definition playback_torn (st st' : St) : Prop :=
  nodes (world st') = quiet_stops (audioSourcesRef (hook st)) (nodes (world st)) ∧
  audioSourcesRef (hook st') = [] ∧
  nextStartTimeRef (hook st') = nextStartTimeRef (hook st) ∧
  (nextId (world st) <= nextId (world st'))%nat.

Definition is_message (ev : Event) : Prop :=
  match ev with EvMessage _ _ => True | _ => False end.

Definition is_ended (ev : Event) : Prop :=
  match ev with EvEnded _ => True | _ => False end.

#[global] Instance is_message_dec ev : Decision (is_message ev).
Proof. destruct ev; cbn; apply _. Defined.

#[global] Instance is_ended_dec ev : Decision (is_ended ev).
Proof. destruct ev; cbn; apply _. Defined.

(** What holds of the React state after every turn: a stored error message
    is a non-empty string, and MuteState is false as long as no gain node
    was ever built. *)
Definition hook_facts (st : St) : Prop :=
  (∀ msg, error (hook st) = Some msg → truthy msg = true) ∧
  (inputGainRef (hook st) = None → isMuted (hook st) = false).

(** Events that neither run teardown nor build a capture graph. *)
Definition keeps_capture_graph (ev : Event) : Prop :=
  match ev with
  | EvUserMedia _ _ | EvClose _ | EvError _ _ | EvDisconnect => False
  | _ => True
  end.

(** The reactions a list of capture frames registers on the session
    promise: one per frame whose script processor has its handler
    installed, in capture order. *)
Definition captured (installed : gset nat) (frames : list (nat * Frame * bool))
  : list (Blob * bool) :=
  omap (λ f, if decide (f.1.1 ∈ installed) then Some (createPcmBlob f.1.2, f.2) else None)
       frames.

(** The frames the transport receives when the reactions run on session
    [s]: those whose send does not throw. *)
Definition delivered (s : Session) (rs : list (Blob * bool)) : list (nat * Blob) :=
  omap (λ r, if r.2 : bool then None else Some (session_id s, r.1)) rs.

(** ** The application component (lines 302-417)

    [App] keeps one state cell of its own, [hasStarted], next to the hook.
    Its buttons call [connect], [disconnect] and [toggleMute] of the latest
    render. *)

Record App := mkApp { hasStarted : bool; assistant : St }.

Definition initial_app : App := mkApp false initial.

(** handleStart (lines 316-319); [API_KEY] is the key the environment
    holds when [connect] reads it. *)
Definition handleStart (API_KEY : option string) (app : App) : App :=
  mkApp true (step (EvConnect API_KEY) (assistant app)).

(** handleStop (lines 321-324). *)
Definition handleStop (app : App) : App :=
  mkApp false (step EvDisconnect (assistant app)).

(** Lines 327-335. *)
Definition getStatusText (cs : ConnectionState) : string :=
  match cs with
  | DISCONNECTED => "Ready to Connect"
  | CONNECTING => "Connecting..."
  | CONNECTED => "Listening"
  | ERROR => "Connection Failed"
  end.

(** Lines 338-345. *)
Definition getStatusColor (cs : ConnectionState) : string :=
  match cs with
  | CONNECTED => "text-emerald-400"
  | CONNECTING => "text-yellow-400"
  | ERROR => "text-red-400"
  | DISCONNECTED => "text-slate-400"
  end.

(** Line 388: the start button is rendered, and the mute and stop buttons
    are not, exactly when this holds. *)
Definition start_button_shown (app : App) : bool :=
  negb (hasStarted app)
  || bool_decide (connectionState (hook (assistant app)) = DISCONNECTED).

(** Line 379: [{error && ...}]. *)
Definition error_overlay_shown (app : App) : bool :=
  truthy_opt (error (hook (assistant app))).

(** Line 374: the [isActive] prop of the visualizer. *)
Definition visualizer_isActive (app : App) : bool :=
  bool_decide (connectionState (hook (assistant app)) = CONNECTED).

(** What can happen to the application: a click on one of its three
    buttons, or an event of the browser or the transport.  A click on a
    button that is not rendered cannot happen and changes nothing. *)
Inductive UiEvent :=
| ClickStart (API_KEY : option string)
| ClickMute
| ClickStop
| Outside (ev : Event).

Definition ui_step (e : UiEvent) (app : App) : App :=
  match e with
  | ClickStart API_KEY =>
      if start_button_shown app then handleStart API_KEY app else app
  | ClickMute =>
      if start_button_shown app then app
      else mkApp (hasStarted app) (step EvToggleMute (assistant app))
  | ClickStop =>
      if start_button_shown app then app else handleStop app
  | Outside ev => mkApp (hasStarted app) (step ev (assistant app))
  end.

Definition ui_run (es : list UiEvent) (app : App) : App :=
  foldl (λ a e, ui_step e a) app es.

(** The streams whose tracks were stopped, in order. *)
Definition stopped_streams (w : World) : list nat :=
  omap (λ e, match e with TracksStopped s => Some s | _ => None end) (effects w).

(** The event is a microphone grant that hands over the stream [ms]. *)
Definition grants (ms : nat) (ev : Event) : Prop :=
  match ev with
  | EvUserMedia _ (Granted stream _) | EvUserMedia _ (Faulted stream _ _) => stream = ms
  | _ => False
  end.

(** ** The visualizer's volume arithmetic (Visualizer.tsx, lines 27-96)

    The active branch of [draw].  Byte arrays are lists of numbers below
    256; JavaScript numbers are rationals, as for the playback clock. *)

(** Lines 27-28: [new Uint8Array(analyser?.frequencyBinCount || 128)];
    [None] is a null analyser. *)
Definition dataArrayLength (frequencyBinCount : option N) : N :=
  match frequencyBinCount with
  | Some n => if (n =? 0)%N then 128%N else n
  | None => 128%N
  end.

(** Lines 57-63: the loop that sums the bytes, then the division by the
    array length. *)
Definition average (dataArray : list N) : Q :=
  (inject_Z (Z.of_N (foldl N.add 0%N dataArray))
   / inject_Z (Z.of_nat (length dataArray)))%Q.

(** Line 66. *)
Definition isOutputDominant (inputAvg outputAvg : Q) : bool :=
  negb (Qle_bool outputAvg inputAvg).

(** Line 67: pink for the model, indigo for the user. *)
Definition primaryColor (inputAvg outputAvg : Q) : string :=
  if isOutputDominant inputAvg outputAvg then "236, 72, 153" else "99, 102, 241".

(** Line 69. *)
Definition combinedAvg (inputAvg outputAvg : Q) : Q := Qmax inputAvg outputAvg.

(** Line 70. *)
Definition scale (combinedAvg : Q) : Q := (1 + (combinedAvg / 255) * (3 # 2))%Q.

(** Line 75. *)
Definition radius (combinedAvg : Q) : Q := (60 * scale combinedAvg)%Q.

(** Line 94: the particles are drawn. *)
Definition particles_drawn (combinedAvg : Q) : bool := negb (Qle_bool combinedAvg 20).

(** ** More concrete data *)

(** What [chunk_a] decodes to with the toy codec. *)
Definition sample_buffer : AudioBuffer :=
  {| buf_length := 12000; buf_sampleRate := 24000 |}.

Definition second_session : Session := {| session_id := 8; close_throws := false |}.

(** A session is open and a second connect has built its graph: the
    second attempt is object 4, its contexts 5 and 6, its processor 7,
    and its session promise is pending. *)
Definition second_connect_pending : list Event :=
  sample_connect ++ [EvConnect (Some "key"); EvUserMedia 4 (Granted 6 None)].

(** Four capture frames: the second one's send throws, the third comes
    from a script processor without a handler. *)
Definition sample_frames : list (nat * Frame * bool) :=
  [(3, [1 # 2], false); (3, [], true); (9, [], false); (3, [0 # 1], false)].

(** A payload the toy codec rejects, with the interruption flag. *)
Definition undecodable : Message :=
  {| inlineData := Some "AAA"; interrupted := true |}.


#[global] Instance is_open_dec ev : Decision (is_open ev).
Proof. destruct ev; cbn; apply _. Defined.

(** The event settles a microphone request with a stream, after which
    connect builds its audio graph. *)
Definition builds_graph (ev : Event) : Prop :=
  match ev with
  | EvUserMedia _ (Granted _ _) | EvUserMedia _ (Faulted _ _ _) => True
  | _ => False
  end.

(** ** Teardown turn by turn

    [disconnect] is an async function and no caller awaits it: it runs up
    to its first [await] within the caller's turn and goes on when that
    close has settled.  [disconnect] above is the whole of it; here it is
    cut at the first [await]. *)

(** Lines 30-53: what runs before an [await] can be reached. *)
Definition disconnect_sync : M unit :=
  cur ← gets currentSessionRef;
  match cur with
  | Some s =>
      try_catch (session_close s) (λ _, console Warn "Error closing session:") ;;
      modh (with_currentSessionRef None)
  | None => mret tt
  end ;;
  modh (with_sessionPromiseRef None) ;;
  sources ← gets audioSourcesRef;
  forEach stop_quietly sources ;;
  modh (with_audioSourcesRef []) ;;
  stream ← gets mediaStreamRef;
  match stream with
  | Some ms => tracks_stop ms ;; modh (with_mediaStreamRef None)
  | None => mret tt
  end.

(** Lines 56-67: the two guarded [await ...close()]. *)
Definition disconnect_closes : M unit :=
  inputCtx ← gets inputAudioContextRef;
  match inputCtx with
  | Some c =>
      try_catch (context_close c) (λ _, mret tt) ;;
      modh (with_inputAudioContextRef None)
  | None => mret tt
  end ;;
  outputCtx ← gets outputAudioContextRef;
  match outputCtx with
  | Some c =>
      try_catch (context_close c) (λ _, mret tt) ;;
      modh (with_outputAudioContextRef None)
  | None => mret tt
  end.

(** Lines 69-71. *)
Definition disconnect_finish : M unit :=
  setConnectionState DISCONNECTED ;;
  setIsMuted false.

(** Teardown reaches an [await] when it finds a context to close (lines
    56 and 62). *)
Definition awaits_close (h : Hook) : bool :=
  bool_decide (is_Some (inputAudioContextRef h))
  || bool_decide (is_Some (outputAudioContextRef h)).

(** The part of [disconnect] that runs in the turn that calls it. *)
Definition disconnect_turn : M unit :=
  disconnect_sync ;;
  suspended ← gets awaits_close;
  if suspended : bool then mret tt else disconnect_finish.

(** What is left of a suspended teardown, run when the closes settle. *)
Definition disconnect_rest : M unit :=
  disconnect_closes ;;
  disconnect_finish.

(** The catch clause of connect (lines 230-245) as the turn it runs in. *)
Definition connect_catch_turn (err : JsError) : M unit :=
  console Error "Connection failed:" ;;
  setError (Some (connect_error_message err)) ;;
  setConnectionState ERROR ;;
  detached disconnect_turn.

(** The turn in which the microphone request of attempt [a] settles. *)
Definition user_media_turn (a : nat) (o : MediaOutcome) : M unit :=
  t ← getw (λ w, attempts w !! a);
  match att_stage <$> t with
  | Some Acquiring =>
      set_stage a Failed ;;
      try_catch (connect_setup a o) connect_catch_turn
  | _ => mret tt
  end.
(** ** Runs *)

Lemma run_app evs1 evs2 st : run (evs1 ++ evs2) st = run evs2 (run evs1 st).
Proof. apply foldl_app. Qed.


(** ** Stopping source nodes *)

Lemma quiet_stop_lookup id ns j :
  quiet_stop id ns !! j =
  (λ n, if decide (j = id ∧ is_Some (node_start n)) then stopped n else n) <$> ns !! j.
Proof.
  unfold quiet_stop. destruct (ns !! id) as [n|] eqn:Hid.
  - destruct (node_start n) as [t|] eqn:Hs.
    + destruct (decide (j = id)) as [->|Hne].
      * rewrite lookup_insert_eq, Hid. cbn. rewrite Hs.
        rewrite decide_True; [reflexivity | split; [reflexivity | eauto]].
      * rewrite lookup_insert_ne by congruence.
        destruct (ns !! j) as [m|]; cbn; [|reflexivity].
        rewrite decide_False; [reflexivity | intros [? _]; congruence].
    + destruct (decide (j = id)) as [->|Hne].
      * rewrite Hid. cbn. rewrite Hs.
        rewrite decide_False; [reflexivity | intros [_ [? ?]]; congruence].
      * destruct (ns !! j) as [m|]; cbn; [|reflexivity].
        rewrite decide_False; [reflexivity | intros [? _]; congruence].
  - destruct (ns !! j) as [m|] eqn:Hj; cbn; [|reflexivity].
    rewrite decide_False; [reflexivity | intros [-> _]; congruence].
Qed.

Lemma quiet_stops_lookup l ns j :
  quiet_stops l ns !! j =
  (λ n, if decide (j ∈ l ∧ is_Some (node_start n)) then stopped n else n) <$> ns !! j.
Proof.
  revert ns. induction l as [|id l IH]; intros ns; cbn.
  - destruct (ns !! j) as [n|]; cbn; [|reflexivity].
    rewrite decide_False; [reflexivity | intros [H _]; inversion H].
  - unfold quiet_stops in IH. rewrite IH, quiet_stop_lookup.
    destruct (ns !! j) as [n|]; cbn; [|reflexivity]. f_equal.
    destruct (decide (j = id ∧ is_Some (node_start n))) as [[-> Hs]|Hn].
    + cbn. destruct (decide (id ∈ l ∧ is_Some (node_start n))) as [|];
        rewrite decide_True; try reflexivity; (split; [left | assumption]).
    + destruct (decide (j ∈ l ∧ is_Some (node_start n))) as [[Hl Hs]|Hn'].
      * rewrite decide_True; [reflexivity | split; [right; assumption | assumption]].
      * rewrite decide_False; [reflexivity|].
        intros [Hin Hs]. apply elem_of_cons in Hin as [->|Hin]; tauto.
Qed.

Lemma started_in_quiet_stops l ns j :
  started_in (quiet_stops l ns) j = started_in ns j.
Proof.
  unfold started_in. rewrite quiet_stops_lookup.
  destruct (ns !! j) as [n|]; cbn; [|reflexivity].
  case_decide; reflexivity.
Qed.

Lemma stopped_in_quiet_stops l ns j :
  j ∈ l → started_in ns j = true → stopped_in (quiet_stops l ns) j = true.
Proof.
  unfold started_in, stopped_in. rewrite quiet_stops_lookup.
  destruct (ns !! j) as [n|]; cbn; [|discriminate].
  intros Hl Hs. apply bool_decide_eq_true in Hs.
  rewrite decide_True; [reflexivity | split; assumption].
Qed.

Lemma stop_quietly_run id h w :
  stop_quietly id (mkSt h w)
  = (mkSt h (with_nodes (quiet_stop id (nodes w)) w), Ok tt).
Proof.
  unfold stop_quietly, source_stop, quiet_stop. crunch.
  destruct w as [nd cl at_ hd ef ni]; cbn.
  destruct (nd !! id) as [n|]; cbn; [destruct (node_start n); cbn|]; reflexivity.
Qed.

Lemma forEach_stop_quietly l h w :
  forEach stop_quietly l (mkSt h w)
  = (mkSt h (with_nodes (quiet_stops l (nodes w)) w), Ok tt).
Proof.
  revert w. induction l as [|id l IH]; intros w.
  - destruct w; reflexivity.
  - cbn [forEach]. unfold mbind, M_bind. rewrite stop_quietly_run, IH.
    destruct w; reflexivity.
Qed.

(** An unguarded [stop] succeeds on a started node. *)
Lemma source_stop_started id h w :
  started_in (nodes w) id = true →
  source_stop id (mkSt h w)
  = (mkSt h (with_nodes (quiet_stop id (nodes w)) w), Ok tt).
Proof.
  unfold started_in, source_stop, quiet_stop. crunch.
  destruct w as [nd cl at_ hd ef ni]; cbn.
  destruct (nd !! id) as [n|]; cbn; [|discriminate].
  destruct (node_start n); cbn; [reflexivity | discriminate].
Qed.

Lemma forEach_source_stop l h w :
  Forall (λ id, started_in (nodes w) id = true) l →
  forEach source_stop l (mkSt h w)
  = (mkSt h (with_nodes (quiet_stops l (nodes w)) w), Ok tt).
Proof.
  revert w. induction l as [|id l IH]; intros w Hall.
  - destruct w; reflexivity.
  - inversion Hall as [|? ? Hid Hl]; subst.
    cbn [forEach]. unfold mbind, M_bind.
    rewrite (source_stop_started _ _ _ Hid), IH.
    + destruct w; reflexivity.
    + cbn. eapply Forall_impl; [exact Hl|]. intros j Hj. cbn in Hj.
      change (quiet_stop id (nodes w)) with (quiet_stops [id] (nodes w)).
      rewrite started_in_quiet_stops. exact Hj.
Qed.

Lemma forEach_invariant {A} (f : A → M unit) (P : St → Prop) l st :
  (∀ x s, P s → P (f x s).1) → P st → P (forEach f l st).1.
Proof.
  intros Hf. revert st. induction l as [|x l IH]; intros st Hst; [exact Hst|].
  cbn [forEach]. unfold mbind, M_bind.
  specialize (Hf x st Hst). destruct (f x st) as [s' [[]|e]]; cbn in *; auto.
Qed.

Lemma source_stop_hook id st : hook (source_stop id st).1 = hook st.
Proof.
  unfold source_stop. crunch.
  destruct (nodes (world st) !! id) as [n|]; cbn; [destruct (node_start n)|];
    reflexivity.
Qed.

(** Whatever happens, the unguarded loop leaves the hook cells alone. *)
Lemma forEach_source_stop_hook l st :
  hook (forEach source_stop l st).1 = hook st.
Proof.
  apply (forEach_invariant source_stop (λ s, hook s = hook st)); [|reflexivity].
  intros x s Hs. rewrite source_stop_hook. exact Hs.
Qed.

(** ** Teardown *)

Lemma disconnect_spec st :
  ∃ w', disconnect st = (mkSt (torn_down (hook st)) w', Ok tt) ∧
        attempts w' = attempts (world st) ∧
        handlers w' = handlers (world st) ∧
        nextId w' = nextId (world st) ∧
        sent_frames w' = sent_frames (world st) ∧
        transitions w' = transitions (world st) ++ [DISCONNECTED] ∧
        nodes w' = quiet_stops (audioSourcesRef (hook st)) (nodes (world st)).
Proof.
  destruct st as [[cs er mu ic oc ms ig nst srcs sp cur] [nd cl at_ hd ef ni]].
  unfold disconnect. crunch.
  destruct cur as [[sid ct]|]; [destruct ct|]; cbn.
  all: rewrite forEach_stop_quietly; cbn.
  all: destruct ms; cbn.
  all: unfold context_close; crunch.
  all: destruct ic; cbn; repeat case_decide; cbn.
  all: destruct oc; cbn; repeat case_decide; cbn.
  all: eexists; split; [reflexivity|]; cbn.
  all: unfold sent_frames, transitions; cbn; rewrite ?omap_app; cbn;
       rewrite ?app_nil_r; repeat split; reflexivity.
Qed.

Lemma disconnect_cleanup st :
  (∀ s, currentSessionRef (hook st) = Some s → close_throws s = false →
        SessionClosed (session_id s) ∈ effects (world (disconnect st).1)) ∧
  (∀ ms, mediaStreamRef (hook st) = Some ms →
         TracksStopped ms ∈ effects (world (disconnect st).1)) ∧
  (∀ c, inputAudioContextRef (hook st) = Some c ∨
        outputAudioContextRef (hook st) = Some c →
        c ∈ closedContexts (world (disconnect st).1)).
Proof.
  destruct st as [[cs er mu ic oc ms ig nst srcs sp cur] [nd cl at_ hd ef ni]].
  unfold disconnect. crunch.
  destruct cur as [[sid ct]|]; [destruct ct|]; cbn.
  all: rewrite forEach_stop_quietly; cbn.
  all: destruct ms; cbn.
  all: unfold context_close; crunch.
  all: destruct ic; cbn; repeat case_decide; cbn.
  all: destruct oc; cbn; repeat case_decide; cbn.
  all: (split; [|split]);
       [ intros s Hs Hc; simplify_eq/=; rewrite ?elem_of_app, ?elem_of_cons;
         naive_solver
       | intros m Hm; simplify_eq/=; rewrite ?elem_of_app, ?elem_of_cons;
         naive_solver
       | intros c [Hc|Hc]; simplify_eq/=; set_unfold; naive_solver ].
Qed.

(** C5.  Teardown never raises, whatever state it starts from: it returns
    normally, leaves ConnectionState DISCONNECTED with the session handle,
    the session promise, the media stream, both audio contexts, the active
    source set and the mute state cleared, and does so again when invoked a
    second time.  Each cleanup step runs whatever the other steps did: a
    session whose close succeeds is closed, every started source is
    stopped, the tracks are stopped and both contexts are closed, also
    when the session close throws, a source cannot be stopped or a context
    is already closed. *)
Theorem disconnect_never_raises_and_is_idempotent (st : St) :
  let first := disconnect st in
  let second := disconnect first.1 in
  first.2 = Ok tt ∧ cleared (hook first.1) ∧
  second.2 = Ok tt ∧ cleared (hook second.1) ∧
  (∀ s, currentSessionRef (hook st) = Some s → close_throws s = false →
        SessionClosed (session_id s) ∈ effects (world first.1)) ∧
  (∀ id, id ∈ audioSourcesRef (hook st) →
         started_in (nodes (world st)) id = true →
         stopped_in (nodes (world first.1)) id = true) ∧
  (∀ ms, mediaStreamRef (hook st) = Some ms →
         TracksStopped ms ∈ effects (world first.1)) ∧
  (∀ c, inputAudioContextRef (hook st) = Some c ∨
        outputAudioContextRef (hook st) = Some c →
        c ∈ closedContexts (world first.1)).
Proof.
  cbn zeta.
  destruct (disconnect_cleanup st) as (Hsess & Htracks & Hctx).
  destruct (disconnect_spec st) as (w1 & E1 & _ & _ & _ & _ & _ & Hnodes).
  destruct (disconnect_spec (disconnect st).1) as (w2 & E2 & _).
  rewrite E2. rewrite E1 in *. cbn.
  repeat split; try assumption.
  intros id Hin Hstarted. rewrite Hnodes.
  apply stopped_in_quiet_stops; assumption.
Qed.

(** ** Playback *)

Lemma duration_nonneg buf : (0 <= duration buf)%Q.
Proof. unfold duration, Qle. cbn. lia. Qed.

Lemma Qmax_ge_l a b : (a <= Qmax a b)%Q.
Proof. apply Q.le_max_l. Qed.


Lemma Qmax_keep a b : (b <= a)%Q → Qmax a b = a.
Proof.
  intros H. unfold Qmax, GenericMinMax.gmax.
  destruct (a ?= b)%Q eqn:E; try reflexivity.
  apply Qlt_alt in E. exfalso. apply (Qlt_not_le _ _ E H).
Qed.

Lemma playback_schedule_run buf h w :
  playback_schedule buf (mkSt h w)
  = (mkSt (with_audioSourcesRef (set_add (nextId w) (audioSourcesRef h))
             (with_nextStartTimeRef (nextStartTimeRef h + duration buf)%Q h))
          (with_nextId (S (nextId w))
             (with_nodes (<[nextId w := scheduled buf (nextStartTimeRef h)]> (nodes w)) w)),
     Ok tt).
Proof.
  unfold playback_schedule, createBufferSource, source_start. crunch.
  rewrite lookup_insert_eq. cbn. rewrite insert_insert_eq. reflexivity.
Qed.

Lemma playback_interrupt_run h w :
  Forall (λ id, started_in (nodes w) id = true) (audioSourcesRef h) →
  playback_interrupt (mkSt h w)
  = (mkSt (with_nextStartTimeRef 0%Q (with_audioSourcesRef [] h))
          (with_nodes (quiet_stops (audioSourcesRef h) (nodes w))
             (with_effects (effects w ++ [Console Log "Model interrupted"]) w)),
     Ok tt).
Proof.
  intros Hall. unfold playback_interrupt. crunch.
  rewrite forEach_source_stop by exact Hall. reflexivity.
Qed.

(** The audio branch of [onmessage] on a playable message. *)
Lemma onmessage_playable m now buf h w :
  is_Some (outputAudioContextRef h) → playable m buf → interrupted m = false →
  onmessage m now (mkSt h w)
  = (mkSt (with_audioSourcesRef (set_add (nextId w) (audioSourcesRef h))
             (with_nextStartTimeRef
                (Qmax (nextStartTimeRef h) now + duration buf)%Q h))
          (with_nextId (S (nextId w))
             (with_nodes (<[nextId w := scheduled buf (Qmax (nextStartTimeRef h) now)]>
                            (nodes w)) w)),
     Ok tt).
Proof.
  intros [ctx Hctx] (data & Hdata & Htruthy & Hdec) Hflag.
  unfold onmessage, playback_rebase, decode.
  rewrite Hflag, Hdata. crunch. rewrite Hctx, Htruthy, Hdec. cbn.
  rewrite playback_schedule_run. cbn. destruct h, w; reflexivity.
Qed.

Lemma only_playback_refl st : only_playback st st.
Proof.
  unfold only_playback. repeat split; try reflexivity.
  exists (nextStartTimeRef (hook st)), (audioSourcesRef (hook st)).
  destruct st as [[] ?]; reflexivity.
Qed.

Lemma only_playback_trans st1 st2 st3 :
  only_playback st1 st2 → only_playback st2 st3 → only_playback st1 st3.
Proof.
  intros ((q & l & H1) & A1 & B1 & C1 & D1 & E1) ((q' & l' & H2) & A2 & B2 & C2 & D2 & E2).
  unfold only_playback. repeat split; try congruence.
  exists q', l'. rewrite H2, H1. reflexivity.
Qed.

Lemma only_playback_cells q srcs h w w' :
  attempts w' = attempts w → handlers w' = handlers w →
  closedContexts w' = closedContexts w →
  sent_frames w' = sent_frames w → transitions w' = transitions w →
  only_playback (mkSt h w)
    (mkSt (with_audioSourcesRef srcs (with_nextStartTimeRef q h)) w').
Proof. intros. unfold only_playback. cbn. eauto 10. Qed.

Lemma source_stop_only_playback id st : only_playback st (source_stop id st).1.
Proof.
  unfold source_stop. crunch.
  destruct (nodes (world st) !! id) as [n|]; cbn;
    [destruct (node_start n); cbn|]; try apply only_playback_refl.
  unfold only_playback. cbn. repeat split; try reflexivity.
  exists (nextStartTimeRef (hook st)), (audioSourcesRef (hook st)).
  destruct st as [[] ?]; reflexivity.
Qed.

Lemma playback_interrupt_only_playback st :
  only_playback st (playback_interrupt st).1.
Proof.
  unfold playback_interrupt. crunch.
  match goal with |- context [forEach source_stop ?l ?s] =>
    assert (Hloop : only_playback st (forEach source_stop l s).1);
    [ apply (forEach_invariant source_stop (only_playback st))
    | destruct (forEach source_stop l s) as [s' [[]|e]]; cbn in * ]
  end.
  - intros x s Hs. eapply only_playback_trans; [exact Hs|].
    apply source_stop_only_playback.
  - destruct st as [h w]. cbn.
    replace h with (with_audioSourcesRef (audioSourcesRef h)
                      (with_nextStartTimeRef (nextStartTimeRef h) h)) at 2
      by (destruct h; reflexivity).
    apply only_playback_cells; try reflexivity;
      unfold sent_frames, transitions; cbn; rewrite omap_app, app_nil_r; reflexivity.
  - destruct Hloop as ((q & l & Hh) & ? & ? & ? & ? & ?).
    unfold only_playback. cbn. repeat split; try assumption.
    exists 0%Q, []. rewrite Hh. reflexivity.
  - exact Hloop.
Qed.

Lemma onmessage_only_playback m now st : only_playback st (onmessage m now st).1.
Proof.
  assert (Hwhen : ∀ s, only_playback st s →
            only_playback st (when (interrupted m) playback_interrupt s).1).
  { intros s Hs. destruct (interrupted m); cbn; [|exact Hs].
    eapply only_playback_trans; [exact Hs|]. apply playback_interrupt_only_playback. }
  unfold onmessage, playback_rebase, decode.
  destruct st as [h w].
  unfold mbind at 1 2, M_bind at 1 2, gets at 1. cbn [hook world].
  destruct (inlineData m) as [data|]; [destruct (outputAudioContextRef h) as [c|]|].
  2, 3: apply Hwhen, only_playback_refl.
  destruct (truthy data); [|apply Hwhen, only_playback_refl].
  crunch. destruct (decodeAudioData data) as [buf|e]; cbn.
  - rewrite playback_schedule_run. cbn. apply Hwhen.
    unfold only_playback. cbn. repeat split; try reflexivity. eauto.
  - unfold only_playback. cbn. repeat split; try reflexivity. eauto.
Qed.


Lemma only_playback_output_context st st' :
  only_playback st st' →
  outputAudioContextRef (hook st') = outputAudioContextRef (hook st).
Proof. intros ((q & l & ->) & _). reflexivity. Qed.



(** ** The session side of the event loop *)

Lemma forEach_send_reaction s q h w :
  forEach (send_reaction s) q (mkSt h w)
  = (mkSt h (with_effects (effects w ++ (reaction_effect s <$> q)) w), Ok tt).
Proof.
  revert w. induction q as [|[b t] q IH]; intros w.
  - cbn. rewrite app_nil_r. destruct w; reflexivity.
  - cbn [forEach]. unfold mbind, M_bind.
    assert (Hone : send_reaction s (b, t) (mkSt h w)
                   = (mkSt h (with_effects (effects w ++ [reaction_effect s (b, t)]) w), Ok tt)).
    { unfold send_reaction, reaction_effect. crunch. destruct t; reflexivity. }
    rewrite Hone, IH. cbn. rewrite <- app_assoc. reflexivity.
Qed.

Ltac use_disconnect :=
  match goal with
  | |- context [disconnect ?s] =>
      let w' := fresh "w'" in
      let E := fresh "E" in
      destruct (disconnect_spec s) as (w' & E & ? & ? & ? & ? & ? & ?);
      rewrite E; cbn in *
  end.

Ltac open_event :=
  unfold step, handler, connect_begin, connect_resume, connect_setup, connect_catch,
    session_opened, session_rejected, onopen, onclose, onerror, onaudioprocess,
    promise_then, toggleMute, onended;
  crunch.










(** ** Mute *)

Lemma capture_while_gain_zero proc inputData send_throws st :
  gain_is_zero (inputGainRef (hook st)) = true →
  step (EvAudioProcess proc inputData send_throws) st = st.
Proof.
  intros Hz. open_event. case_decide; cbn; [rewrite Hz|]; reflexivity.
Qed.

Lemma captures_while_gain_zero frames st :
  gain_is_zero (inputGainRef (hook st)) = true →
  run (capture_events frames) st = st.
Proof.
  intros Hz. induction frames as [|[[proc f] t] frames IH]; [reflexivity|].
  cbn. rewrite capture_while_gain_zero by exact Hz. exact IH.
Qed.

Lemma toggleMute_without_gain st :
  inputGainRef (hook st) = None →
  handler EvToggleMute st = (st, Ok tt).
Proof. intros Hg. open_event. rewrite Hg. reflexivity. Qed.

(** What mute does as long as the gain node's value agrees with MuteState:
    while MuteState is true (gain 0) no number of captured frames changes
    anything, so no chunk is sent or queued for sending; one toggle flips
    MuteState and keeps the gain in agreement, so it takes effect from the
    next frame on; and two toggles in succession restore the state, gain
    value and MuteState included. *)
Lemma mute_in_sync_blocks_and_toggles_back (st : St) :
  mute_in_sync (hook st) →
  (isMuted (hook st) = true →
   ∀ frames, run (capture_events frames) st = st) ∧
  isMuted (hook (step EvToggleMute st)) = negb (isMuted (hook st)) ∧
  mute_in_sync (hook (step EvToggleMute st)) ∧
  run [EvToggleMute; EvToggleMute] st = st.
Proof.
  intros (g & Hg & Hv). split; [|split; [|split]].
  - intros Hm frames. apply captures_while_gain_zero.
    rewrite Hg. cbn. rewrite Hv, Hm. reflexivity.
  - open_event. rewrite Hg. reflexivity.
  - open_event. rewrite Hg. cbn. eexists. split; [reflexivity|].
    cbn. reflexivity.
  - cbn. open_event. rewrite Hg. cbn.
    destruct st as [h w]. destruct h, g. cbn in *. simplify_eq.
    rewrite negb_involutive. destruct isMuted0; reflexivity.
Qed.

(** ** Sending frames *)

(** C9.  The capture handler never throws and never touches the hook's
    cells, ConnectionState and session handle included, whether the send
    succeeds or fails.  When the hand-off of a non-muted frame to an open
    session throws, the exception is caught, one error entry is logged
    and nothing else happens: the frame is not sent. *)
Theorem failed_send_is_contained (st : St) (inputData : Frame) :
  (∀ send_throws,
     (onaudioprocess inputData send_throws st).2 = Ok tt ∧
     hook (onaudioprocess inputData send_throws st).1 = hook st) ∧
  let after := (onaudioprocess inputData true st).1 in
  sent_frames (world after) = sent_frames (world st) ∧
  ∀ a t proc s,
    gain_is_zero (inputGainRef (hook st)) = false →
    sessionPromiseRef (hook st) = Some a →
    attempts (world st) !! a = Some t → att_stage t = Opened proc s →
    after = mkSt (hook st)
              (with_effects (effects (world st) ++ [Console Error "Error sending input:"])
                 (world st)).
Proof.
  split; [|split].
  - intros send_throws. unfold onaudioprocess, promise_then, send_reaction. crunch.
    destruct (gain_is_zero _); cbn; [auto|].
    destruct (sessionPromiseRef (hook st)) as [p|]; cbn; [|auto].
    destruct (attempts (world st) !! p) as [[r []]|]; cbn; auto.
    destruct send_throws; cbn; auto.
  - unfold onaudioprocess, promise_then, send_reaction. crunch.
    destruct (gain_is_zero _); cbn; [auto|].
    destruct (sessionPromiseRef (hook st)) as [p|]; cbn; [|auto].
    destruct (attempts (world st) !! p) as [[r []]|]; cbn; auto.
    unfold sent_frames. cbn. rewrite omap_app, app_nil_r. reflexivity.
  - intros a t proc s Hz Hp Ha Hs.
    unfold onaudioprocess, promise_then, send_reaction. crunch.
    rewrite Hz, Hp. cbn. rewrite Ha. cbn. rewrite Hs. reflexivity.
Qed.

(** ** Session lifecycle *)

(** onclose tears down only if the closure of [connect] saw CONNECTED. *)
Lemma onclose_stale_closure st a t :
  attempts (world st) !! a = Some t → att_rendered t ≠ CONNECTED →
  hook (step (EvClose a) st) = hook st ∧
  transitions (world (step (EvClose a) st)) = transitions (world st).
Proof.
  intros Ha Hr. open_event. rewrite Ha. destruct t as [r []]; cbn in *; auto.
  all: rewrite decide_False by exact Hr; cbn; split; [reflexivity|].
  all: unfold transitions; cbn; rewrite omap_app, app_nil_r; reflexivity.
Qed.

(** C8 (amended).  When teardown runs while an attempt's session is still
    opening, the session handle and the session promise are null right
    after it, and the session promise stays null when the session opens
    afterwards.  The late continuation makes no staleness check, though:
    it stores the session in the session handle, and the open callback
    sets CONNECTED. *)
Theorem teardown_then_late_open
    (st : St) (a : nat) (t : Attempt) (proc : nat) (queue : list (Blob * bool))
    (s : Session) :
  attempts (world st) !! a = Some t → att_stage t = Opening proc queue →
  let down := step EvDisconnect st in
  let late := step (EvOpen a s) down in
  currentSessionRef (hook down) = None ∧ sessionPromiseRef (hook down) = None ∧
  connectionState (hook down) = DISCONNECTED ∧
  sessionPromiseRef (hook late) = None ∧
  currentSessionRef (hook late) = Some s ∧
  connectionState (hook late) = CONNECTED.
Proof.
  intros Ha Hs down late.
  destruct (disconnect_spec st) as (w' & E & Hatt & _).
  assert (Hdown : down = mkSt (torn_down (hook st)) w').
  { unfold down, step. cbn [handler]. rewrite E. reflexivity. }
  unfold late. rewrite Hdown. open_event. rewrite Hatt, Ha. cbn. rewrite Hs. cbn.
  rewrite forEach_send_reaction. cbn. repeat split; reflexivity.
Qed.

Lemma connect_error_message_denied err :
  err_name err = "NotAllowedError" ∨ err_name err = "PermissionDeniedError" →
  connect_error_message err
  = "Microphone access denied. Please allow microphone permissions in your browser.".
Proof.
  unfold connect_error_message. intros [-> | ->]; reflexivity.
Qed.

Lemma connect_error_message_not_found err :
  err_name err = "NotFoundError" ∨ err_name err = "DevicesNotFoundError" →
  connect_error_message err = "No microphone found. Please connect a microphone.".
Proof.
  unfold connect_error_message. intros [-> | ->]; reflexivity.
Qed.

Lemma connect_error_message_busy err :
  err_name err = "NotReadableError" ∨ err_name err = "TrackStartError" →
  connect_error_message err
  = "Microphone is busy or not readable. Try closing other apps using the mic.".
Proof.
  unfold connect_error_message. intros [-> | ->]; reflexivity.
Qed.

(** C6 (amended).  Missing credentials make [connect] store the message
    about the API key and return, ConnectionState untouched.  Every
    exception thrown inside the try block, a rejected microphone request
    included, is caught: the handler stores the mapped user-facing message
    and sets ConnectionState to ERROR, then runs teardown.  A denied
    permission maps to the message that begins with Microphone access
    denied, a missing and a busy microphone to their own messages. *)
Theorem connect_failures_are_reported :
  (∀ st API_KEY, truthy_opt API_KEY = false →
     let after := step (EvConnect API_KEY) st in
     error (hook after) = Some "API Key not found in environment variables." ∧
     connectionState (hook after) = connectionState (hook st) ∧
     transitions (world after) = transitions (world st)) ∧
  (∀ st a t o err,
     attempts (world st) !! a = Some t → att_stage t = Acquiring →
     setup_failure o = Some err →
     let after := step (EvUserMedia a o) st in
     (handler (EvUserMedia a o) st).2 = Ok tt ∧
     error (hook after) = Some (connect_error_message err) ∧
     transitions (world after) = transitions (world st) ++ [ERROR; DISCONNECTED]) ∧
  (∀ err, err_name err = "NotAllowedError" ∨ err_name err = "PermissionDeniedError" →
     connect_error_message err
     = "Microphone access denied. Please allow microphone permissions in your browser.") ∧
  (∀ err, err_name err = "NotFoundError" ∨ err_name err = "DevicesNotFoundError" →
     connect_error_message err = "No microphone found. Please connect a microphone.") ∧
  (∀ err, err_name err = "NotReadableError" ∨ err_name err = "TrackStartError" →
     connect_error_message err
     = "Microphone is busy or not readable. Try closing other apps using the mic.").
Proof.
  split; [|split; [|split; [|split]]].
  - intros st key Hkey. open_event. rewrite Hkey. cbn. auto.
  - intros st a t o err Ha Hs Ho. open_event. rewrite Ha. cbn. rewrite Hs. cbn.
    destruct o as [stream [e|]|stream [] e|e]; cbn in Ho; simplify_eq; cbn.
    all: use_disconnect; repeat split; try reflexivity.
    all: match goal with H : transitions _ = _ |- _ => rewrite H end.
    all: unfold transitions; cbn; rewrite !omap_app; cbn;
         rewrite ?app_nil_r, <- ?app_assoc; reflexivity.
  - apply connect_error_message_denied.
  - apply connect_error_message_not_found.
  - apply connect_error_message_busy.
Qed.

(** ** Frames and the connection state *)







Ltac same_log :=
  unfold sent_frames, transitions in *; cbn in *;
  rewrite ?omap_app in *; cbn in *; rewrite ?app_nil_r in *;
  try congruence.







(** ** Without the guard on connect *)







(** ** What the closures of [connect] captured *)

Lemma restage_rendered (atts : gmap nat Attempt) a stage b t :
  alter (λ t, {| att_rendered := att_rendered t; att_stage := stage |}) a atts !! b = Some t →
  ∃ t0, atts !! b = Some t0 ∧ att_rendered t = att_rendered t0.
Proof.
  intros Hlook. rewrite lookup_alter in Hlook. case_decide; subst.
  - destruct (atts !! b) as [t0|]; cbn in Hlook; simplify_eq. eauto.
  - eauto.
Qed.

Lemma step_never_rendered_connected ev st :
  never_rendered_connected st →
  match ev with EvConnect _ => connectionState (hook st) ≠ CONNECTED | _ => True end →
  never_rendered_connected (step ev st).
Proof.
  intros Hinv Hguard.
  assert (Hre : ∀ a stage b t,
            alter (λ t, {| att_rendered := att_rendered t; att_stage := stage |}) a
                  (attempts (world st)) !! b = Some t →
            att_rendered t ≠ CONNECTED).
  { intros a stage b t Hb. apply restage_rendered in Hb as (t0 & Ht0 & ->). eauto. }
  destruct ev.
  - open_event. destruct (truthy_opt API_KEY); cbn; [|exact Hinv].
    intros a t Ha. cbn in Ha. rewrite lookup_insert in Ha.
    case_decide; simplify_eq; [exact Hguard | eauto].
  - open_event. destruct (attempts (world st) !! a) as [[r []]|] eqn:Ha; cbn;
      try exact Hinv.
    destruct o as [stream [e|]|stream [] e|e]; cbn.
    1, 3-5: use_disconnect; intros b t Hb; cbn in Hb;
          match goal with H : attempts _ = _ |- _ => rewrite H in Hb end; eauto.
    intros b t Hb. cbn in Hb. apply restage_rendered in Hb as (t0 & Ht0 & ->). eauto.
  - open_event. destruct (attempts (world st) !! a) as [[r []]|] eqn:Ha; cbn;
      try exact Hinv.
    rewrite forEach_send_reaction. intros b t Hb. cbn in Hb. eauto.
  - open_event. destruct (attempts (world st) !! a) as [[r []]|] eqn:Ha; cbn;
      try exact Hinv.
    intros b t Hb. cbn in Hb. eauto.
  - open_event. case_decide; cbn; [|exact Hinv].
    destruct (gain_is_zero _); cbn; [exact Hinv|].
    destruct (sessionPromiseRef (hook st)) as [p|] eqn:Hp; cbn; [|exact Hinv].
    destruct (attempts (world st) !! p) as [[r []]|] eqn:Ha; cbn; try exact Hinv.
    + intros b t Hb. cbn in Hb. eauto.
    + unfold send_reaction. crunch. destruct send_throws; exact Hinv.
  - unfold step. cbn [handler]. intros b t Hb.
    destruct (onmessage_only_playback m now st) as (_ & Hatt & _).
    rewrite Hatt in Hb. eauto.
  - exact Hinv.
  - open_event. destruct (attempts (world st) !! a) as [[r []]|] eqn:Ha; cbn;
      try exact Hinv.
    all: case_decide; cbn; [|exact Hinv].
    all: use_disconnect; intros b t Hb; cbn in Hb;
         match goal with H : attempts _ = _ |- _ => rewrite H in Hb end; eauto.
  - open_event. destruct (includes _ _); cbn; use_disconnect; intros b t Hb; cbn in Hb;
      match goal with H : attempts _ = _ |- _ => rewrite H in Hb end; eauto.
  - unfold step. cbn [handler]. use_disconnect. intros b t Hb. cbn in Hb.
    match goal with H : attempts _ = _ |- _ => rewrite H in Hb end. eauto.
  - open_event. destruct (inputGainRef (hook st)); cbn; exact Hinv.
Qed.

Lemma run_never_rendered_connected evs st :
  never_rendered_connected st → connects_guarded evs st →
  never_rendered_connected (run evs st).
Proof.
  revert st. induction evs as [|ev evs IH]; intros st Hinv Hguard; [exact Hinv|].
  cbn. destruct Hguard as [Hev Hrest].
  apply IH; [|exact Hrest]. apply step_never_rendered_connected; assumption.
Qed.

(** As long as [connect] is invoked while the state is not CONNECTED, no
    close reported by the transport ever changes a cell of the hook. *)
Lemma remote_close_never_tears_down evs a :
  connects_guarded evs initial →
  hook (step (EvClose a) (run evs initial)) = hook (run evs initial).
Proof.
  intros Hguard.
  assert (Hinv : never_rendered_connected (run evs initial)).
  { apply run_never_rendered_connected; [|exact Hguard].
    intros b t Hb. cbn in Hb. rewrite lookup_empty in Hb. discriminate. }
  destruct (attempts (world (run evs initial)) !! a) as [t|] eqn:Ha.
  - apply (onclose_stale_closure _ a t Ha). eauto.
  - open_event. rewrite Ha. reflexivity.
Qed.

(** ** The cursor is never negative *)

Lemma playback_interrupt_cursor st :
  nextStartTimeRef (hook (playback_interrupt st).1) = 0%Q ∨
  hook (playback_interrupt st).1 = hook st.
Proof.
  unfold playback_interrupt. crunch.
  match goal with |- context [forEach source_stop ?l ?s] =>
    pose proof (forEach_source_stop_hook l s) as Hloop;
    destruct (forEach source_stop l s) as [s' [[]|e]]; cbn in *
  end.
  - left. reflexivity.
  - right. exact Hloop.
Qed.

Lemma onmessage_cursor_nonneg m now st :
  (0 <= nextStartTimeRef (hook st))%Q →
  (0 <= nextStartTimeRef (hook (onmessage m now st).1))%Q.
Proof.
  intros Hpos.
  assert (Hwhen : ∀ s, (0 <= nextStartTimeRef (hook s))%Q →
            (0 <= nextStartTimeRef (hook (when (interrupted m) playback_interrupt s).1))%Q).
  { intros s Hs. destruct (interrupted m); cbn; [|exact Hs].
    destruct (playback_interrupt_cursor s) as [-> | ->]; [apply Qle_refl | exact Hs]. }
  unfold onmessage, playback_rebase, decode.
  destruct st as [h w].
  unfold mbind at 1 2, M_bind at 1 2, gets at 1. cbn [hook world].
  destruct (inlineData m) as [data|]; [destruct (outputAudioContextRef h) as [c|]|].
  2, 3: apply Hwhen, Hpos.
  destruct (truthy data); [|apply Hwhen, Hpos].
  cbn in Hpos. pose proof (Qmax_ge_l (nextStartTimeRef h) now) as Hmax.
  crunch. destruct (decodeAudioData data) as [buf|e]; cbn.
  - rewrite playback_schedule_run. cbn. apply Hwhen. cbn.
    pose proof (duration_nonneg buf). lra.
  - lra.
Qed.

Lemma step_cursor_nonneg ev st :
  (0 <= nextStartTimeRef (hook st))%Q →
  (0 <= nextStartTimeRef (hook (step ev st)))%Q.
Proof.
  intros Hpos. destruct ev.
  - open_event. destruct (truthy_opt API_KEY); cbn; exact Hpos.
  - open_event. destruct (attempts (world st) !! a) as [[r []]|]; cbn; try exact Hpos.
    destruct o as [stream [e|]|stream [] e|e]; cbn; try exact Hpos; use_disconnect; exact Hpos.
  - open_event. destruct (attempts (world st) !! a) as [[r []]|]; cbn; try exact Hpos.
    rewrite forEach_send_reaction. exact Hpos.
  - open_event. destruct (attempts (world st) !! a) as [[r []]|]; cbn; exact Hpos.
  - open_event. case_decide; cbn; [|exact Hpos].
    destruct (gain_is_zero _); cbn; [exact Hpos|].
    destruct (sessionPromiseRef (hook st)) as [p|]; cbn; [|exact Hpos].
    destruct (attempts (world st) !! p) as [[r []]|]; cbn; try exact Hpos.
    unfold send_reaction. crunch. destruct send_throws; exact Hpos.
  - unfold step. cbn [handler]. apply onmessage_cursor_nonneg, Hpos.
  - exact Hpos.
  - open_event. destruct (attempts (world st) !! a) as [[r []]|]; cbn; try exact Hpos.
    all: case_decide; cbn; [use_disconnect|]; exact Hpos.
  - open_event. destruct (includes _ _); cbn; use_disconnect; exact Hpos.
  - unfold step. cbn [handler]. use_disconnect. exact Hpos.
  - open_event. destruct (inputGainRef (hook st)); cbn; exact Hpos.
Qed.

(** Whatever the clock readings, every start time the handler computes in
    a reachable state is at or after 0. *)
Lemma run_cursor_nonneg evs :
  (0 <= nextStartTimeRef (hook (run evs initial)))%Q.
Proof.
  assert (Hgen : ∀ st, (0 <= nextStartTimeRef (hook st))%Q →
            (0 <= nextStartTimeRef (hook (run evs st)))%Q).
  { induction evs as [|ev evs IH]; intros st Hst; [exact Hst|].
    cbn. apply IH, step_cursor_nonneg, Hst. }
  apply Hgen. cbn. apply Qle_refl.
Qed.

(** ** Playback bookkeeping across the event loop *)

(** Outside the message and ended handlers a turn leaves the playback
    cells alone or tears them down. *)
Lemma step_playback_frame ev st :
  ¬ is_message ev → ¬ is_ended ev →
  playback_kept st (step ev st) ∨ playback_torn st (step ev st).
Proof.
  intros Hm He.
  assert (Hkeep : playback_kept st st) by (repeat split; lia).
  destruct ev; try (exfalso; apply Hm; exact I); try (exfalso; apply He; exact I).
  - left. open_event. destruct (truthy_opt API_KEY); cbn; [|exact Hkeep].
    repeat split; cbn; lia.
  - open_event. destruct (attempts (world st) !! a) as [[r []]|]; cbn;
      try (left; exact Hkeep).
    destruct o as [stream [e|]|stream [] e|e]; cbn.
    1, 3-5: right; use_disconnect; repeat split; cbn in *; first [assumption | lia].
    left. repeat split; cbn; lia.
  - left. open_event. destruct (attempts (world st) !! a) as [[r []]|]; cbn;
      try exact Hkeep.
    rewrite forEach_send_reaction. exact Hkeep.
  - left. open_event. destruct (attempts (world st) !! a) as [[r []]|]; cbn;
      exact Hkeep.
  - left. open_event. case_decide; cbn; [|exact Hkeep].
    destruct (gain_is_zero _); cbn; [exact Hkeep|].
    destruct (sessionPromiseRef (hook st)) as [p|]; cbn; [|exact Hkeep].
    destruct (attempts (world st) !! p) as [[r []]|]; cbn; try exact Hkeep.
    unfold send_reaction. crunch. destruct send_throws; exact Hkeep.
  - open_event. destruct (attempts (world st) !! a) as [[r []]|]; cbn;
      try (left; exact Hkeep).
    all: case_decide; cbn;
      [ right; use_disconnect; repeat split; cbn in *; first [assumption | lia] | left; exact Hkeep ].
  - right. open_event. destruct (includes _ _); cbn; use_disconnect;
      repeat split; cbn in *; first [assumption | lia].
  - right. unfold step. cbn [handler]. use_disconnect.
    repeat split; cbn in *; first [assumption | lia].
  - left. open_event. destruct (inputGainRef (hook st)); cbn; exact Hkeep.
Qed.

Lemma ForallOrdPairs_snoc {A} (R : A → A → Prop) l x :
  ForallOrdPairs R l → Forall (λ a, R a x) l → ForallOrdPairs R (l ++ [x]).
Proof.
  induction 1 as [|a l Ha Hl IH]; intros Hx; cbn.
  - constructor; constructor.
  - inversion Hx; subst. constructor.
    + apply List.Forall_app. split; [exact Ha|]. constructor; [assumption|constructor].
    + apply IH. assumption.
Qed.

Lemma ForallOrdPairs_filter {A} (R : A → A → Prop) (P : A → Prop)
    `{∀ x, Decision (P x)} l :
  ForallOrdPairs R l → ForallOrdPairs R (filter P l).
Proof.
  induction 1 as [|a l Ha Hl IH]; [constructor|].
  rewrite filter_cons. case_decide; [|exact IH].
  constructor; [|exact IH].
  apply Forall_forall. intros y Hy. apply list_elem_of_filter in Hy as [_ Hy].
  rewrite Forall_forall in Ha. apply Ha. exact Hy.
Qed.

Lemma ForallOrdPairs_ext_in {A} (R R' : A → A → Prop) l :
  (∀ a b, a ∈ l → b ∈ l → R a b → R' a b) →
  ForallOrdPairs R l → ForallOrdPairs R' l.
Proof.
  intros Himp Hl. induction Hl as [|a l Ha Hl IH]; [constructor|].
  constructor.
  - apply Forall_forall. intros b Hb. rewrite Forall_forall in Ha.
    apply Himp; [left | right; exact Hb | apply Ha, Hb].
  - apply IH. intros x y Hx Hy. apply Himp; right; assumption.
Qed.

Lemma playing_in_started ns id : playing_in ns id = true → started_in ns id = true.
Proof.
  unfold playing_in, started_in. destruct (ns !! id) as [n|]; [|discriminate].
  intros H. apply andb_true_iff in H as [H _]. exact H.
Qed.

Lemma active_set_sources_started st : active_set_sound st → sources_started st.
Proof.
  intros [_ Hall]. unfold sources_started. eapply Forall_impl; [exact Hall|].
  intros id [_ Hid]. apply playing_in_started, Hid.
Qed.

Lemma quiet_stops_start l ns id n :
  quiet_stops l ns !! id = Some n →
  ∃ n0, ns !! id = Some n0 ∧ node_start n = node_start n0 ∧
        node_buffer n = node_buffer n0.
Proof.
  rewrite quiet_stops_lookup. destruct (ns !! id) as [n0|]; cbn; [|discriminate].
  intros Hn. exists n0. split; [reflexivity|].
  case_decide; simplify_eq; auto.
Qed.

(** The playback cells after an interruption or a teardown. *)
Lemma playback_sound_flushed h w q w' :
  playback_sound (mkSt h w) → (0 <= q)%Q →
  nodes w' = quiet_stops (audioSourcesRef h) (nodes w) →
  playback_sound (mkSt (with_nextStartTimeRef q (with_audioSourcesRef [] h)) w').
Proof.
  intros (_ & [_ Hstarts] & _) Hq Hnodes. repeat split; cbn.
  - constructor.
  - constructor.
  - exact Hq.
  - intros id n t Hn Ht. rewrite Hnodes in Hn.
    apply quiet_stops_start in Hn as (n0 & Hn0 & Hs & _).
    apply (Hstarts id n0 t Hn0). congruence.
  - constructor.
  - constructor.
Qed.

Lemma playback_sound_rebase h w now :
  playback_sound (mkSt h w) →
  playback_sound (mkSt (with_nextStartTimeRef (Qmax (nextStartTimeRef h) now) h) w).
Proof.
  intros (Hset & [Hc Hstarts] & [Hends Hpairs]).
  pose proof (Qmax_ge_l (nextStartTimeRef h) now) as Hmax.
  repeat split; cbn in *; try apply Hset; try assumption.
  - lra.
  - eapply Forall_impl; [exact Hends|]. intros id Hid. cbn in Hid. lra.
Qed.

Lemma playback_sound_schedule h w buf :
  playback_sound (mkSt h w) →
  playback_sound
    (mkSt (with_audioSourcesRef (set_add (nextId w) (audioSourcesRef h))
             (with_nextStartTimeRef (nextStartTimeRef h + duration buf)%Q h))
          (with_nextId (S (nextId w))
             (with_nodes (<[nextId w := scheduled buf (nextStartTimeRef h)]> (nodes w)) w))).
Proof.
  intros ([Hnd Hmem] & [Hc Hstarts] & [Hends Hpairs]). cbn in *.
  pose proof (duration_nonneg buf) as Hd.
  assert (Hfresh : nextId w ∉ audioSourcesRef h).
  { intros Hin. rewrite Forall_forall in Hmem. destruct (Hmem _ Hin) as [Hlt _]. lia. }
  assert (Hadd : set_add (nextId w) (audioSourcesRef h) = audioSourcesRef h ++ [nextId w]).
  { unfold set_add. rewrite decide_False by exact Hfresh. reflexivity. }
  assert (Hold : ∀ id, id ∈ audioSourcesRef h →
            <[nextId w := scheduled buf (nextStartTimeRef h)]> (nodes w) !! id
            = nodes w !! id).
  { intros id Hin. apply lookup_insert_ne. intros Heq. apply Hfresh.
    rewrite Heq. exact Hin. }
  repeat split; cbn; rewrite ?Hadd.
  - apply NoDup_app. split; [exact Hnd|]. split.
    + intros x Hx Hx'. apply list_elem_of_singleton in Hx'. subst. exact (Hfresh Hx).
    + apply NoDup_singleton.
  - apply Forall_app. split.
    + apply Forall_forall. intros id Hin. rewrite Forall_forall in Hmem.
      destruct (Hmem id Hin) as [Hlt Hplay]. split; [lia|].
      unfold playing_in in *. rewrite (Hold id Hin). exact Hplay.
    + constructor; [|constructor]. split; [lia|].
      unfold playing_in. rewrite lookup_insert_eq. reflexivity.
  - lra.
  - intros id n t Hn Ht. rewrite lookup_insert in Hn. case_decide; simplify_eq.
    + cbn in Ht. simplify_eq. exact Hc.
    + eauto.
  - apply Forall_app. split.
    + apply Forall_forall. intros id Hin. rewrite Forall_forall in Hends.
      specialize (Hends id Hin). cbn in Hends.
      unfold end_of in *. rewrite (Hold id Hin). lra.
    + constructor; [|constructor]. unfold end_of. rewrite lookup_insert_eq. cbn.
      apply Qle_refl.
  - apply ForallOrdPairs_snoc.
    + eapply ForallOrdPairs_ext_in; [|exact Hpairs].
      intros a b Ha Hb Hab. cbn in *. unfold end_of, start_of in *.
      rewrite (Hold a Ha), (Hold b Hb). exact Hab.
    + apply Forall_forall. intros id Hin. rewrite Forall_forall in Hends.
      specialize (Hends id Hin). cbn in Hends.
      unfold end_of, start_of in *. rewrite (Hold id Hin), lookup_insert_eq. cbn.
      exact Hends.
Qed.

Lemma onmessage_playback_sound m now st :
  playback_sound st → playback_sound (onmessage m now st).1.
Proof.
  intros Hinv.
  assert (Hwhen : ∀ s, playback_sound s →
            playback_sound (when (interrupted m) playback_interrupt s).1).
  { intros [h w] Hs. destruct (interrupted m); cbn; [|exact Hs].
    rewrite (playback_interrupt_run h w).
    2: { apply (active_set_sources_started (mkSt h w)), Hs. }
    replace (with_nextStartTimeRef 0%Q (with_audioSourcesRef [] h))
      with (with_nextStartTimeRef 0%Q (with_audioSourcesRef [] h)) by reflexivity.
    apply (playback_sound_flushed h w 0%Q); [exact Hs | apply Qle_refl | reflexivity]. }
  unfold onmessage, playback_rebase, decode.
  destruct st as [h w].
  unfold mbind at 1 2, M_bind at 1 2, gets at 1. cbn [hook world].
  destruct (inlineData m) as [data|]; [destruct (outputAudioContextRef h) as [c|]|].
  2, 3: apply Hwhen, Hinv.
  destruct (truthy data); [|apply Hwhen, Hinv].
  apply (playback_sound_rebase h w now) in Hinv.
  crunch. destruct (decodeAudioData data) as [buf|e]; cbn.
  - rewrite playback_schedule_run. cbn. apply Hwhen.
    apply (playback_sound_schedule _ w buf) in Hinv. exact Hinv.
  - exact Hinv.
Qed.

Lemma onended_playback_sound id st :
  playback_sound st → playback_sound (step (EvEnded id) st).
Proof.
  intros ([Hnd Hmem] & Htimes & [Hends Hpairs]). open_event.
  assert (Hsub : ∀ (P : nat → Prop), Forall P (audioSourcesRef (hook st)) →
            Forall P (filter (λ x, x ≠ id) (audioSourcesRef (hook st)))).
  { intros P HP. apply Forall_forall. intros x Hx.
    apply list_elem_of_filter in Hx as [_ Hx]. rewrite Forall_forall in HP. auto. }
  repeat split; cbn.
  - apply NoDup_filter, Hnd.
  - apply Hsub, Hmem.
  - apply Htimes.
  - apply Htimes.
  - apply Hsub, Hends.
  - apply ForallOrdPairs_filter, Hpairs.
Qed.

Lemma playback_sound_kept st st' :
  playback_kept st st' → playback_sound st → playback_sound st'.
Proof.
  intros (Hn & Hl & Hq & Hid) ([Hnd Hmem] & [Hc Hstarts] & [Hends Hpairs]).
  unfold playback_sound, active_set_sound, times_nonneg, no_overlap.
  rewrite Hn, Hl, Hq. repeat split; try assumption.
  eapply Forall_impl; [exact Hmem|]. intros x [Hx Hp]. split; [lia | exact Hp].
Qed.

Lemma playback_sound_torn st st' :
  playback_torn st st' → playback_sound st → playback_sound st'.
Proof.
  intros (Hn & Hl & Hq & Hid) Hinv. destruct st as [h w], st' as [h' w']. cbn in *.
  replace h' with (with_nextStartTimeRef (nextStartTimeRef h)
                     (with_audioSourcesRef [] h'))
    by (destruct h'; cbn in *; subst; reflexivity).
  assert (Hflush := playback_sound_flushed h w (nextStartTimeRef h) w' Hinv).
  destruct Hinv as (_ & [Hc _] & _). cbn in Hc. specialize (Hflush Hc Hn).
  destruct Hflush as (Hset & Htimes & Hov).
  repeat split; cbn; try constructor; try exact Hc; apply Htimes.
Qed.

Lemma step_playback_sound ev st :
  playback_sound st → playback_sound (step ev st).
Proof.
  intros Hinv.
  destruct (decide (is_message ev ∨ is_ended ev)) as [[Hm|He]|Hno].
  - destruct ev; try destruct Hm. unfold step. cbn [handler].
    apply onmessage_playback_sound, Hinv.
  - destruct ev; try destruct He. apply onended_playback_sound, Hinv.
  - destruct (step_playback_frame ev st) as [Hk|Ht]; [tauto | tauto | |].
    + exact (playback_sound_kept _ _ Hk Hinv).
    + exact (playback_sound_torn _ _ Ht Hinv).
Qed.

Lemma run_playback_sound evs st :
  playback_sound st → playback_sound (run evs st).
Proof.
  revert st. induction evs as [|ev evs IH]; intros st Hinv; [exact Hinv|].
  cbn. apply IH, step_playback_sound, Hinv.
Qed.

Lemma initial_playback_sound : playback_sound initial.
Proof.
  split; [|split].
  - split; constructor.
  - split; [apply Qle_refl|].
    intros id n t Hn. cbn in Hn. rewrite lookup_empty in Hn. discriminate.
  - split; constructor.
Qed.

Lemma ForallOrdPairs_lookup {A} (R : A → A → Prop) (l : list A) i j a b :
  ForallOrdPairs R l → (i < j)%nat → l !! i = Some a → l !! j = Some b → R a b.
Proof.
  intros Hl. revert i j. induction Hl as [|x l Hx Hl IH]; intros i j Hij Hi Hj.
  - rewrite lookup_nil in Hi. discriminate.
  - destruct j as [|j]; [lia|]. cbn in Hj. destruct i as [|i]; cbn in Hi.
    + simplify_eq. rewrite Forall_forall in Hx. apply Hx.
      eapply list_elem_of_lookup_2. exact Hj.
    + apply (IH i j); [lia | exact Hi | exact Hj].
Qed.

Lemma filter_keeps_all {A} (P : A → Prop) `{!∀ x, Decision (P x)} (l : list A) :
  (∀ x, x ∈ l → P x) → filter P l = l.
Proof.
  induction l as [|a l IH]; intros Hall; [reflexivity|].
  rewrite filter_cons, decide_True by (apply Hall; left).
  f_equal. apply IH. intros x Hx. apply Hall. right. exact Hx.
Qed.

(** X1.  In every state the hook can reach, the active source set holds
    no unit twice, and each of its units is a node that has been created,
    has been started and has not been stopped. *)
Theorem active_set_holds_playing_units (evs : list Event) :
  let st := run evs initial in
  NoDup (audioSourcesRef (hook st)) ∧
  ∀ id, id ∈ audioSourcesRef (hook st) →
    ∃ n t, nodes (world st) !! id = Some n ∧ node_start n = Some t ∧
           node_stopped n = false.
Proof.
  destruct (run_playback_sound evs initial initial_playback_sound)
    as ([Hnd Hmem] & _ & _).
  split; [exact Hnd|]. intros id Hin. rewrite Forall_forall in Hmem.
  destruct (Hmem id Hin) as [_ Hplay]. unfold playing_in in Hplay.
  destruct (nodes (world (run evs initial)) !! id) as [n|]; [|discriminate].
  apply andb_true_iff in Hplay as [Hs Hstop].
  apply bool_decide_eq_true in Hs as [t Ht]. apply negb_true_iff in Hstop.
  exists n, t. auto.
Qed.

(** X2.  In every state the hook can reach, the units of the active source
    set do not overlap: a unit added earlier ends no later than a unit
    added after it starts, and every unit ends by the playback cursor. *)
Theorem active_units_never_overlap
    (evs : list Event) (i j a b : nat) (na nb : SourceNode) (ta tb : Q) :
  let st := run evs initial in
  (i < j)%nat →
  audioSourcesRef (hook st) !! i = Some a →
  audioSourcesRef (hook st) !! j = Some b →
  nodes (world st) !! a = Some na → node_start na = Some ta →
  nodes (world st) !! b = Some nb → node_start nb = Some tb →
  (ta + duration (node_buffer na) <= tb)%Q ∧
  (tb + duration (node_buffer nb) <= nextStartTimeRef (hook st))%Q.
Proof.
  intros st Hij Ha Hb Hna Hta Hnb Htb.
  destruct (run_playback_sound evs initial initial_playback_sound)
    as (_ & _ & [Hends Hpairs]).
  fold st in Hends, Hpairs. split.
  - pose proof (ForallOrdPairs_lookup _ _ i j a b Hpairs Hij Ha Hb) as H.
    cbn in H. unfold end_of, start_of in H. rewrite Hna, Hnb, Hta, Htb in H. exact H.
  - rewrite Forall_forall in Hends.
    assert (Hin : b ∈ audioSourcesRef (hook st))
      by (eapply list_elem_of_lookup_2; exact Hb).
    specialize (Hends b Hin). cbn in Hends. unfold end_of in Hends.
    rewrite Hnb, Htb in Hends. exact Hends.
Qed.

(** X3.  In every state the hook can reach, the playback cursor is not
    negative and no source node was ever started at a negative time,
    whatever clock readings the messages arrived with. *)
Theorem start_times_are_never_negative
    (evs : list Event) (id : nat) (n : SourceNode) (t : Q) :
  let st := run evs initial in
  nodes (world st) !! id = Some n → node_start n = Some t →
  (0 <= t)%Q ∧ (0 <= nextStartTimeRef (hook st))%Q.
Proof.
  intros st Hn Ht.
  destruct (run_playback_sound evs initial initial_playback_sound)
    as (_ & [Hc Hstarts] & _).
  split; [exact (Hstarts id n t Hn Ht) | exact Hc].
Qed.

(** X4.  The completion hook removes its unit and nothing else; and in
    every reachable state, a chunk that is scheduled and then ends leaves
    the active source set exactly as it was before the chunk. *)
Theorem ended_undoes_schedule (evs : list Event) (m : Message) (now : Q) (buf : AudioBuffer) :
  let pre := run evs initial in
  let unit := nextId (world pre) in
  let post := step (EvEnded unit) (step (EvMessage m now) pre) in
  (∀ st id x, x ∈ audioSourcesRef (hook (step (EvEnded id) st)) ↔
              x ∈ audioSourcesRef (hook st) ∧ x ≠ id) ∧
  (is_Some (outputAudioContextRef (hook pre)) → playable m buf →
   interrupted m = false →
   unit ∈ audioSourcesRef (hook (step (EvMessage m now) pre)) ∧
   audioSourcesRef (hook post) = audioSourcesRef (hook pre)).
Proof.
  intros pre unit post. split.
  - intros st id x. open_event. rewrite list_elem_of_filter. tauto.
  - intros Hctx Hbuf Hflag. unfold post, unit.
    destruct (run_playback_sound evs initial initial_playback_sound)
      as ([_ Hmem] & _ & _). fold pre in Hmem.
    assert (Hfresh : nextId (world pre) ∉ audioSourcesRef (hook pre)).
    { intros Hin. rewrite Forall_forall in Hmem. destruct (Hmem _ Hin). lia. }
    destruct pre as [h w]. cbn [hook world] in *.
    unfold step. cbn [handler].
    rewrite !(onmessage_playable m now buf h w Hctx Hbuf Hflag). cbn [fst].
    crunch. unfold set_add. rewrite decide_False by exact Hfresh.
    split.
    + apply elem_of_app. right. apply list_elem_of_singleton. reflexivity.
    + rewrite filter_app, filter_cons, decide_False, filter_nil, app_nil_r by tauto.
      apply filter_keeps_all. intros x Hx Heq. subst. exact (Hfresh Hx).
Qed.

Lemma step_cursor_kept ev st :
  ¬ is_message ev →
  nextStartTimeRef (hook (step ev st)) = nextStartTimeRef (hook st) ∧
  audioSourcesRef (hook (step ev st)) ⊆ audioSourcesRef (hook st) ∧
  ∀ id n, nodes (world (step ev st)) !! id = Some n →
    ∃ n0, nodes (world st) !! id = Some n0 ∧ node_start n = node_start n0.
Proof.
  intros Hm. destruct (decide (is_ended ev)) as [He|He].
  - destruct ev; try destruct He. open_event. split; [reflexivity|]. split.
    + intros x Hx. apply list_elem_of_filter in Hx as [_ Hx]. exact Hx.
    + eauto.
  - destruct (step_playback_frame ev st Hm He) as [(Hn & Hl & Hq & _)|(Hn & Hl & Hq & _)].
    + rewrite Hn, Hl, Hq. split; [reflexivity|]. split; [done|]. eauto.
    + rewrite Hn, Hl, Hq. split; [reflexivity|]. split.
      * intros x Hx. inversion Hx.
      * intros id n Hid. apply quiet_stops_start in Hid as (n0 & ? & ? & ?). eauto.
Qed.

(** X5.  Only inbound messages schedule audio.  Across any sequence of
    other events, connect and teardown included, the playback cursor keeps
    its value, the active source set only loses units and no node gets a
    new start time. *)
Theorem only_messages_schedule (evs : list Event) (st : St) :
  Forall (λ ev, ¬ is_message ev) evs →
  nextStartTimeRef (hook (run evs st)) = nextStartTimeRef (hook st) ∧
  audioSourcesRef (hook (run evs st)) ⊆ audioSourcesRef (hook st) ∧
  ∀ id n, nodes (world (run evs st)) !! id = Some n →
    ∃ n0, nodes (world st) !! id = Some n0 ∧ node_start n = node_start n0.
Proof.
  revert st. induction evs as [|ev evs IH]; intros st Hall.
  - cbn. split; [reflexivity|]. split; [done|]. eauto.
  - inversion Hall as [|? ? Hev Hrest]; subst.
    change (run (ev :: evs) st) with (run evs (step ev st)).
    destruct (IH (step ev st) Hrest) as (Hq & Hl & Hn).
    destruct (step_cursor_kept ev st Hev) as (Hq' & Hl' & Hn').
    split; [congruence|]. split; [set_solver|].
    intros id n Hid. destruct (Hn id n Hid) as (n1 & Hn1 & Hs1).
    destruct (Hn' id n1 Hn1) as (n0 & Hn0 & Hs0). exists n0. split; congruence.
Qed.

(** ** JavaScript strings *)

Lemma append_cons (c : ascii) (a b : string) :
  (String c a ++ b)%string = String c (a ++ b)%string.
Proof. reflexivity. Qed.

Lemma append_empty (b : string) : ("" ++ b)%string = b.
Proof. reflexivity. Qed.

Lemma prefix_append (n s : string) :
  String.prefix n s = true ↔ ∃ post, s = (n ++ post)%string.
Proof.
  revert s. induction n as [|a n IH]; intros s.
  - destruct s; cbn; (split; [intros _; eexists; reflexivity | reflexivity]).
  - destruct s as [|b s]; cbn.
    + split; [discriminate | intros [post H]; rewrite append_cons in H; discriminate].
    + destruct (ascii_dec a b) as [->|Hne].
      * rewrite IH. split; intros [post H]; exists post;
          rewrite append_cons in *; congruence.
      * split; [discriminate | intros [post H]; rewrite append_cons in H; congruence].
Qed.

Lemma includes_substring (s n : string) :
  includes s n = true ↔ ∃ pre post, s = (pre ++ n ++ post)%string.
Proof.
  induction s as [|c s IH].
  - cbn [includes]. rewrite orb_false_r, prefix_append. split.
    + intros [post H]. exists ""%string, post. exact H.
    + intros (pre & post & H). destruct pre; [|rewrite append_cons in H; discriminate].
      exists post. exact H.
  - cbn [includes]. rewrite orb_true_iff, prefix_append, IH. split.
    + intros [[post H]|(pre & post & H)].
      * exists ""%string, post. exact H.
      * exists (String c pre), post. rewrite append_cons. congruence.
    + intros (pre & post & H). destruct pre as [|c' pre].
      * left. exists post. exact H.
      * right. exists pre, post. rewrite append_cons in H. congruence.
Qed.

Lemma ascii_lower_append (a b : string) :
  ascii_lower (a ++ b)%string = (ascii_lower a ++ ascii_lower b)%string.
Proof.
  induction a as [|c a IH]; [reflexivity|].
  rewrite !append_cons. cbn. rewrite append_cons, IH. reflexivity.
Qed.

Lemma ascii_lower_split (s a b : string) :
  ascii_lower s = (a ++ b)%string →
  ∃ a' b', s = (a' ++ b')%string ∧ ascii_lower a' = a ∧ ascii_lower b' = b.
Proof.
  revert s. induction a as [|c a IH]; intros s H.
  - exists ""%string, s. auto.
  - rewrite append_cons in H. destruct s as [|d s]; cbn in H; [discriminate|].
    injection H as Hc Hs. destruct (IH s Hs) as (a' & b' & -> & Ha & Hb).
    exists (String d a'), b'. rewrite append_cons. cbn. rewrite Ha, Hc. auto.
Qed.

Lemma includes_ascii_lower (s n : string) :
  includes (ascii_lower s) n = true ↔
  ∃ pre w post, s = (pre ++ w ++ post)%string ∧ ascii_lower w = n.
Proof.
  rewrite includes_substring. split.
  - intros (pre & post & H).
    apply ascii_lower_split in H as (pre' & rest & -> & _ & Hrest).
    apply ascii_lower_split in Hrest as (w & post' & -> & Hw & _).
    exists pre', w, post'. auto.
  - intros (pre & w & post & -> & <-).
    exists (ascii_lower pre), (ascii_lower post).
    rewrite !ascii_lower_append. reflexivity.
Qed.

(** ** The session error callback *)

(** X6.  The session error callback never throws and always runs
    teardown: every handle is cleared and the state is DISCONNECTED, no
    frame is sent.  It stores the network message exactly when the
    lowered text of the reported message, or of the default text for an
    empty one, contains the word network; otherwise it stores the
    reported text behind the prefix Session Error.  For a message made of
    ASCII characters, whose lowering changes the letters A to Z only,
    that is exactly when the message contains the word network in any
    mix of upper and lower case letters. *)
Theorem onerror_reports_and_tears_down (e : JsError) (lowered : string) (st : St) :
  let msg := if truthy (err_message e) then err_message e else "Connection error" in
  let network :=
    "Network Error: Could not connect to Gemini Live. Check your API Key and internet connection." in
  let after := step (EvError e lowered) st in
  (handler (EvError e lowered) st).2 = Ok tt ∧
  (∃ text, hook after = torn_down (with_error (Some text) (hook st)) ∧
     (text = network ∨ text = ("Session Error: " ++ msg)%string) ∧
     (text = network ↔ includes lowered "network" = true)) ∧
  cleared (hook after) ∧
  sent_frames (world after) = sent_frames (world st) ∧
  transitions (world after) = transitions (world st) ++ [DISCONNECTED] ∧
  (ascii_only msg = true → lowered = ascii_lower msg →
   (includes lowered "network" = true ↔
    ∃ pre w post, msg = (pre ++ w ++ post)%string ∧ ascii_lower w = "network")).
Proof.
  intros msg network after.
  match goal with |- _ ∧ _ ∧ _ ∧ _ ∧ _ ∧ ?P =>
    assert (HP : P) by (intros _ ->; apply includes_ascii_lower);
    revert HP; generalize P; intros P' HP
  end.
  subst after. unfold step. cbn [handler]. unfold onerror.
  fold msg. crunch. destruct (includes lowered "network") eqn:E; cbn.
  all: use_disconnect.
  all: split; [reflexivity|].
  all: split; [eexists; split; [reflexivity|]|].
  - split; [left; reflexivity|]. split; reflexivity.
  - split; [repeat split|]. split; [same_log|]. split; [same_log|]. exact HP.
  - split; [right; reflexivity|]. split; discriminate.
  - split; [repeat split|]. split; [same_log|]. split; [same_log|]. exact HP.
Qed.

(** ** React state after every turn *)

Lemma connect_error_message_truthy (err : JsError) :
  truthy (connect_error_message err) = true.
Proof.
  unfold connect_error_message.
  repeat match goal with |- context [if ?b then _ else _] =>
    let E := fresh "E" in destruct b eqn:E end;
  try reflexivity; assumption.
Qed.

Lemma hook_facts_torn_down h w w' :
  hook_facts (mkSt h w) → hook_facts (mkSt (torn_down h) w').
Proof. intros (He & _). repeat split; done. Qed.

Lemma hook_facts_world h w w' : hook_facts (mkSt h w) → hook_facts (mkSt h w').
Proof. intros H. exact H. Qed.

Lemma hook_facts_error msg h w :
  truthy msg = true → hook_facts (mkSt h w) →
  hook_facts (mkSt (with_error (Some msg) h) w).
Proof.
  intros Hmsg (He & Hg). repeat split; cbn; try done.
  intros m [= <-]. exact Hmsg.
Qed.

Lemma step_hook_facts ev st : hook_facts st → hook_facts (step ev st).
Proof.
  intros Hinv. destruct st as [h w].
  assert (Hinv' := Hinv). destruct Hinv' as (He & Hg). cbn in He, Hg.
  destruct ev.
  - open_event. destruct (truthy_opt API_KEY); cbn.
    + repeat split; cbn; done.
    + apply hook_facts_error; [reflexivity | exact Hinv].
  - open_event. destruct (attempts w !! a) as [[r []]|]; cbn; try exact Hinv.
    destruct o as [stream [e|]|stream [] e|e]; cbn.
    1, 3-5: use_disconnect; repeat split; cbn; try done;
      intros m [= <-]; apply connect_error_message_truthy.
    repeat split; cbn; done.
  - open_event. destruct (attempts w !! a) as [[r []]|]; cbn; try exact Hinv.
    rewrite forEach_send_reaction. cbn. repeat split; cbn; done.
  - open_event. destruct (attempts w !! a) as [[r []]|]; cbn; exact Hinv.
  - open_event. case_decide; cbn; [|exact Hinv].
    destruct (gain_is_zero _); cbn; [exact Hinv|].
    destruct (sessionPromiseRef h) as [p|]; cbn; [|exact Hinv].
    destruct (attempts w !! p) as [[r []]|]; cbn; try exact Hinv.
    unfold send_reaction. crunch. destruct send_throws; exact Hinv.
  - unfold step. cbn [handler].
    destruct (onmessage_only_playback m now (mkSt h w)) as ((q & srcs & Hh) & _).
    destruct (onmessage m now (mkSt h w)).1 as [h' w']. cbn in Hh. subst h'.
    repeat split; cbn; done.
  - open_event. repeat split; cbn; done.
  - open_event. destruct (attempts w !! a) as [[r []]|]; cbn; try exact Hinv.
    all: case_decide; cbn; [use_disconnect; repeat split; cbn; done | exact Hinv].
  - open_event. destruct (includes _ _); cbn; use_disconnect;
      repeat split; cbn; try done; intros m [= <-]; reflexivity.
  - unfold step. cbn [handler]. use_disconnect. repeat split; cbn; done.
  - open_event. destruct (inputGainRef h) eqn:Eg; cbn; [|exact Hinv].
    repeat split; cbn; done.
Qed.

Lemma run_hook_facts evs st : hook_facts st → hook_facts (run evs st).
Proof.
  revert st. induction evs as [|ev evs IH]; intros st Hinv; [exact Hinv|].
  apply IH, step_hook_facts, Hinv.
Qed.

Lemma initial_hook_facts : hook_facts initial.
Proof. repeat split; cbn; done. Qed.

(** X7.  A stored error message is never the empty string, in any state
    the hook can reach: whenever the error cell is set, the application's
    error overlay, which tests the message for truthiness, is shown. *)
Theorem stored_error_is_never_empty (evs : list Event) (msg : string) :
  error (hook (run evs initial)) = Some msg →
  truthy_opt (error (hook (run evs initial))) = true ∧ msg ≠ ""%string.
Proof.
  intros Hmsg.
  destruct (run_hook_facts evs initial initial_hook_facts) as (He & _).
  specialize (He msg Hmsg). rewrite Hmsg. cbn. split; [exact He|].
  intros ->. discriminate.
Qed.

(** X9.  Until a capture graph has been built for the first time, the
    mute toggle does nothing: in every reachable state without a gain
    node MuteState is false, and a toggle leaves the state as it is. *)
Theorem toggle_before_first_graph_is_noop (evs : list Event) :
  inputGainRef (hook (run evs initial)) = None →
  isMuted (hook (run evs initial)) = false ∧
  step EvToggleMute (run evs initial) = run evs initial.
Proof.
  intros Hg.
  destruct (run_hook_facts evs initial initial_hook_facts) as (_ & Hm).
  split; [exact (Hm Hg)|]. open_event. rewrite Hg. reflexivity.
Qed.

(** ** Capture frames and the session promise *)

Lemma delivered_reactions s rs :
  omap (λ e, match e with FrameSent sid b => Some (sid, b) | _ => None end)
       (reaction_effect s <$> rs)
  = delivered s rs.
Proof.
  unfold delivered. induction rs as [|[b t] rs IH]; [reflexivity|].
  cbn. unfold reaction_effect at 1. cbn. destruct t; cbn; rewrite IH; reflexivity.
Qed.

Lemma sent_frames_reactions s rs w :
  sent_frames (with_effects (effects w ++ (reaction_effect s <$> rs)) w)
  = sent_frames w ++ delivered s rs.
Proof.
  unfold sent_frames. cbn. rewrite omap_app, delivered_reactions. reflexivity.
Qed.

Lemma captured_cons installed proc f throws frames :
  captured installed ((proc, f, throws) :: frames)
  = if decide (proc ∈ installed) then (createPcmBlob f, throws) :: captured installed frames
    else captured installed frames.
Proof. unfold captured. cbn. destruct (decide _); reflexivity. Qed.

Lemma delivered_cons s b throws rs :
  delivered s ((b, throws) :: rs)
  = if throws then delivered s rs else (session_id s, b) :: delivered s rs.
Proof. unfold delivered. cbn. destruct throws; reflexivity. Qed.

Lemma capture_on_open_promise proc f throws st a t p s :
  sessionPromiseRef (hook st) = Some a →
  attempts (world st) !! a = Some t → att_stage t = Opened p s →
  gain_is_zero (inputGainRef (hook st)) = false →
  step (EvAudioProcess proc f throws) st
  = if decide (proc ∈ handlers (world st)) then
      mkSt (hook st)
           (with_effects (effects (world st)
                          ++ (reaction_effect s <$> [(createPcmBlob f, throws)]))
              (world st))
    else st.
Proof.
  intros Hp Ha Hs Hz. open_event. case_decide; cbn; [|reflexivity].
  rewrite Hz. cbn. rewrite Hp. cbn. rewrite Ha. cbn. rewrite Hs.
  unfold send_reaction, reaction_effect. crunch. destruct throws; reflexivity.
Qed.

(** X10.  While the hook holds a fulfilled session promise and the gain
    is not zero, every captured frame whose handler is installed is
    encoded and handed to that session exactly once, in capture order;
    frames whose send throws are skipped, and the hook's cells are not
    touched. *)
Theorem open_session_streams_every_frame
    (st : St) (a : nat) (t : Attempt) (p : nat) (s : Session)
    (frames : list (nat * Frame * bool)) :
  sessionPromiseRef (hook st) = Some a →
  attempts (world st) !! a = Some t → att_stage t = Opened p s →
  gain_is_zero (inputGainRef (hook st)) = false →
  let st' := run (capture_events frames) st in
  hook st' = hook st ∧
  sent_frames (world st')
  = sent_frames (world st) ++ delivered s (captured (handlers (world st)) frames).
Proof.
  revert st. induction frames as [|[[proc f] throws] frames IH]; intros st Hp Ha Hs Hz.
  - cbn. rewrite app_nil_r. auto.
  - cbn zeta. change (capture_events ((proc, f, throws) :: frames))
      with (EvAudioProcess proc f throws :: capture_events frames).
    change (run (?e :: ?l) st) with (run l (step e st)).
    rewrite (capture_on_open_promise proc f throws st a t p s Hp Ha Hs Hz).
    rewrite captured_cons. destruct (decide (proc ∈ handlers (world st))) as [Hin|Hin].
    + edestruct (IH (mkSt (hook st) (with_effects
                  (effects (world st) ++ (reaction_effect s <$> [(createPcmBlob f, throws)]))
                  (world st)))) as [Hh Hsent]; try eassumption.
      cbn [hook world] in *. rewrite Hh, Hsent. split; [reflexivity|].
      rewrite sent_frames_reactions. cbn [handlers with_effects].
      rewrite <- app_assoc. f_equal. rewrite delivered_cons.
      unfold delivered at 1. cbn. destruct throws; reflexivity.
    + apply IH; assumption.
Qed.

Lemma capture_on_pending_promise proc f throws st a t p queue :
  sessionPromiseRef (hook st) = Some a →
  attempts (world st) !! a = Some t → att_stage t = Opening p queue →
  gain_is_zero (inputGainRef (hook st)) = false →
  step (EvAudioProcess proc f throws) st
  = if decide (proc ∈ handlers (world st)) then
      mkSt (hook st)
           (with_attempts
              (alter (λ t, {| att_rendered := att_rendered t;
                              att_stage := Opening p (queue ++ [(createPcmBlob f, throws)]) |})
                     a (attempts (world st)))
              (world st))
    else st.
Proof.
  intros Hp Ha Hs Hz. open_event. case_decide; cbn; [|reflexivity].
  rewrite Hz. cbn. rewrite Hp. cbn. rewrite Ha. cbn. rewrite Hs. reflexivity.
Qed.

Lemma captures_on_pending_promise frames st a t p queue :
  sessionPromiseRef (hook st) = Some a →
  attempts (world st) !! a = Some t → att_stage t = Opening p queue →
  gain_is_zero (inputGainRef (hook st)) = false →
  let st' := run (capture_events frames) st in
  hook st' = hook st ∧ effects (world st') = effects (world st) ∧
  handlers (world st') = handlers (world st) ∧
  attempts (world st') !! a
  = Some {| att_rendered := att_rendered t;
            att_stage := Opening p (queue ++ captured (handlers (world st)) frames) |}.
Proof.
  revert st t queue.
  induction frames as [|[[proc f] throws] frames IH]; intros st t queue Hp Ha Hs Hz.
  - cbn. rewrite app_nil_r, Ha. destruct t. cbn in Hs. subst. auto.
  - cbn zeta. change (capture_events ((proc, f, throws) :: frames))
      with (EvAudioProcess proc f throws :: capture_events frames).
    change (run (?e :: ?l) st) with (run l (step e st)).
    rewrite (capture_on_pending_promise proc f throws st a t p queue Hp Ha Hs Hz).
    rewrite captured_cons. destruct (decide (proc ∈ handlers (world st))) as [Hin|Hin].
    + edestruct (IH (mkSt (hook st) (with_attempts
                  (alter (λ t, {| att_rendered := att_rendered t;
                                  att_stage := Opening p (queue ++ [(createPcmBlob f, throws)]) |})
                         a (attempts (world st))) (world st))))
        as (Hh & He & Hd & Hq); cbn [hook world attempts with_attempts];
        [exact Hp | rewrite lookup_alter, decide_True, Ha by reflexivity; reflexivity
        | reflexivity | exact Hz |].
      cbn [hook world] in *. rewrite Hh, He, Hd, Hq. cbn.
      rewrite <- app_assoc. auto.
    + apply IH; assumption.
Qed.

(** X11.  Frames captured while the session promise the hook holds is
    still pending are neither sent nor dropped: they wait on the promise in
    capture order.  When the session opens they are handed to it first to
    last, the ones whose send throws being skipped, the state becomes
    CONNECTED and the session handle is set. *)
Theorem frames_wait_for_pending_session
    (st : St) (a : nat) (t : Attempt) (p : nat) (queue : list (Blob * bool))
    (frames : list (nat * Frame * bool)) (s : Session) :
  sessionPromiseRef (hook st) = Some a →
  attempts (world st) !! a = Some t → att_stage t = Opening p queue →
  gain_is_zero (inputGainRef (hook st)) = false →
  let st' := run (capture_events frames) st in
  let opened := step (EvOpen a s) st' in
  hook st' = hook st ∧
  sent_frames (world st') = sent_frames (world st) ∧
  sent_frames (world opened)
  = sent_frames (world st)
    ++ delivered s (queue ++ captured (handlers (world st)) frames) ∧
  connectionState (hook opened) = CONNECTED ∧
  currentSessionRef (hook opened) = Some s.
Proof.
  intros Hp Ha Hs Hz.
  destruct (captures_on_pending_promise frames st a t p queue Hp Ha Hs Hz)
    as (Hh & He & Hd & Hq).
  cbn zeta. split; [exact Hh|]. split; [unfold sent_frames; rewrite He; reflexivity|].
  destruct (run (capture_events frames) st) as [h' w']. cbn [hook world] in *.
  open_event. rewrite Hq. cbn. rewrite forEach_send_reaction. cbn.
  split; [|split; reflexivity].
  rewrite !omap_app. cbn. rewrite !app_nil_r, delivered_reactions, He. reflexivity.
Qed.

(** ** Mute within a session *)

Lemma step_mute_in_sync ev st :
  keeps_capture_graph ev → mute_in_sync (hook st) → mute_in_sync (hook (step ev st)).
Proof.
  intros Hev (g & Hg & Hv). destruct st as [h w]. cbn in Hg, Hv.
  assert (Hsame : mute_in_sync h) by (exists g; auto).
  destruct ev; try destruct Hev.
  - open_event. destruct (truthy_opt API_KEY); cbn; exists g; auto.
  - open_event. destruct (attempts w !! a) as [[r []]|]; cbn; try exact Hsame.
    rewrite forEach_send_reaction. cbn. exists g; auto.
  - open_event. destruct (attempts w !! a) as [[r []]|]; cbn; exact Hsame.
  - open_event. case_decide; cbn; [|exact Hsame].
    destruct (gain_is_zero _); cbn; [exact Hsame|].
    destruct (sessionPromiseRef h) as [p|]; cbn; [|exact Hsame].
    destruct (attempts w !! p) as [[r []]|]; cbn; try exact Hsame.
    unfold send_reaction. crunch. destruct send_throws; exact Hsame.
  - unfold step. cbn [handler].
    destruct (onmessage_only_playback m now (mkSt h w)) as ((q & srcs & Hh) & _).
    destruct (onmessage m now (mkSt h w)).1 as [h' w']. cbn in Hh. subst h'.
    exists g; auto.
  - open_event. exists g; auto.
  - open_event. rewrite Hg. cbn. eexists. split; [reflexivity|]. cbn.
    destruct (isMuted h); reflexivity.
Qed.

Lemma run_mute_in_sync evs st :
  Forall keeps_capture_graph evs → mute_in_sync (hook st) →
  mute_in_sync (hook (run evs st)).
Proof.
  revert st. induction evs as [|ev evs IH]; intros st Hall Hsync; [exact Hsync|].
  inversion Hall; subst. apply IH; [assumption|]. apply step_mute_in_sync; assumption.
Qed.

(** X12.  When a capture graph is built while MuteState is false, the new
    gain node agrees with MuteState.  From a state in agreement, any
    sequence of events that neither runs teardown nor builds another
    graph keeps the agreement, whatever the number of toggles; so in such
    a session a frame captured while MuteState is true changes nothing:
    it is neither sent nor queued. *)
Theorem mute_holds_within_a_session :
  (∀ st a t stream,
     attempts (world st) !! a = Some t → att_stage t = Acquiring →
     isMuted (hook st) = false →
     mute_in_sync (hook (step (EvUserMedia a (Granted stream None)) st))) ∧
  (∀ st evs,
     mute_in_sync (hook st) → Forall keeps_capture_graph evs →
     mute_in_sync (hook (run evs st)) ∧
     ∀ k proc f throws,
       evs !! k = Some (EvAudioProcess proc f throws) →
       isMuted (hook (run (take k evs) st)) = true →
       step (EvAudioProcess proc f throws) (run (take k evs) st)
       = run (take k evs) st).
Proof.
  split.
  - intros st a t stream Ha Hs Hm. open_event. rewrite Ha. cbn. rewrite Hs. cbn.
    eexists. split; [reflexivity|]. cbn. rewrite Hm. reflexivity.
  - intros st evs Hsync Hall. split; [apply run_mute_in_sync; assumption|].
    intros k proc f throws Hk Hm.
    assert (Hpre : mute_in_sync (hook (run (take k evs) st))).
    { apply run_mute_in_sync; [|exact Hsync]. apply Forall_take. exact Hall. }
    destruct Hpre as (g & Hg & Hv). apply capture_while_gain_zero.
    rewrite Hg. cbn. rewrite Hv, Hm. reflexivity.
Qed.

(** ** Messages that schedule nothing *)

(** X13.  When the payload of a message does not decode, the message
    handler ends with that exception after moving the cursor up to the
    clock: no source node is created, the active source set is untouched,
    and the interruption flag of the same message is not acted upon, so
    playback is not flushed. *)
Theorem undecodable_chunk_skips_interruption
    (m : Message) (now : Q) (st : St) (data : string) (e : JsError) :
  is_Some (outputAudioContextRef (hook st)) →
  inlineData m = Some data → truthy data = true →
  decodeAudioData data = Throw e →
  handler (EvMessage m now) st
  = (mkSt (with_nextStartTimeRef (Qmax (nextStartTimeRef (hook st)) now) (hook st))
          (world st),
     Throw e) ∧
  audioSourcesRef (hook (step (EvMessage m now) st)) = audioSourcesRef (hook st) ∧
  nodes (world (step (EvMessage m now) st)) = nodes (world st).
Proof.
  intros [c Hc] Hdata Htruthy Hdec.
  assert (Hrun : handler (EvMessage m now) st
    = (mkSt (with_nextStartTimeRef (Qmax (nextStartTimeRef (hook st)) now) (hook st))
            (world st), Throw e)).
  { cbn [handler]. unfold onmessage, playback_rebase, decode. rewrite Hdata.
    crunch. rewrite Hc, Htruthy, Hdec. reflexivity. }
  split; [exact Hrun|]. unfold step. rewrite Hrun. split; reflexivity.
Qed.

Lemma source_stop_starts id st :
  ∀ x n, nodes (world (source_stop id st).1) !! x = Some n →
    ∃ n0, nodes (world st) !! x = Some n0 ∧ node_start n = node_start n0.
Proof.
  intros x n. unfold source_stop. crunch.
  destruct (nodes (world st) !! id) as [n1|] eqn:E; cbn;
    [destruct (node_start n1) eqn:E1; cbn|]; eauto.
  rewrite lookup_insert. case_decide; subst; [|eauto].
  intros [= <-]. eauto.
Qed.

Lemma playback_interrupt_starts st :
  ∀ x n, nodes (world (playback_interrupt st).1) !! x = Some n →
    ∃ n0, nodes (world st) !! x = Some n0 ∧ node_start n = node_start n0.
Proof.
  unfold playback_interrupt. crunch.
  match goal with |- context [forEach source_stop ?l ?s] =>
    assert (Hloop : ∀ x n, nodes (world (forEach source_stop l s).1) !! x = Some n →
              ∃ n0, nodes (world st) !! x = Some n0 ∧ node_start n = node_start n0);
    [ apply (forEach_invariant source_stop
               (λ s', ∀ x n, nodes (world s') !! x = Some n →
                  ∃ n0, nodes (world st) !! x = Some n0 ∧ node_start n = node_start n0))
    | destruct (forEach source_stop l s) as [s' [[]|e]]; cbn in *; exact Hloop ]
  end.
  - intros id s0 Hs0 x n Hx.
    destruct (source_stop_starts id s0 x n Hx) as (n1 & Hn1 & E1).
    destruct (Hs0 x n1 Hn1) as (n0 & Hn0 & E0). exists n0. split; congruence.
  - cbn. eauto.
Qed.

(** Without an output context a turn starts no node, and unless it
    settles a microphone request it builds no output context. *)
Lemma step_without_context ev st :
  ¬ builds_graph ev → outputAudioContextRef (hook st) = None →
  outputAudioContextRef (hook (step ev st)) = None ∧
  ∀ x n, nodes (world (step ev st)) !! x = Some n →
    ∃ n0, nodes (world st) !! x = Some n0 ∧ node_start n = node_start n0.
Proof.
  intros Hev Hctx. destruct (decide (is_message ev)) as [Hm|Hm].
  - destruct ev; try destruct Hm. unfold step. cbn [handler]. split.
    + rewrite (only_playback_output_context _ _ (onmessage_only_playback m now st)).
      exact Hctx.
    + unfold onmessage. crunch. rewrite Hctx.
      assert (Hplain : ∀ x n,
                nodes (world (when (interrupted m) playback_interrupt st).1) !! x = Some n →
                ∃ n0, nodes (world st) !! x = Some n0 ∧ node_start n = node_start n0).
      { destruct (interrupted m); cbn; [apply playback_interrupt_starts | eauto]. }
      destruct (inlineData m); destruct st; exact Hplain.
  - split; [|apply (step_cursor_kept ev st Hm)].
    destruct ev; try (exfalso; apply Hm; exact I).
    + open_event. destruct (truthy_opt API_KEY); exact Hctx.
    + open_event. destruct (attempts (world st) !! a) as [[r []]|]; cbn; try exact Hctx.
      destruct o as [stream fault|stream point e|e]; try (exfalso; apply Hev; exact I).
      cbn. use_disconnect. reflexivity.
    + open_event. destruct (attempts (world st) !! a) as [[r []]|]; cbn; try exact Hctx.
      rewrite forEach_send_reaction. exact Hctx.
    + open_event. destruct (attempts (world st) !! a) as [[r []]|]; cbn; exact Hctx.
    + open_event. case_decide; cbn; [|exact Hctx].
      destruct (gain_is_zero _); cbn; [exact Hctx|].
      destruct (sessionPromiseRef (hook st)) as [p|]; cbn; [|exact Hctx].
      destruct (attempts (world st) !! p) as [[r []]|]; cbn; try exact Hctx.
      unfold send_reaction. crunch. destruct send_throws; exact Hctx.
    + open_event. exact Hctx.
    + open_event. destruct (attempts (world st) !! a) as [[r []]|]; cbn; try exact Hctx.
      all: case_decide; cbn; [use_disconnect; reflexivity | exact Hctx].
    + open_event. destruct (includes _ _); cbn; use_disconnect; reflexivity.
    + unfold step. cbn [handler]. use_disconnect. reflexivity.
    + open_event. destruct (inputGainRef (hook st)); exact Hctx.
Qed.

Lemma run_without_context evs st :
  Forall (λ ev, ¬ builds_graph ev) evs → outputAudioContextRef (hook st) = None →
  outputAudioContextRef (hook (run evs st)) = None ∧
  ∀ x n, nodes (world (run evs st)) !! x = Some n →
    ∃ n0, nodes (world st) !! x = Some n0 ∧ node_start n = node_start n0.
Proof.
  revert st. induction evs as [|ev evs IH]; intros st Hall Hctx.
  - cbn. eauto.
  - inversion Hall as [|? ? Hev Hrest]; subst.
    change (run (ev :: evs) st) with (run evs (step ev st)).
    destruct (step_without_context ev st Hev Hctx) as [Hctx1 Hn1].
    destruct (IH (step ev st) Hrest Hctx1) as [Hctx2 Hn2].
    split; [exact Hctx2|]. intros x n Hx.
    destruct (Hn2 x n Hx) as (n1 & Hx1 & E1).
    destruct (Hn1 x n1 Hx1) as (n0 & Hx0 & E0). exists n0. split; congruence.
Qed.

(** X14.  A message without the interruption flag changes nothing when it
    carries no payload, an empty payload, or arrives while no output
    context exists.  Teardown, once it has run to its end, leaves no
    output context, and none exists until a microphone request settles
    with a stream: across any events before that, no source node is
    started, whatever the messages carry, and a message without the flag
    changes nothing.  (After such a grant, also one of a connect that was
    already waiting, audio is scheduled again.) *)
Theorem messages_without_playable_audio_change_nothing (m : Message) (now : Q) (st : St) :
  interrupted m = false →
  (inlineData m = None ∨ inlineData m = Some ""%string ∨
     outputAudioContextRef (hook st) = None →
   handler (EvMessage m now) st = (st, Ok tt)) ∧
  ∀ evs, Forall (λ ev, ¬ builds_graph ev) evs →
    let td := step EvDisconnect st in
    let later := run evs td in
    outputAudioContextRef (hook later) = None ∧
    handler (EvMessage m now) later = (later, Ok tt) ∧
    ∀ x n, nodes (world later) !! x = Some n →
      ∃ n0, nodes (world td) !! x = Some n0 ∧ node_start n = node_start n0.
Proof.
  intros Hflag.
  assert (Hnone : ∀ s, outputAudioContextRef (hook s) = None →
            handler (EvMessage m now) s = (s, Ok tt)).
  { intros s Hs. cbn [handler]. unfold onmessage. crunch. rewrite Hs, Hflag.
    destruct (inlineData m); reflexivity. }
  split.
  - intros [H|[H|H]]; [| |apply Hnone, H].
    + cbn [handler]. unfold onmessage. crunch. rewrite H, Hflag. reflexivity.
    + cbn [handler]. unfold onmessage. crunch. rewrite H, Hflag.
      destruct (outputAudioContextRef (hook st)); reflexivity.
  - intros evs Hall td later.
    assert (Htd : outputAudioContextRef (hook td) = None).
    { unfold td, step. cbn [handler]. use_disconnect. reflexivity. }
    destruct (run_without_context evs td Hall Htd) as [Hctx Hnodes].
    split; [exact Hctx|]. split; [apply Hnone, Hctx | exact Hnodes].
Qed.

(** ** Teardown while the microphone request is pending *)

Lemma connect_begins key st :
  truthy_opt key = true →
  let st' := step (EvConnect key) st in
  hook st' = with_error None (with_connectionState CONNECTING (hook st)) ∧
  attempts (world st') !! nextId (world st)
  = Some {| att_rendered := connectionState (hook st); att_stage := Acquiring |} ∧
  nextId (world st') = S (nextId (world st)) ∧
  handlers (world st') = handlers (world st) ∧
  sent_frames (world st') = sent_frames (world st).
Proof.
  intros Hkey. cbn zeta. open_event. rewrite Hkey. cbn.
  rewrite lookup_insert, decide_True by reflexivity.
  repeat split. same_log.
Qed.

Lemma grant_builds_graph st a t stream :
  attempts (world st) !! a = Some t → att_stage t = Acquiring →
  let n := nextId (world st) in
  let st' := step (EvUserMedia a (Granted stream None)) st in
  hook st'
  = with_sessionPromiseRef (Some a)
      (with_inputGainRef (Some {| gain_ctx := n; gain_value := 1 |})
         (with_outputAudioContextRef (Some (S n))
            (with_inputAudioContextRef (Some n)
               (with_mediaStreamRef (Some stream) (hook st))))) ∧
  attempts (world st') !! a
  = Some {| att_rendered := att_rendered t; att_stage := Opening (S (S n)) [] |} ∧
  nextId (world st') = S (S (S n)) ∧
  handlers (world st') = handlers (world st) ∧
  sent_frames (world st') = sent_frames (world st).
Proof.
  intros Ha Hs. cbn zeta. open_event. rewrite Ha. cbn. rewrite Hs. cbn.
  rewrite !lookup_alter, !decide_True, Ha by reflexivity. cbn.
  repeat split.
Qed.

Lemma open_fulfils_promise st a t p queue s :
  attempts (world st) !! a = Some t → att_stage t = Opening p queue →
  let st' := step (EvOpen a s) st in
  hook st' = with_currentSessionRef (Some s) (with_connectionState CONNECTED (hook st)) ∧
  attempts (world st') !! a
  = Some {| att_rendered := att_rendered t; att_stage := Opened p s |} ∧
  nextId (world st') = nextId (world st) ∧
  handlers (world st') = {[p]} ∪ handlers (world st) ∧
  sent_frames (world st') = sent_frames (world st) ++ delivered s queue.
Proof.
  intros Ha Hs. cbn zeta. open_event. rewrite Ha. cbn. rewrite Hs. cbn.
  rewrite forEach_send_reaction. cbn.
  rewrite !lookup_alter, !decide_True, Ha by reflexivity. cbn.
  repeat split. unfold sent_frames. cbn.
  rewrite !omap_app, delivered_reactions. cbn. rewrite !app_nil_r. reflexivity.
Qed.

Lemma teardown_step st :
  let st' := step EvDisconnect st in
  hook st' = torn_down (hook st) ∧
  attempts (world st') = attempts (world st) ∧
  nextId (world st') = nextId (world st) ∧
  handlers (world st') = handlers (world st) ∧
  sent_frames (world st') = sent_frames (world st).
Proof.
  cbn zeta. unfold step. cbn [handler].
  destruct (disconnect_spec st) as (w' & E & ? & ? & ? & ? & ? & ?).
  rewrite E. cbn. auto.
Qed.

Lemma pending_connect_survives_teardown st key stream s :
  truthy_opt key = true →
  let a := nextId (world st) in
  let st1 := run [EvConnect key; EvDisconnect; EvUserMedia a (Granted stream None)] st in
  let st2 := step (EvOpen a s) st1 in
  hook st1
  = with_sessionPromiseRef (Some a)
      (with_inputGainRef (Some {| gain_ctx := S a; gain_value := 1 |})
         (with_outputAudioContextRef (Some (S (S a)))
            (with_inputAudioContextRef (Some (S a))
               (with_mediaStreamRef (Some stream)
                  (torn_down (with_error None (with_connectionState CONNECTING (hook st)))))))) ∧
  hook st2 = with_currentSessionRef (Some s) (with_connectionState CONNECTED (hook st1)) ∧
  attempts (world st2) !! a
  = Some {| att_rendered := connectionState (hook st);
            att_stage := Opened (S (S (S a))) s |} ∧
  handlers (world st2) = {[S (S (S a))]} ∪ handlers (world st) ∧
  sent_frames (world st2) = sent_frames (world st).
Proof.
  intros Hkey a st1 st2. subst st2 st1. unfold run in *. cbn [foldl] in *.
  destruct (connect_begins key st Hkey) as (Hh1 & Ha1 & Hn1 & Hd1 & Hf1).
  set (s1 := step (EvConnect key) st) in *.
  destruct (teardown_step s1) as (Hh2 & Ha2 & Hn2 & Hd2 & Hf2).
  set (s2 := step EvDisconnect s1) in *.
  assert (Ha2' : attempts (world s2) !! a
                 = Some {| att_rendered := connectionState (hook st);
                           att_stage := Acquiring |})
    by (rewrite Ha2; exact Ha1).
  destruct (grant_builds_graph s2 a _ stream Ha2' eq_refl) as (Hh3 & Ha3 & Hn3 & Hd3 & Hf3).
  set (s3 := step (EvUserMedia a (Granted stream None)) s2) in *.
  destruct (open_fulfils_promise s3 a _ _ _ s Ha3 eq_refl) as (Hh4 & Ha4 & Hn4 & Hd4 & Hf4).
  rewrite Hn2, Hn1 in Hh3, Ha3, Ha4, Hd4. fold a in Hh3, Ha3, Ha4, Hd4.
  split; [rewrite Hh3, Hh2, Hh1; reflexivity|].
  split; [exact Hh4|]. split; [exact Ha4|].
  split; [rewrite Hd4, Hd3, Hd2, Hd1; reflexivity|].
  rewrite Hf4, Hf3, Hf2, Hf1. cbn. apply app_nil_r.
Qed.

(** X15.  Teardown does not cancel a connect that is waiting for the
    microphone.  When the request is granted after teardown, connect goes
    on: it stores the stream, both contexts and the session promise while
    the state stays DISCONNECTED; when the session opens the state becomes
    CONNECTED and captured frames are sent. *)
Theorem teardown_does_not_cancel_pending_connect
    (st : St) (API_KEY : option string) (stream : nat) (s : Session) (f : Frame) :
  truthy_opt API_KEY = true →
  let a := nextId (world st) in
  let st1 := run [EvConnect API_KEY; EvDisconnect; EvUserMedia a (Granted stream None)] st in
  let st2 := step (EvOpen a s) st1 in
  let st3 := step (EvAudioProcess (a + 3) f false) st2 in
  connectionState (hook st1) = DISCONNECTED ∧
  mediaStreamRef (hook st1) = Some stream ∧
  inputAudioContextRef (hook st1) = Some (a + 1) ∧
  outputAudioContextRef (hook st1) = Some (a + 2) ∧
  sessionPromiseRef (hook st1) = Some a ∧
  connectionState (hook st2) = CONNECTED ∧
  currentSessionRef (hook st2) = Some s ∧
  sent_frames (world st3) = sent_frames (world st) ++ [(session_id s, createPcmBlob f)].
Proof.
  intros Hkey a st1 st2 st3. subst st3.
  destruct (pending_connect_survives_teardown st API_KEY stream s Hkey)
    as (Hh1 & Hh2 & Ha2 & Hd2 & Hf2).
  fold a st1 st2 in Hh1, Hh2, Ha2, Hd2, Hf2.
  replace (a + 1) with (S a) by lia. replace (a + 2) with (S (S a)) by lia.
  replace (a + 3) with (S (S (S a))) by lia.
  rewrite Hh2, Hh1. cbn.
  do 7 (split; [reflexivity|]).
  erewrite capture_on_open_promise;
    [ | rewrite Hh2, Hh1; reflexivity | exact Ha2 | reflexivity
      | rewrite Hh2, Hh1; reflexivity ].
  rewrite decide_True
    by (rewrite Hd2; apply elem_of_union; left; apply elem_of_singleton; reflexivity).
  cbn [world]. rewrite sent_frames_reactions, Hf2. reflexivity.
Qed.

(** ** The application component *)

Lemma ui_step_is_run e app : ∃ evs, assistant (ui_step e app) = run evs (assistant app).
Proof.
  destruct e; cbn; try destruct (start_button_shown app); cbn.
  all: first [ by exists [] | by eexists [_] ].
Qed.

Lemma ui_run_is_run es app : ∃ evs, assistant (ui_run es app) = run evs (assistant app).
Proof.
  revert app. induction es as [|e es IH]; intros app; [by exists []|].
  cbn. destruct (IH (ui_step e app)) as [evs2 H2].
  destruct (ui_step_is_run e app) as [evs1 H1].
  exists (evs1 ++ evs2). unfold ui_run in H2. rewrite H2, H1, run_app. reflexivity.
Qed.

Lemma failed_grant_step st a t o err :
  attempts (world st) !! a = Some t → att_stage t = Acquiring →
  setup_failure o = Some err →
  ∃ g, hook (step (EvUserMedia a o) st)
       = with_inputGainRef g
           (torn_down (with_error (Some (connect_error_message err)) (hook st))).
Proof.
  intros Ha Hs Hfail. open_event. rewrite Ha. cbn. rewrite Hs. cbn.
  destruct o as [stream [e|]|stream [] e|e]; cbn in Hfail; simplify_eq; cbn.
  all: use_disconnect; eexists; reflexivity.
Qed.

(** X17.  Ending the session while the microphone prompt is open does not
    end it.  After Start, End Session, then the grant and the open
    acknowledgment, the hook is CONNECTED and streams captured frames,
    while the application shows the start button: the mute and stop
    buttons are not rendered, so the session cannot be muted or ended.
    Pressing Start again sets CONNECTING with the first session still in
    place, and frames keep flowing to it. *)
Theorem stop_during_prompt_leaves_session_running
    (app : App) (API_KEY : option string) (stream : nat) (s : Session) (f : Frame) :
  truthy_opt API_KEY = true → start_button_shown app = true →
  let a := nextId (world (assistant app)) in
  let capture := Outside (EvAudioProcess (a + 3) f false) in
  let app1 := ui_run [ClickStart API_KEY; ClickStop;
                      Outside (EvUserMedia a (Granted stream None));
                      Outside (EvOpen a s)] app in
  let app2 := ui_step (ClickStart API_KEY) app1 in
  connectionState (hook (assistant app1)) = CONNECTED ∧
  getStatusText (connectionState (hook (assistant app1))) = "Listening"%string ∧
  hasStarted app1 = false ∧ start_button_shown app1 = true ∧
  ui_step ClickStop app1 = app1 ∧ ui_step ClickMute app1 = app1 ∧
  sent_frames (world (assistant (ui_step capture app1)))
  = sent_frames (world (assistant app)) ++ [(session_id s, createPcmBlob f)] ∧
  connectionState (hook (assistant app2)) = CONNECTING ∧
  currentSessionRef (hook (assistant app2)) = Some s ∧
  sent_frames (world (assistant (ui_step capture app2)))
  = sent_frames (world (assistant app)) ++ [(session_id s, createPcmBlob f)].
Proof.
  intros Hkey Hshown a capture app1 app2.
  destruct app as [started st]. cbn [assistant] in *.
  destruct (pending_connect_survives_teardown st API_KEY stream s Hkey)
    as (Hh1 & Hh2 & Ha2 & Hd2 & Hf2). fold a in Hh1, Hh2, Ha2, Hd2, Hf2.
  destruct (connect_begins API_KEY st Hkey) as (Hc & _).
  assert (Happ1 : app1 = mkApp false
            (step (EvOpen a s)
               (run [EvConnect API_KEY; EvDisconnect;
                     EvUserMedia a (Granted stream None)] st))).
  { unfold app1, ui_run. cbn [foldl]. unfold ui_step at 4. rewrite Hshown.
    unfold ui_step at 3, handleStart, start_button_shown.
    cbn [hasStarted assistant]. rewrite Hc. cbn [negb orb connectionState with_error
      with_connectionState]. rewrite bool_decide_eq_false_2 by discriminate.
    reflexivity. }
  set (st2 := step (EvOpen a s)
               (run [EvConnect API_KEY; EvDisconnect;
                     EvUserMedia a (Granted stream None)] st)) in *.
  assert (Hcs : connectionState (hook st2) = CONNECTED) by (rewrite Hh2; reflexivity).
  assert (Hcapture : ∀ st', hook st' = hook st2 ∨
                            hook st' = with_error None (with_connectionState CONNECTING (hook st2)) →
            attempts (world st') !! a
            = Some {| att_rendered := connectionState (hook st);
                      att_stage := Opened (S (S (S a))) s |} →
            handlers (world st') = handlers (world st2) →
            sent_frames (world st') = sent_frames (world st) →
            sent_frames (world (step (EvAudioProcess (a + 3) f false) st'))
            = sent_frames (world st) ++ [(session_id s, createPcmBlob f)]).
  { intros st' Hh' Ha' Hd' Hf'.
    replace (a + 3) with (S (S (S a))) by lia.
    erewrite capture_on_open_promise; [ | | exact Ha' | reflexivity | ].
    - rewrite decide_True
        by (rewrite Hd', Hd2; apply elem_of_union; left; apply elem_of_singleton;
            reflexivity).
      cbn [world]. rewrite sent_frames_reactions, Hf'. reflexivity.
    - destruct Hh' as [-> | ->]; rewrite Hh2, Hh1; reflexivity.
    - destruct Hh' as [-> | ->]; rewrite Hh2, Hh1; reflexivity. }
  assert (Hshown1 : start_button_shown app1 = true) by (rewrite Happ1; reflexivity).
  split; [rewrite Happ1; exact Hcs|].
  split; [rewrite Happ1; cbn [assistant]; rewrite Hcs; reflexivity|].
  split; [rewrite Happ1; reflexivity|].
  split; [exact Hshown1|].
  split; [cbn [ui_step]; rewrite Hshown1; reflexivity|].
  split; [cbn [ui_step]; rewrite Hshown1; reflexivity|].
  split.
  { rewrite Happ1. cbn [ui_step capture assistant hasStarted].
    apply Hcapture; auto. }
  unfold app2. cbn [ui_step]. rewrite Hshown1. rewrite Happ1.
  unfold handleStart. cbn [assistant hasStarted capture ui_step].
  destruct (connect_begins API_KEY st2 Hkey) as (Hh3 & Ha3 & Hn3 & Hd3 & Hf3).
  set (st3 := step (EvConnect API_KEY) st2) in *.
  split; [rewrite Hh3; reflexivity|].
  split; [rewrite Hh3, Hh2; reflexivity|].
  apply Hcapture; [right; exact Hh3 | | exact Hd3 | rewrite Hf3; exact Hf2].
  subst st3. clear Hh3 Ha3 Hn3 Hd3 Hf3 Hcapture.
  open_event. rewrite Hkey. cbn.
  rewrite lookup_insert_ne; [exact Ha2|].
  intros Heq. 
  assert (Hlt : (a < nextId (world st2))%nat); [|lia].
  clear Heq. subst st2. unfold run. cbn [foldl].
  destruct (connect_begins API_KEY st Hkey) as (_ & _ & Hn1 & _).
  destruct (teardown_step (step (EvConnect API_KEY) st)) as (_ & Ha2' & Hn2 & _).
  destruct (grant_builds_graph (step EvDisconnect (step (EvConnect API_KEY) st)) a
              {| att_rendered := connectionState (hook st); att_stage := Acquiring |}
              stream) as (_ & Ha3 & Hn3 & _); [|reflexivity|].
  { rewrite Ha2'. destruct (connect_begins API_KEY st Hkey) as (_ & Ha1 & _). exact Ha1. }
  destruct (open_fulfils_promise _ a _ _ _ s Ha3 eq_refl) as (_ & _ & Hn4 & _).
  rewrite Hn4, Hn3, Hn2, Hn1. unfold a. lia.
Qed.

(** X18.  A failed start brings the application back to its start screen
    with the reason on display: after Start and a microphone request
    that is refused or a setup that throws, the start button and the
    error overlay are shown, the status reads Ready to Connect and the
    visualizer is idle, although hasStarted stays true.  A Start without
    credentials in state DISCONNECTED shows the overlay and keeps the
    start button. *)
Theorem failed_start_returns_to_start_screen
    (app : App) (API_KEY : option string) (o : MediaOutcome) (err : JsError) :
  start_button_shown app = true →
  (truthy_opt API_KEY = true → setup_failure o = Some err →
   let a := nextId (world (assistant app)) in
   let app' := ui_run [ClickStart API_KEY; Outside (EvUserMedia a o)] app in
   hasStarted app' = true ∧ start_button_shown app' = true ∧
   error (hook (assistant app')) = Some (connect_error_message err) ∧
   error_overlay_shown app' = true ∧
   getStatusText (connectionState (hook (assistant app'))) = "Ready to Connect"%string ∧
   visualizer_isActive app' = false) ∧
  (truthy_opt API_KEY = false →
   connectionState (hook (assistant app)) = DISCONNECTED →
   let app' := ui_step (ClickStart API_KEY) app in
   hasStarted app' = true ∧ start_button_shown app' = true ∧
   error_overlay_shown app' = true).
Proof.
  intros Hshown. destruct app as [started st]. split.
  - intros Hkey Hfail a app'. cbn [assistant] in a.
    destruct (connect_begins API_KEY st Hkey) as (Hh1 & Ha1 & _).
    destruct (failed_grant_step (step (EvConnect API_KEY) st) a _ o err Ha1 eq_refl Hfail)
      as [g Hh2].
    assert (Happ : app' = mkApp true (step (EvUserMedia a o) (step (EvConnect API_KEY) st))).
    { unfold app', ui_run. cbn [foldl]. unfold ui_step at 2. rewrite Hshown. reflexivity. }
    rewrite Happ. unfold start_button_shown, error_overlay_shown, visualizer_isActive.
    cbn [assistant hasStarted]. rewrite Hh2. cbn.
    rewrite connect_error_message_truthy. repeat split.
  - intros Hkey Hcs app'. cbn [assistant] in Hcs. unfold app'. cbn [ui_step]. rewrite Hshown.
    unfold handleStart, start_button_shown, error_overlay_shown.
    cbn [assistant hasStarted]. open_event. rewrite Hkey. cbn.
    rewrite Hcs. repeat split.
Qed.

(** ** What a second connect leaves behind *)

Lemma disconnect_stops st :
  hook (disconnect st).1 = torn_down (hook st) ∧
  stopped_streams (world (disconnect st).1)
  = stopped_streams (world st)
    ++ match mediaStreamRef (hook st) with Some ms => [ms] | None => [] end.
Proof.
  destruct st as [[cs er mu ic oc ms ig nst srcs sp cur] [nd cl at_ hd ef ni]].
  unfold disconnect. crunch.
  destruct cur as [[sid ct]|]; [destruct ct|]; cbn.
  all: rewrite forEach_stop_quietly; cbn.
  all: destruct ms; cbn.
  all: unfold context_close; crunch.
  all: destruct ic; cbn; repeat case_decide; cbn.
  all: destruct oc; cbn; repeat case_decide; cbn.
  all: split; [reflexivity|].
  all: unfold stopped_streams; cbn; rewrite ?omap_app; cbn;
       rewrite ?app_nil_r; reflexivity.
Qed.

Lemma stops_of_reactions s rs :
  omap (λ e, match e with TracksStopped ms => Some ms | _ => None end)
       (reaction_effect s <$> rs)
  = [].
Proof.
  induction rs as [|[b t] rs IH]; [reflexivity|].
  cbn. unfold reaction_effect at 1. cbn. destruct t; exact IH.
Qed.

Lemma source_stop_stops id st :
  stopped_streams (world (source_stop id st).1) = stopped_streams (world st).
Proof.
  unfold source_stop. crunch.
  destruct (nodes (world st) !! id) as [n|]; cbn;
    [destruct (node_start n); cbn|]; reflexivity.
Qed.

Lemma playback_interrupt_stops st :
  stopped_streams (world (playback_interrupt st).1) = stopped_streams (world st).
Proof.
  unfold playback_interrupt. crunch.
  match goal with |- context [forEach source_stop ?l ?s] =>
    assert (Hloop : stopped_streams (world (forEach source_stop l s).1)
                    = stopped_streams (world st));
    [ apply (forEach_invariant source_stop
               (λ s', stopped_streams (world s') = stopped_streams (world st)))
    | destruct (forEach source_stop l s) as [s' [[]|e]]; cbn in * ]
  end.
  - intros x s Hs. rewrite source_stop_stops. exact Hs.
  - unfold stopped_streams. cbn. rewrite omap_app. cbn. apply app_nil_r.
  - exact Hloop.
  - exact Hloop.
Qed.

Lemma onmessage_stops m now st :
  stopped_streams (world (onmessage m now st).1) = stopped_streams (world st).
Proof.
  assert (Hwhen : ∀ s, stopped_streams (world s) = stopped_streams (world st) →
            stopped_streams (world (when (interrupted m) playback_interrupt s).1)
            = stopped_streams (world st)).
  { intros s Hs. destruct (interrupted m); cbn; [|exact Hs].
    rewrite playback_interrupt_stops. exact Hs. }
  unfold onmessage, playback_rebase, decode.
  destruct st as [h w].
  unfold mbind at 1 2, M_bind at 1 2, gets at 1. cbn [hook world].
  destruct (inlineData m) as [data|]; [destruct (outputAudioContextRef h) as [c|]|].
  2, 3: apply Hwhen; reflexivity.
  destruct (truthy data); [|apply Hwhen; reflexivity].
  crunch. destruct (decodeAudioData data) as [buf|e]; cbn.
  - rewrite playback_schedule_run. cbn. apply Hwhen. reflexivity.
  - reflexivity.
Qed.

(** A turn stops the tracks of a stream only if the hook holds that
    stream or the turn's own grant brought it. *)
Lemma step_stops ev st old :
  ¬ grants old ev →
  mediaStreamRef (hook st) ≠ Some old ∨
    (∃ a t o, ev = EvUserMedia a o ∧ attempts (world st) !! a = Some t ∧
              att_stage t = Acquiring ∧ ∃ stream fault, o = Granted stream fault) →
  mediaStreamRef (hook (step ev st)) ≠ Some old ∧
  ∃ delta, stopped_streams (world (step ev st)) = stopped_streams (world st) ++ delta ∧
           old ∉ delta.
Proof.
  intros Hev Hcase.
  assert (Hnil : ∀ w, stopped_streams w = stopped_streams w ++ [] ∧ old ∉ @nil nat).
  { intros w. rewrite app_nil_r. split; [reflexivity | apply not_elem_of_nil]. }
  assert (Htd : ∀ s, mediaStreamRef (hook s) ≠ Some old →
            mediaStreamRef (hook (disconnect s).1) ≠ Some old ∧
            ∃ delta, stopped_streams (world (disconnect s).1)
                     = stopped_streams (world s) ++ delta ∧ old ∉ delta).
  { intros s Hs. destruct (disconnect_stops s) as [Hh Hst]. rewrite Hh, Hst.
    split; [discriminate|]. eexists. split; [reflexivity|].
    destruct (mediaStreamRef (hook s)) as [ms|]; [|apply not_elem_of_nil].
    intros Hin. apply list_elem_of_singleton in Hin. congruence. }
  destruct ev.
  - destruct Hcase as [Hold|(? & ? & ? & ? & _)]; [|discriminate].
    open_event. destruct (truthy_opt API_KEY); cbn; (split; [exact Hold|]).
    + exists []. unfold stopped_streams. cbn. rewrite omap_app. cbn.
      split; [reflexivity | apply not_elem_of_nil].
    + exists []. apply Hnil.
  - unfold step. cbn [handler]. crunch.
    destruct (attempts (world st) !! a) as [[r stage]|] eqn:Ea; cbn.
    2: { destruct Hcase as [Hold|(a' & t' & o' & Heq & Ht' & _)]; [|simplify_eq].
         split; [exact Hold|]. exists []. apply Hnil. }
    destruct stage; cbn.
    2, 3, 4: destruct Hcase as [Hold|(a' & t' & o' & Heq & Ht' & Hs' & _)];
      [ split; [exact Hold|]; exists []; apply Hnil
      | simplify_eq; discriminate ].
    unfold connect_resume, connect_setup, connect_catch. crunch.
    destruct o as [stream [e|]|stream [] e|e]; cbn.
    1, 3, 4: cbn in Hev;
      match goal with |- context [disconnect ?s] =>
        destruct (Htd s) as (Hh & delta & Hst & Hnot); [cbn; congruence|] end;
      (split; [exact Hh|]); exists delta; (split; [|exact Hnot]);
      rewrite Hst; unfold stopped_streams; cbn; rewrite !omap_app; cbn;
      rewrite !app_nil_r; reflexivity.
    + cbn in Hev. split; [cbn; congruence|]. exists []. apply Hnil.
    + destruct Hcase as [Hold|(a' & t' & o' & Heq & _ & _ & stream' & fault' & Ho)];
        [|simplify_eq].
      match goal with |- context [disconnect ?s] =>
        destruct (Htd s) as (Hh & delta & Hst & Hnot); [exact Hold|] end.
      split; [exact Hh|]. exists delta. split; [|exact Hnot].
      rewrite Hst. unfold stopped_streams. cbn. rewrite !omap_app. cbn.
      rewrite !app_nil_r. reflexivity.
  - destruct Hcase as [Hold|(? & ? & ? & ? & _)]; [|discriminate].
    open_event. destruct (attempts (world st) !! a) as [[r []]|]; cbn;
      try (split; [exact Hold|]; exists []; apply Hnil).
    rewrite forEach_send_reaction. cbn. split; [exact Hold|]. exists [].
    rewrite app_nil_r. split; [|apply not_elem_of_nil].
    unfold stopped_streams. cbn. rewrite !omap_app, stops_of_reactions. cbn.
    rewrite !app_nil_r. reflexivity.
  - destruct Hcase as [Hold|(? & ? & ? & ? & _)]; [|discriminate].
    open_event. destruct (attempts (world st) !! a) as [[r []]|]; cbn;
      (split; [exact Hold|]; exists []; apply Hnil).
  - destruct Hcase as [Hold|(? & ? & ? & ? & _)]; [|discriminate].
    open_event. case_decide; cbn; [|split; [exact Hold|]; exists []; apply Hnil].
    destruct (gain_is_zero _); cbn; [split; [exact Hold|]; exists []; apply Hnil|].
    destruct (sessionPromiseRef (hook st)) as [p|]; cbn;
      [|split; [exact Hold|]; exists []; apply Hnil].
    destruct (attempts (world st) !! p) as [[r []]|]; cbn;
      try (split; [exact Hold|]; exists []; apply Hnil).
    unfold send_reaction. crunch.
    destruct send_throws; cbn; (split; [exact Hold|]); exists [];
      unfold stopped_streams; cbn; rewrite omap_app; cbn;
      (split; [reflexivity | apply not_elem_of_nil]).
  - destruct Hcase as [Hold|(? & ? & ? & ? & _)]; [|discriminate].
    unfold step. cbn [handler]. rewrite onmessage_stops.
    destruct (onmessage_only_playback m now st) as ((q & srcs & Hh) & _).
    rewrite Hh. split; [exact Hold|]. exists []. apply Hnil.
  - destruct Hcase as [Hold|(? & ? & ? & ? & _)]; [|discriminate].
    open_event. split; [exact Hold|]. exists []. apply Hnil.
  - destruct Hcase as [Hold|(? & ? & ? & ? & _)]; [|discriminate].
    unfold step. cbn [handler]. crunch.
    destruct (attempts (world st) !! a) as [[r []]|]; cbn;
      try (split; [exact Hold|]; exists []; apply Hnil).
    all: unfold onclose; crunch; case_decide; cbn.
    2, 4: split; [exact Hold|]; exists []; unfold stopped_streams; cbn;
      rewrite omap_app; cbn; (split; [reflexivity | apply not_elem_of_nil]).
    all: match goal with |- context [disconnect ?s] =>
        destruct (Htd s) as (Hh & delta & Hst & Hnot); [exact Hold|] end.
    all: split; [exact Hh|]; exists delta; split; [|exact Hnot].
    all: rewrite Hst; unfold stopped_streams; cbn; rewrite !omap_app; cbn;
      rewrite !app_nil_r; reflexivity.
  - destruct Hcase as [Hold|(? & ? & ? & ? & _)]; [|discriminate].
    unfold step. cbn [handler]. unfold onerror. crunch.
    destruct (includes _ _); cbn.
    all: match goal with |- context [disconnect ?s] =>
        destruct (Htd s) as (Hh & delta & Hst & Hnot); [exact Hold|] end.
    all: split; [exact Hh|]; exists delta; split; [|exact Hnot].
    all: rewrite Hst; unfold stopped_streams; cbn; rewrite !omap_app; cbn;
      rewrite !app_nil_r; reflexivity.
  - destruct Hcase as [Hold|(? & ? & ? & ? & _)]; [|discriminate].
    unfold step. cbn [handler]. apply Htd, Hold.
  - destruct Hcase as [Hold|(? & ? & ? & ? & _)]; [|discriminate].
    open_event. destruct (inputGainRef (hook st)); cbn;
      (split; [exact Hold|]; exists []; apply Hnil).
Qed.

Lemma run_stops evs st old :
  Forall (λ ev, ¬ grants old ev) evs →
  mediaStreamRef (hook st) ≠ Some old →
  ∃ delta, stopped_streams (world (run evs st)) = stopped_streams (world st) ++ delta ∧
           old ∉ delta.
Proof.
  revert st. induction evs as [|ev evs IH]; intros st Hall Hold.
  - exists []. rewrite app_nil_r. split; [reflexivity | apply not_elem_of_nil].
  - inversion Hall as [|? ? Hev Hrest]; subst.
    destruct (step_stops ev st old Hev (or_introl Hold)) as (Hold' & d1 & H1 & Hn1).
    destruct (IH (step ev st) Hrest Hold') as (d2 & H2 & Hn2).
    exists (d1 ++ d2). change (run (ev :: evs) st) with (run evs (step ev st)).
    rewrite H2, H1, app_assoc. split; [reflexivity|].
    intros Hin. apply elem_of_app in Hin as [?|?]; auto.
Qed.

(** X19.  connect never releases what the hook's cells held.  When a
    microphone grant arrives while the hook still holds another stream,
    the stream cell is overwritten, and from then on no turn stops the
    tracks of the earlier stream, whatever happens next, teardown
    included: the first microphone capture stays open. *)
Theorem overwritten_stream_is_never_stopped
    (st : St) (a : nat) (t : Attempt) (stream old : nat) (fault : option JsError)
    (evs : list Event) :
  attempts (world st) !! a = Some t → att_stage t = Acquiring →
  mediaStreamRef (hook st) = Some old → old ≠ stream →
  Forall (λ ev, ¬ grants old ev) evs →
  let st' := run (EvUserMedia a (Granted stream fault) :: evs) st in
  mediaStreamRef (hook st') ≠ Some old ∧
  ∃ delta, stopped_streams (world st') = stopped_streams (world st) ++ delta ∧
           old ∉ delta.
Proof.
  intros Ha Hs Hold Hne Hall st'. subst st'.
  change (run (?e :: ?l) st) with (run l (step e st)).
  destruct (step_stops (EvUserMedia a (Granted stream fault)) st old) as (Hold1 & d1 & H1 & Hn1).
  { cbn. congruence. }
  { right. exists a, t, (Granted stream fault). eauto 10. }
  destruct (run_stops evs _ old Hall Hold1) as (d2 & H2 & Hn2).
  split.
  - clear H2. revert Hold1. generalize (step (EvUserMedia a (Granted stream fault)) st).
    induction evs as [|ev evs IH]; intros s0 Hs0; [exact Hs0|].
    inversion Hall as [|? ? Hev Hrest]; subst.
    change (run (ev :: evs) s0) with (run evs (step ev s0)).
    apply IH; [exact Hrest|].
    apply (step_stops ev s0 old Hev (or_introl Hs0)).
  - exists (d1 ++ d2). rewrite H2, H1, app_assoc. split; [reflexivity|].
    intros Hin. apply elem_of_app in Hin as [?|?]; auto.
Qed.

(** ** A session promise that rejects *)

Lemma capture_on_failed_promise proc f throws st a t :
  sessionPromiseRef (hook st) = Some a →
  attempts (world st) !! a = Some t → att_stage t = Failed →
  step (EvAudioProcess proc f throws) st = st.
Proof.
  intros Hp Ha Hs. open_event. case_decide; cbn; [|reflexivity].
  destruct (gain_is_zero _); cbn; [reflexivity|].
  rewrite Hp. cbn. rewrite Ha. cbn. rewrite Hs. reflexivity.
Qed.

(** X20.  A session promise that rejects is not reported.  The hook has
    no rejection handler: ConnectionState, the error cell and every other
    cell stay as they were, nothing is logged, the frames that waited on
    the promise are never sent, and every frame captured afterwards is
    dropped without a trace. *)
Theorem rejected_session_is_silently_ignored
    (st : St) (a : nat) (t : Attempt) (p : nat) (queue : list (Blob * bool))
    (frames : list (nat * Frame * bool)) :
  sessionPromiseRef (hook st) = Some a →
  attempts (world st) !! a = Some t → att_stage t = Opening p queue →
  let st' := step (EvReject a) st in
  (handler (EvReject a) st).2 = Ok tt ∧
  hook st' = hook st ∧
  effects (world st') = effects (world st) ∧
  run (capture_events frames) st' = st'.
Proof.
  intros Hp Ha Hs st'.
  assert (Hst' : st' = mkSt (hook st)
            (with_attempts
               (alter (λ t, {| att_rendered := att_rendered t; att_stage := Failed |}) a
                  (attempts (world st))) (world st))).
  { unfold st'. open_event. rewrite Ha. cbn. rewrite Hs. reflexivity. }
  split; [open_event; rewrite Ha; cbn; rewrite Hs; reflexivity|].
  rewrite Hst'. split; [reflexivity|]. split; [reflexivity|].
  induction frames as [|[[proc f] throws] frames IH]; [reflexivity|].
  change (capture_events ((proc, f, throws) :: frames))
    with (EvAudioProcess proc f throws :: capture_events frames).
  change (run (?e :: ?l) ?s) with (run l (step e s)).
  rewrite (capture_on_failed_promise proc f throws _ a
             {| att_rendered := att_rendered t; att_stage := Failed |});
    [exact IH | exact Hp | | reflexivity].
  cbn. rewrite lookup_alter, decide_True, Ha by reflexivity. reflexivity.
Qed.

(** ** The cursor across sessions *)

(** X21.  The playback cursor outlives the session.  Teardown and the
    next connect leave it where the previous session's audio ended, so
    the first chunk of the new session is started at the greater of that
    old cursor and the new context's clock: while the clock is behind the
    old cursor, the chunk waits until the old cursor. *)
Theorem new_session_inherits_cursor
    (st : St) (API_KEY : option string) (stream : nat) (s : Session)
    (m : Message) (now : Q) (buf : AudioBuffer) :
  truthy_opt API_KEY = true → playable m buf → interrupted m = false →
  let a := nextId (world st) in
  let st' := run [EvDisconnect; EvConnect API_KEY;
                  EvUserMedia a (Granted stream None); EvOpen a s] st in
  let t0 := nextStartTimeRef (hook st) in
  nextStartTimeRef (hook st') = t0 ∧
  nodes (world (step (EvMessage m now) st')) !! nextId (world st')
  = Some (scheduled buf (Qmax t0 now)) ∧
  ((now <= t0)%Q → Qmax t0 now = t0).
Proof.
  intros Hkey Hbuf Hflag a st' t0. subst st'. unfold run. cbn [foldl].
  destruct (teardown_step st) as (Hh1 & Ha1 & Hn1 & _).
  set (s1 := step EvDisconnect st) in *.
  destruct (connect_begins API_KEY s1 Hkey) as (Hh2 & Ha2 & Hn2 & _).
  set (s2 := step (EvConnect API_KEY) s1) in *.
  rewrite Hn1 in Ha2. fold a in Ha2.
  destruct (grant_builds_graph s2 a _ stream Ha2 eq_refl) as (Hh3 & Ha3 & Hn3 & _).
  set (s3 := step (EvUserMedia a (Granted stream None)) s2) in *.
  destruct (open_fulfils_promise s3 a _ _ _ s Ha3 eq_refl) as (Hh4 & Ha4 & Hn4 & _).
  set (s4 := step (EvOpen a s) s3) in *.
  assert (Hcursor : nextStartTimeRef (hook s4) = t0).
  { rewrite Hh4, Hh3, Hh2, Hh1. reflexivity. }
  assert (Hctx : is_Some (outputAudioContextRef (hook s4))).
  { rewrite Hh4, Hh3. cbn. eauto. }
  split; [exact Hcursor|]. split.
  - unfold step at 1. cbn [handler]. destruct s4 as [h4 w4]. cbn [hook world] in *.
    rewrite (onmessage_playable m now buf h4 w4 Hctx Hbuf Hflag). cbn.
    rewrite lookup_insert, decide_True by reflexivity. rewrite Hcursor. reflexivity.
  - intros Hle. apply Qmax_keep. exact Hle.
Qed.

(** ** The visualizer *)

Lemma sum_bytes_bound (dataArray : list N) (acc : N) :
  Forall (λ b, (b <= 255)%N) dataArray →
  (foldl N.add acc dataArray <= acc + 255 * N.of_nat (length dataArray))%N.
Proof.
  revert acc. induction dataArray as [|b l IH]; intros acc Hall.
  - cbn. lia.
  - inversion Hall as [|? ? Hb Hl]; subst. cbn [foldl length].
    specialize (IH (acc + b)%N Hl). lia.
Qed.

Lemma average_bounds (dataArray : list N) :
  Forall (λ b, (b <= 255)%N) dataArray → dataArray ≠ [] →
  (0 <= average dataArray)%Q ∧ (average dataArray <= 255)%Q.
Proof.
  intros Hall Hne. pose proof (sum_bytes_bound dataArray 0 Hall) as Hsum.
  unfold average.
  assert (Hlen : (0 < length dataArray)%nat) by (destruct dataArray; [done | cbn; lia]).
  set (sum := foldl N.add 0%N dataArray) in *. set (n := length dataArray) in *.
  assert (Hpos : (0 < inject_Z (Z.of_nat n))%Q).
  { unfold Qlt. cbn. lia. }
  split.
  - apply Qle_shift_div_l; [exact Hpos|]. unfold Qle. cbn. lia.
  - apply Qle_shift_div_r; [exact Hpos|]. unfold Qle. cbn. lia.
Qed.

(** X22.  The visualizer's data arrays are never empty, so its averages
    are well defined.  For byte data the louder of the two averages lies
    between 0 and 255, the core circle's radius between 60 and 150 and
    the glow's outer radius within 225; the colour is the model's pink
    exactly when the output average is strictly the greater, a tie being
    the user's indigo; and particles are drawn exactly above level 20. *)
Theorem visualizer_levels_are_bounded
    (inputBins outputBins : option N) (inputDataArray outputDataArray : list N) :
  length inputDataArray = N.to_nat (dataArrayLength inputBins) →
  length outputDataArray = N.to_nat (dataArrayLength outputBins) →
  Forall (λ b, (b <= 255)%N) inputDataArray →
  Forall (λ b, (b <= 255)%N) outputDataArray →
  let inputAvg := average inputDataArray in
  let outputAvg := average outputDataArray in
  let level := combinedAvg inputAvg outputAvg in
  inputDataArray ≠ [] ∧ outputDataArray ≠ [] ∧
  (0 <= level)%Q ∧ (level <= 255)%Q ∧
  (60 <= radius level)%Q ∧ (radius level <= 150)%Q ∧
  (radius level * (3 # 2) <= 225)%Q ∧
  (primaryColor inputAvg outputAvg = "236, 72, 153"%string ↔ (inputAvg < outputAvg)%Q) ∧
  (particles_drawn level = true ↔ (20 < level)%Q).
Proof.
  intros Hlin Hlout Hin Hout inputAvg outputAvg level.
  assert (Hpos : ∀ bins, (0 < N.to_nat (dataArrayLength bins))%nat).
  { intros [n|]; cbn; [|lia]. destruct (N.eqb_spec n 0); lia. }
  assert (Hne_in : inputDataArray ≠ []).
  { intros ->. specialize (Hpos inputBins). cbn in Hlin. lia. }
  assert (Hne_out : outputDataArray ≠ []).
  { intros ->. specialize (Hpos outputBins). cbn in Hlout. lia. }
  destruct (average_bounds inputDataArray Hin Hne_in) as [Hi0 Hi1].
  destruct (average_bounds outputDataArray Hout Hne_out) as [Ho0 Ho1].
  fold inputAvg in Hi0, Hi1. fold outputAvg in Ho0, Ho1.
  assert (Hl0 : (0 <= level)%Q).
  { eapply Qle_trans; [exact Hi0|]. apply Q.le_max_l. }
  assert (Hl1 : (level <= 255)%Q).
  { unfold level, combinedAvg. apply Q.max_lub; assumption. }
  split; [exact Hne_in|]. split; [exact Hne_out|].
  split; [exact Hl0|]. split; [exact Hl1|].
  assert (Hx0 : (0 <= level / 255)%Q) by (apply Qle_shift_div_l; lra).
  assert (Hx1 : (level / 255 <= 1)%Q) by (apply Qle_shift_div_r; lra).
  unfold radius, scale. generalize dependent (level / 255)%Q. intros x Hx0 Hx1.
  split; [lra|]. split; [lra|]. split; [lra|]. split.
  - unfold primaryColor, isOutputDominant.
    destruct (Qle_bool outputAvg inputAvg) eqn:E; cbn.
    + apply Qle_bool_iff in E. split; [discriminate|]. intros Hlt.
      exfalso. apply (Qlt_not_le _ _ Hlt E).
    + split; [intros _|reflexivity]. apply Qnot_le_lt. intros Hle.
      apply Qle_bool_iff in Hle. congruence.
  - unfold particles_drawn. destruct (Qle_bool level 20) eqn:E; cbn.
    + apply Qle_bool_iff in E. split; [discriminate|]. intros Hlt.
      exfalso. apply (Qlt_not_le _ _ Hlt E).
    + split; [intros _|reflexivity]. apply Qnot_le_lt. intros Hle.
      apply Qle_bool_iff in Hle. congruence.
Qed.

(** ** Teardown turn by turn *)

(** Cut at its first await and resumed, teardown is [disconnect]. *)
Lemma disconnect_split st :
  disconnect st = (disconnect_sync ;; disconnect_closes ;; disconnect_finish) st.
Proof.
  destruct st as [[cs er mu ic oc ms ig nst srcs sp cur] [nd cl at_ hd ef ni]].
  unfold disconnect, disconnect_sync, disconnect_closes, disconnect_finish. crunch.
  destruct cur as [[sid ct]|]; [destruct ct|]; cbn.
  all: rewrite forEach_stop_quietly; cbn.
  all: destruct ms; cbn.
  all: unfold context_close; crunch.
  all: destruct ic; cbn; repeat case_decide; cbn.
  all: destruct oc; cbn; repeat case_decide; cbn.
  all: reflexivity.
Qed.

Lemma connect_catch_turn_spec err st :
  let mid := (connect_catch_turn err st).1 in
  error (hook mid) = Some (connect_error_message err) ∧
  sessionPromiseRef (hook mid) = None ∧ currentSessionRef (hook mid) = None ∧
  mediaStreamRef (hook mid) = None ∧ audioSourcesRef (hook mid) = [] ∧
  awaits_close (hook mid) = awaits_close (hook st) ∧
  if awaits_close (hook st) then
    connectionState (hook mid) = ERROR ∧
    (disconnect_rest mid).1 = (connect_catch err st).1
  else
    connectionState (hook mid) = DISCONNECTED ∧
    mid = (connect_catch err st).1.
Proof.
  destruct st as [[cs er mu ic oc ms ig nst srcs sp cur] [nd cl at_ hd ef ni]].
  unfold connect_catch_turn, connect_catch, disconnect_turn, disconnect_rest,
    disconnect, disconnect_sync, disconnect_closes, disconnect_finish, awaits_close.
  crunch.
  destruct cur as [[sid ct]|]; [destruct ct|]; cbn.
  all: rewrite !forEach_stop_quietly; cbn.
  all: destruct ms; cbn.
  all: unfold context_close; crunch.
  all: destruct ic; cbn; repeat case_decide; cbn.
  all: destruct oc; cbn; repeat case_decide; cbn.
  all: repeat split; reflexivity.
Qed.

Lemma connect_setup_fails a o err st :
  setup_failure o = Some err →
  ∃ st', connect_setup a o st = (st', Throw err) ∧
         awaits_close (hook st')
         = match o with Faulted _ _ _ => true | _ => awaits_close (hook st) end.
Proof.
  intros Hfail. unfold connect_setup, awaits_close.
  destruct o as [stream [e|]|stream [] e|e]; cbn in Hfail; simplify_eq; crunch;
    eexists; split; reflexivity.
Qed.

Lemma user_media_turn_fails st a t o err :
  attempts (world st) !! a = Some t → att_stage t = Acquiring →
  setup_failure o = Some err →
  ∃ st', awaits_close (hook st')
         = match o with Faulted _ _ _ => true | _ => awaits_close (hook st) end ∧
         user_media_turn a o st = connect_catch_turn err st' ∧
         handler (EvUserMedia a o) st = connect_catch err st'.
Proof.
  intros Ha Hs Hfail.
  destruct (connect_setup_fails a o err
              (mkSt (hook st)
                 (with_attempts
                    (alter (λ t, {| att_rendered := att_rendered t; att_stage := Failed |}) a
                       (attempts (world st))) (world st))) Hfail)
    as (st' & Hthrow & Hawait).
  exists st'. split; [exact Hawait|].
  unfold user_media_turn, handler, connect_resume, set_stage, try_catch.
  unfold mbind, M_bind, getw, modw. cbn [world]. rewrite Ha.
  cbn [fmap option_fmap option_map]. rewrite Hs. rewrite Hthrow. split; reflexivity.
Qed.

(** X8.  When connect fails after the microphone request has settled,
    the turn of its catch clause stores the mapped message and clears
    the session handle, the session promise, the stream and the active
    source set.  It ends in state ERROR exactly when teardown found an
    audio context to close, which is the case when the try block threw
    after the context refs were set or when the refs still held the
    contexts of an earlier attempt; the state becomes DISCONNECTED when
    those closes have settled and the rest of teardown has run.  When no
    context ref is set, teardown reaches no await and the same turn ends
    in DISCONNECTED.  Either way the end is the state in which the
    completed teardown leaves the hook. *)
Theorem error_state_rests_while_contexts_close
    (st : St) (a : nat) (t : Attempt) (o : MediaOutcome) (err : JsError) :
  attempts (world st) !! a = Some t → att_stage t = Acquiring →
  setup_failure o = Some err →
  let mid := (user_media_turn a o st).1 in
  let done := step (EvUserMedia a o) st in
  error (hook mid) = Some (connect_error_message err) ∧
  sessionPromiseRef (hook mid) = None ∧ currentSessionRef (hook mid) = None ∧
  mediaStreamRef (hook mid) = None ∧ audioSourcesRef (hook mid) = [] ∧
  (awaits_close (hook mid) = true ↔
   (∃ stream point e, o = Faulted stream point e) ∨ awaits_close (hook st) = true) ∧
  (awaits_close (hook mid) = true →
   connectionState (hook mid) = ERROR ∧ (disconnect_rest mid).1 = done) ∧
  (awaits_close (hook mid) = false →
   connectionState (hook mid) = DISCONNECTED ∧ mid = done) ∧
  connectionState (hook done) = DISCONNECTED.
Proof.
  intros Ha Hs Hfail mid done.
  destruct (user_media_turn_fails st a t o err Ha Hs Hfail) as (st' & Hawait & Hturn & Hdone).
  unfold mid, done, step. rewrite Hturn, Hdone.
  pose proof (connect_catch_turn_spec err st') as Hspec. cbv zeta in Hspec.
  destruct Hspec as (He & Hp & Hc & Hm & Hl & Hsame & Hend).
  split; [exact He|]. split; [exact Hp|]. split; [exact Hc|].
  split; [exact Hm|]. split; [exact Hl|]. split; [|split; [|split]].
  - rewrite Hsame, Hawait. destruct o as [stream fault|stream point e|e].
    + split; [intros H; right; exact H|].
      intros [(x & y & z & Heq)|H]; [discriminate Heq | exact H].
    + split; [intros _; left; exists stream, point, e; reflexivity|].
      intros _. reflexivity.
    + split; [intros H; right; exact H|].
      intros [(x & y & z & Heq)|H]; [discriminate Heq | exact H].
  - rewrite Hsame. intros Htrue. rewrite Htrue in Hend. exact Hend.
  - rewrite Hsame. intros Hfalse. rewrite Hfalse in Hend. exact Hend.
  - unfold connect_catch. crunch.
    match goal with |- context [disconnect ?s] =>
      destruct (disconnect_spec s) as (w' & E & _) end.
    rewrite E. reflexivity.
Qed.

(** X16.  What the application shows when a start fails after the
    microphone request has settled.  The error overlay is shown from the
    turn of the catch clause on.  When teardown finds a context to close,
    which is always so when the try block threw after building the
    contexts, that turn leaves the status line at Connection Failed in
    red with the mute and stop buttons in place of the start button;
    the start screen comes back when the closes have settled.  When no
    context ref is set, the same turn ends on the start screen and
    Connection Failed is never shown. *)
Theorem status_after_failed_start
    (app : App) (API_KEY : option string) (o : MediaOutcome) (err : JsError) :
  start_button_shown app = true → truthy_opt API_KEY = true →
  setup_failure o = Some err →
  let a := nextId (world (assistant app)) in
  let started := ui_step (ClickStart API_KEY) app in
  let mid := mkApp (hasStarted started) (user_media_turn a o (assistant started)).1 in
  let done := ui_step (Outside (EvUserMedia a o)) started in
  error_overlay_shown mid = true ∧
  (awaits_close (hook (assistant mid)) = true ↔
   (∃ stream point e, o = Faulted stream point e) ∨
   awaits_close (hook (assistant app)) = true) ∧
  (awaits_close (hook (assistant mid)) = true →
   getStatusText (connectionState (hook (assistant mid))) = "Connection Failed"%string ∧
   getStatusColor (connectionState (hook (assistant mid))) = "text-red-400"%string ∧
   start_button_shown mid = false ∧
   mkApp (hasStarted mid) (disconnect_rest (assistant mid)).1 = done) ∧
  (awaits_close (hook (assistant mid)) = false → mid = done) ∧
  start_button_shown done = true ∧
  getStatusText (connectionState (hook (assistant done))) = "Ready to Connect"%string.
Proof.
  intros Hshown Hkey Hfail a started mid done.
  destruct app as [flag st]. cbn [assistant] in a.
  destruct (connect_begins API_KEY st Hkey) as (Hh1 & Ha1 & _).
  assert (Hstarted : started = mkApp true (step (EvConnect API_KEY) st)).
  { unfold started. cbn [ui_step]. rewrite Hshown. reflexivity. }
  set (st1 := step (EvConnect API_KEY) st) in *.
  assert (Hsame1 : awaits_close (hook st1) = awaits_close (hook st)).
  { rewrite Hh1. reflexivity. }
  destruct (user_media_turn_fails st1 a _ o err Ha1 eq_refl Hfail)
    as (st' & Hawait & Hturn & Hdone).
  pose proof (connect_catch_turn_spec err st') as Hspec. cbv zeta in Hspec.
  destruct Hspec as (He & _ & _ & _ & _ & Hsame & Hend).
  assert (Hmid : mid = mkApp true (connect_catch_turn err st').1).
  { unfold mid. rewrite Hstarted. cbn [hasStarted assistant]. rewrite Hturn. reflexivity. }
  assert (Hdone' : done = mkApp true (connect_catch err st').1).
  { unfold done. rewrite Hstarted. cbn [ui_step hasStarted assistant].
    unfold step. rewrite Hdone. reflexivity. }
  assert (Hfinal : connectionState (hook (connect_catch err st').1) = DISCONNECTED).
  { unfold connect_catch. crunch.
    match goal with |- context [disconnect ?s] =>
      destruct (disconnect_spec s) as (w' & E & _) end.
    rewrite E. reflexivity. }
  rewrite Hmid, Hdone'. cbn [assistant hasStarted].
  unfold error_overlay_shown, start_button_shown. cbn [assistant hasStarted].
  rewrite Hsame, Hawait, He, Hfinal.
  split; [cbn; apply connect_error_message_truthy|].
  split; [|split; [|split; [|split; reflexivity]]].
  - rewrite Hsame1. destruct o as [stream fault|stream point e|e].
    + split; [intros H; right; exact H|].
      intros [(x & y & z & Heq)|H]; [discriminate Heq | exact H].
    + split; [intros _; left; exists stream, point, e; reflexivity|].
      intros _. reflexivity.
    + split; [intros H; right; exact H|].
      intros [(x & y & z & Heq)|H]; [discriminate Heq | exact H].
  - intros Htrue. rewrite Hawait, Htrue in Hend. destruct Hend as [Hcs Hrest].
    rewrite Hcs, Hrest. repeat split.
  - intros Hfalse. rewrite Hawait, Hfalse in Hend. destruct Hend as [_ Heq].
    rewrite Heq. reflexivity.
Qed.

End Handlers.

(** ** The hook at work

    The theorems above applied to concrete runs, with the toy codec. *)


(** Two chunks of 0.5 s and 0.3 s arriving at 0.25 s and 0.5 s: the second
    starts where the first ends, at 0.75 s, and the cursor ends at 1.05 s. *)
Example back_to_back_chunks :
  let st := run sample_createPcmBlob sample_decodeAudioData
              (sample_connect ++ message_events sample_chunks) initial in
  ∃ first second t1 t2,
    nodes (world st) !! 4 = Some first ∧ node_start first = Some t1 ∧
    nodes (world st) !! 5 = Some second ∧ node_start second = Some t2 ∧
    (t1 == 1#4)%Q ∧ (t2 == t1 + duration (node_buffer first))%Q ∧ (t2 == 3#4)%Q ∧
    (nextStartTimeRef (hook st) == 21#20)%Q ∧ audioSourcesRef (hook st) = [4; 5].
Proof.
  vm_compute. do 4 eexists.
  repeat split; try reflexivity; intros; discriminate.
Qed.



(** Three units are playing when the interruption arrives: all three are
    stopped and the set is empty. *)
Example barge_in_stops_three_units :
  let pre := run sample_createPcmBlob sample_decodeAudioData sample_playing initial in
  let post := step sample_createPcmBlob sample_decodeAudioData (EvMessage barge_in 1) pre in
  audioSourcesRef (hook pre) = [4; 5; 6] ∧
  stopped_in (nodes (world pre)) <$> [4; 5; 6] = [false; false; false] ∧
  stopped_in (nodes (world post)) <$> [4; 5; 6] = [true; true; true] ∧
  audioSourcesRef (hook post) = [] ∧ nextStartTimeRef (hook post) = 0%Q.
Proof. vm_compute. repeat split; reflexivity. Qed.



(** The frame captured after the acknowledgment is sent; the one captured
    after teardown is not. *)
Example frames_before_and_after_teardown :
  let evs := sample_connect ++ [EvAudioProcess 3 [] false; EvDisconnect;
                                EvAudioProcess 3 [] false] in
  sent_frames (world (run sample_createPcmBlob sample_decodeAudioData (take 3 evs) initial)) = [] ∧
  sent_frames (world (run sample_createPcmBlob sample_decodeAudioData (take 4 evs) initial))
  = [(7, sample_createPcmBlob [])] ∧
  sent_frames (world (run sample_createPcmBlob sample_decodeAudioData evs initial))
  = [(7, sample_createPcmBlob [])].
Proof. vm_compute. repeat split; reflexivity. Qed.

Lemma disconnect_never_raises_and_is_idempotent_witness :
  let first := disconnect wrecked in
  let second := disconnect first.1 in
  first.2 = Ok tt ∧ cleared (hook first.1) ∧
  second.2 = Ok tt ∧ cleared (hook second.1) ∧
  (∀ s, currentSessionRef (hook wrecked) = Some s → close_throws s = false →
        SessionClosed (session_id s) ∈ effects (world first.1)) ∧
  (∀ id, id ∈ audioSourcesRef (hook wrecked) →
         started_in (nodes (world wrecked)) id = true →
         stopped_in (nodes (world first.1)) id = true) ∧
  (∀ ms, mediaStreamRef (hook wrecked) = Some ms →
         TracksStopped ms ∈ effects (world first.1)) ∧
  (∀ c, inputAudioContextRef (hook wrecked) = Some c ∨
        outputAudioContextRef (hook wrecked) = Some c →
        c ∈ closedContexts (world first.1)).
Proof. apply (disconnect_never_raises_and_is_idempotent wrecked). Defined.

(** In the wrecked state the session close throws, one source cannot be
    stopped and one context is already closed; the rest is cleaned up all
    the same. *)
Example teardown_of_wrecked_state :
  let after := (disconnect wrecked).1 in
  effects (world after)
  = [Console Warn "Error closing session:"; TracksStopped 5; StateSet DISCONNECTED] ∧
  stopped_in (nodes (world after)) 0 = true ∧
  hook after = torn_down (hook wrecked) ∧
  bool_decide (2 ∈ closedContexts (world after)) = true.
Proof. vm_compute. repeat split; reflexivity. Qed.

(** C6, counterexample.  Without credentials [connect] stores its message
    and returns: ConnectionState stays DISCONNECTED and is never set to
    ERROR. *)
Lemma missing_credentials_do_not_set_error :
  let after := step sample_createPcmBlob sample_decodeAudioData (EvConnect None) initial in
  error (hook after) = Some "API Key not found in environment variables." ∧
  connectionState (hook after) = DISCONNECTED ∧
  connectionState (hook after) ≠ ERROR ∧
  transitions (world after) = [].
Proof. vm_compute. repeat split; try reflexivity. discriminate. Qed.

Lemma connect_failures_are_reported_witness :
  let st := step sample_createPcmBlob sample_decodeAudioData (EvConnect (Some "key")) initial in
  attempts (world st) !! 0 = Some {| att_rendered := DISCONNECTED; att_stage := Acquiring |} ∧
  setup_failure (Rejected permission_denied) = Some permission_denied ∧
  let after := step sample_createPcmBlob sample_decodeAudioData
                 (EvUserMedia 0 (Rejected permission_denied)) st in
  (handler sample_createPcmBlob sample_decodeAudioData
     (EvUserMedia 0 (Rejected permission_denied)) st).2 = Ok tt ∧
  error (hook after) = Some (connect_error_message permission_denied) ∧
  transitions (world after) = transitions (world st) ++ [ERROR; DISCONNECTED].
Proof.
  cbv zeta. split; [reflexivity|]. split; [reflexivity|].
  apply (proj1 (proj2 (connect_failures_are_reported
                         sample_createPcmBlob sample_decodeAudioData))
           _ 0 {| att_rendered := DISCONNECTED; att_stage := Acquiring |});
    reflexivity.
Defined.

(** A denied microphone: the message, and the states the hook went through. *)
Example microphone_permission_denied :
  let after := run sample_createPcmBlob sample_decodeAudioData
                 [EvConnect (Some "key"); EvUserMedia 0 (Rejected permission_denied)]
                 initial in
  error (hook after)
  = Some "Microphone access denied. Please allow microphone permissions in your browser." ∧
  transitions (world after) = [CONNECTING; ERROR; DISCONNECTED].
Proof. vm_compute. split; reflexivity. Qed.

(** C7, at the failing input.  [connect] is invoked from the render that
    shows DISCONNECTED, the microphone is granted and the session opens;
    then the transport reports close.  The handler compares the captured
    DISCONNECTED with CONNECTED and does nothing: the state stays
    CONNECTED and every handle stays in place. *)
Theorem remote_close_leaves_state_connected :
  let st := run sample_createPcmBlob sample_decodeAudioData sample_connect initial in
  let after := run sample_createPcmBlob sample_decodeAudioData remote_close initial in
  connectionState (hook st) = CONNECTED ∧
  connectionState (hook after) = CONNECTED ∧
  connectionState (hook after) ≠ DISCONNECTED ∧
  hook after = hook st ∧
  currentSessionRef (hook after) = Some sample_session ∧
  transitions (world after) = [CONNECTING; CONNECTED].
Proof. vm_compute. repeat split; try reflexivity. discriminate. Qed.

(** C8, counterexample.  Teardown completes while the session is opening;
    the acknowledgment that arrives afterwards puts the session into the
    session handle, which teardown had nulled. *)
Lemma late_open_repopulates_session_handle :
  let down := run sample_createPcmBlob sample_decodeAudioData (take 3 late_open) initial in
  let late := run sample_createPcmBlob sample_decodeAudioData late_open initial in
  currentSessionRef (hook down) = None ∧ sessionPromiseRef (hook down) = None ∧
  currentSessionRef (hook late) = Some sample_session ∧
  currentSessionRef (hook late) ≠ None.
Proof. vm_compute. repeat split; try reflexivity. discriminate. Qed.

Lemma teardown_then_late_open_witness :
  let st := run sample_createPcmBlob sample_decodeAudioData (take 2 late_open) initial in
  attempts (world st) !! 0 = Some {| att_rendered := DISCONNECTED; att_stage := Opening 3 [] |} ∧
  att_stage {| att_rendered := DISCONNECTED; att_stage := Opening 3 [] |} = Opening 3 [] ∧
  let down := step sample_createPcmBlob sample_decodeAudioData EvDisconnect st in
  let late := step sample_createPcmBlob sample_decodeAudioData (EvOpen 0 sample_session) down in
  currentSessionRef (hook down) = None ∧ sessionPromiseRef (hook down) = None ∧
  connectionState (hook down) = DISCONNECTED ∧
  sessionPromiseRef (hook late) = None ∧
  currentSessionRef (hook late) = Some sample_session ∧
  connectionState (hook late) = CONNECTED.
Proof.
  cbv zeta. split; [reflexivity|]. split; [reflexivity|].
  apply (teardown_then_late_open sample_createPcmBlob sample_decodeAudioData
           _ 0 {| att_rendered := DISCONNECTED; att_stage := Opening 3 [] |} 3 []);
    reflexivity.
Defined.

(** When teardown comes even earlier, while the microphone request is
    pending, the rest of [connect] runs after it and fills the stream, the
    contexts and the session promise again, in state DISCONNECTED. *)
Example late_grant_repopulates_refs :
  let after := run sample_createPcmBlob sample_decodeAudioData late_grant initial in
  connectionState (hook after) = DISCONNECTED ∧
  mediaStreamRef (hook after) = Some 5 ∧
  inputAudioContextRef (hook after) = Some 1 ∧
  outputAudioContextRef (hook after) = Some 2 ∧
  sessionPromiseRef (hook after) = Some 0.
Proof. vm_compute. repeat split; reflexivity. Qed.

Lemma failed_send_is_contained_witness :
  let st := run sample_createPcmBlob sample_decodeAudioData sample_connect initial in
  gain_is_zero (inputGainRef (hook st)) = false ∧
  sessionPromiseRef (hook st) = Some 0 ∧
  attempts (world st) !! 0
  = Some {| att_rendered := DISCONNECTED; att_stage := Opened 3 sample_session |} ∧
  (onaudioprocess sample_createPcmBlob [] true st).1
  = mkSt (hook st)
      (with_effects (effects (world st) ++ [Console Error "Error sending input:"])
         (world st)).
Proof.
  cbv zeta. split; [reflexivity|]. split; [reflexivity|]. split; [reflexivity|].
  apply (proj2 (proj2 (failed_send_is_contained sample_createPcmBlob
                         (run sample_createPcmBlob sample_decodeAudioData
                            sample_connect initial) []))
           0 {| att_rendered := DISCONNECTED; att_stage := Opened 3 sample_session |}
           3 sample_session);
    reflexivity.
Defined.

(** C10, at the failing input.  After a session and its teardown the
    contexts and the stream are released and the state is DISCONNECTED,
    but the gain node's ref is still set: toggleMute engages mute and
    writes the released node's gain.  The same happens when the toggle
    comes while the next connect is still waiting for the microphone. *)
Theorem toggleMute_after_teardown_engages_mute :
  let down := run sample_createPcmBlob sample_decodeAudioData
                (take 4 toggle_after_teardown) initial in
  let after := run sample_createPcmBlob sample_decodeAudioData
                 toggle_after_teardown initial in
  let waiting := run sample_createPcmBlob sample_decodeAudioData
                   (take 6 reconnect_muted) initial in
  connectionState (hook down) = DISCONNECTED ∧
  inputAudioContextRef (hook down) = None ∧ mediaStreamRef (hook down) = None ∧
  isMuted (hook down) = false ∧
  inputGainRef (hook down) = Some {| gain_ctx := 1; gain_value := 1 |} ∧
  isMuted (hook after) = true ∧
  inputGainRef (hook after) = Some {| gain_ctx := 1; gain_value := 0 |} ∧
  after ≠ down ∧
  connectionState (hook waiting) = CONNECTING ∧
  inputAudioContextRef (hook waiting) = None ∧
  isMuted (hook waiting) = true.
Proof. vm_compute. repeat split; try reflexivity. discriminate. Qed.

(** C3, at the failing input.  Mute is toggled while a second connect
    waits for the microphone: MuteState becomes true on the gain node of
    the session torn down before.  The second session gets a fresh gain
    node at 1, so a captured frame is transmitted while MuteState is true;
    and two toggles from there end with the gain at 0, not at the 1 it had
    before, so frames are no longer transmitted. *)
Theorem muted_hook_transmits_after_reconnect :
  let st := run sample_createPcmBlob sample_decodeAudioData reconnect_muted initial in
  let frame := EvAudioProcess 7 [] false in
  let back := run sample_createPcmBlob sample_decodeAudioData
                [EvToggleMute; EvToggleMute] st in
  isMuted (hook st) = true ∧ connectionState (hook st) = CONNECTED ∧
  inputGainRef (hook st) = Some {| gain_ctx := 5; gain_value := 1 |} ∧
  sent_frames (world (step sample_createPcmBlob sample_decodeAudioData frame st))
  = sent_frames (world st) ++ [(8, sample_createPcmBlob [])] ∧
  isMuted (hook back) = true ∧
  inputGainRef (hook back) = Some {| gain_ctx := 5; gain_value := 0 |} ∧
  sent_frames (world (step sample_createPcmBlob sample_decodeAudioData frame back))
  = sent_frames (world back).
Proof. vm_compute. repeat split; reflexivity. Qed.

(** ** The further properties at work *)

Lemma active_units_never_overlap_witness :
  let st := run sample_createPcmBlob sample_decodeAudioData sample_playing initial in
  ∃ na nb ta tb,
    (0 < 1)%nat ∧
    audioSourcesRef (hook st) !! 0 = Some 4 ∧
    audioSourcesRef (hook st) !! 1 = Some 5 ∧
    nodes (world st) !! 4 = Some na ∧ node_start na = Some ta ∧
    nodes (world st) !! 5 = Some nb ∧ node_start nb = Some tb ∧
    (ta + duration (node_buffer na) <= tb)%Q ∧
    (tb + duration (node_buffer nb) <= nextStartTimeRef (hook st))%Q.
Proof.
  cbv zeta. do 4 eexists.
  split; [lia|]. do 6 (split; [vm_compute; reflexivity|]).
  apply (active_units_never_overlap sample_createPcmBlob sample_decodeAudioData
           sample_playing 0 1 4 5); [lia | vm_compute; reflexivity ..].
Defined.

Lemma start_times_are_never_negative_witness :
  let st := run sample_createPcmBlob sample_decodeAudioData sample_playing initial in
  ∃ n t,
    nodes (world st) !! 5 = Some n ∧ node_start n = Some t ∧
    (0 <= t)%Q ∧ (0 <= nextStartTimeRef (hook st))%Q.
Proof.
  cbv zeta. do 2 eexists.
  do 2 (split; [vm_compute; reflexivity|]).
  eapply (start_times_are_never_negative sample_createPcmBlob sample_decodeAudioData
            sample_playing 5); vm_compute; reflexivity.
Defined.

Lemma ended_undoes_schedule_witness :
  let pre := run sample_createPcmBlob sample_decodeAudioData sample_playing initial in
  let mid := step sample_createPcmBlob sample_decodeAudioData (EvMessage chunk_a 2) pre in
  let post := step sample_createPcmBlob sample_decodeAudioData (EvEnded 7) mid in
  is_Some (outputAudioContextRef (hook pre)) ∧
  playable sample_decodeAudioData chunk_a sample_buffer ∧
  interrupted chunk_a = false ∧
  nextId (world pre) = 7 ∧
  7 ∈ audioSourcesRef (hook mid) ∧
  audioSourcesRef (hook post) = audioSourcesRef (hook pre).
Proof.
  cbv zeta.
  assert (Hctx : is_Some (outputAudioContextRef
            (hook (run sample_createPcmBlob sample_decodeAudioData sample_playing initial))))
    by (vm_compute; eauto).
  assert (Hbuf : playable sample_decodeAudioData chunk_a sample_buffer)
    by (eexists; repeat split; reflexivity).
  split; [exact Hctx|]. split; [exact Hbuf|]. split; [reflexivity|].
  split; [vm_compute; reflexivity|].
  apply (proj2 (ended_undoes_schedule sample_createPcmBlob sample_decodeAudioData
                  sample_playing chunk_a 2 sample_buffer));
    [exact Hctx | exact Hbuf | reflexivity].
Defined.

Lemma only_messages_schedule_witness :
  let st := run sample_createPcmBlob sample_decodeAudioData sample_playing initial in
  let evs := [EvEnded 4; EvAudioProcess 3 [] false; EvDisconnect;
              EvConnect (Some "key"); EvUserMedia 7 (Granted 6 None);
              EvOpen 7 second_session] in
  let st' := run sample_createPcmBlob sample_decodeAudioData evs st in
  Forall (λ ev, ¬ is_message ev) evs ∧
  nextStartTimeRef (hook st') = nextStartTimeRef (hook st) ∧
  audioSourcesRef (hook st') ⊆ audioSourcesRef (hook st).
Proof.
  cbv zeta.
  assert (Hall : Forall (λ ev, ¬ is_message ev)
            [EvEnded 4; EvAudioProcess 3 [] false; EvDisconnect;
             EvConnect (Some "key"); EvUserMedia 7 (Granted 6 None);
             EvOpen 7 second_session])
    by (repeat constructor; intros H; exact H).
  split; [exact Hall|].
  destruct (only_messages_schedule sample_createPcmBlob sample_decodeAudioData _
              (run sample_createPcmBlob sample_decodeAudioData sample_playing initial) Hall)
    as (Hq & Hl & _).
  split; [exact Hq | exact Hl].
Defined.

Lemma onerror_reports_and_tears_down_witness :
  let e := {| err_name := "Error"; err_message := "NETWORK down" |} in
  let after := step sample_createPcmBlob sample_decodeAudioData
                 (EvError e "network down")
                 (run sample_createPcmBlob sample_decodeAudioData sample_connect initial) in
  ascii_only "NETWORK down" = true ∧
  "network down"%string = ascii_lower "NETWORK down" ∧
  (includes "network down" "network" = true ↔
   ∃ pre w post, "NETWORK down"%string = (pre ++ w ++ post)%string ∧
                 ascii_lower w = "network"%string) ∧
  cleared (hook after).
Proof.
  cbv zeta.
  destruct (onerror_reports_and_tears_down sample_createPcmBlob sample_decodeAudioData
              {| err_name := "Error"; err_message := "NETWORK down" |} "network down"
              (run sample_createPcmBlob sample_decodeAudioData sample_connect initial))
    as (_ & _ & Hcleared & _ & _ & Hascii).
  split; [reflexivity|]. split; [reflexivity|].
  split; [exact (Hascii eq_refl eq_refl) | exact Hcleared].
Defined.

(** A session error that speaks of the NETWORK is reported with the
    network message; any other text is passed on behind the prefix. *)
Example session_error_messages :
  let st := run sample_createPcmBlob sample_decodeAudioData sample_connect initial in
  error (hook (step sample_createPcmBlob sample_decodeAudioData
                 (EvError {| err_name := "Error"; err_message := "NETWORK down" |}
                          "network down") st))
  = Some "Network Error: Could not connect to Gemini Live. Check your API Key and internet connection."%string ∧
  error (hook (step sample_createPcmBlob sample_decodeAudioData
                 (EvError {| err_name := "Error"; err_message := "quota" |} "quota") st))
  = Some "Session Error: quota"%string ∧
  error (hook (step sample_createPcmBlob sample_decodeAudioData
                 (EvError {| err_name := "Error"; err_message := "" |} "connection error") st))
  = Some "Session Error: Connection error"%string.
Proof. vm_compute. repeat split; reflexivity. Qed.

Lemma error_state_rests_while_contexts_close_witness :
  let st := run sample_createPcmBlob sample_decodeAudioData [EvConnect (Some "key")] initial in
  let o := Faulted 5 InClient permission_denied in
  let mid := (user_media_turn 0 o st).1 in
  let done := step sample_createPcmBlob sample_decodeAudioData (EvUserMedia 0 o) st in
  attempts (world st) !! 0
  = Some {| att_rendered := DISCONNECTED; att_stage := Acquiring |} ∧
  setup_failure o = Some permission_denied ∧
  awaits_close (hook mid) = true ∧
  connectionState (hook mid) = ERROR ∧
  (disconnect_rest mid).1 = done ∧
  connectionState (hook done) = DISCONNECTED.
Proof.
  cbv zeta.
  destruct (error_state_rests_while_contexts_close
              sample_createPcmBlob sample_decodeAudioData
              (run sample_createPcmBlob sample_decodeAudioData [EvConnect (Some "key")] initial)
              0 {| att_rendered := DISCONNECTED; att_stage := Acquiring |}
              (Faulted 5 InClient permission_denied) permission_denied)
    as (_ & _ & _ & _ & _ & _ & Hsusp & _ & Hdone);
    [vm_compute; reflexivity | reflexivity | reflexivity |].
  split; [vm_compute; reflexivity|]. split; [reflexivity|].
  assert (Hawait : awaits_close (hook (user_media_turn 0 (Faulted 5 InClient permission_denied)
            (run sample_createPcmBlob sample_decodeAudioData
               [EvConnect (Some "key")] initial)).1) = true)
    by (vm_compute; reflexivity).
  split; [exact Hawait|]. destruct (Hsusp Hawait) as [Hcs Hrest].
  split; [exact Hcs|]. split; [exact Hrest | exact Hdone].
Defined.

(** A refused microphone on the first attempt finds no context to close:
    the catch turn itself ends in DISCONNECTED.  A throw after the graph
    was built leaves ERROR until the closes settle, with both contexts
    still in the refs and the fresh gain node in place. *)
Example refused_and_late_failures :
  let st := run sample_createPcmBlob sample_decodeAudioData [EvConnect (Some "key")] initial in
  let refused := (user_media_turn 0 (Rejected permission_denied) st).1 in
  let late := (user_media_turn 0 (Faulted 5 InClient permission_denied) st).1 in
  connectionState (hook refused) = DISCONNECTED ∧
  connectionState (hook late) = ERROR ∧
  inputAudioContextRef (hook late) = Some 1 ∧
  outputAudioContextRef (hook late) = Some 2 ∧
  inputGainRef (hook late) = Some {| gain_ctx := 1; gain_value := 1 |} ∧
  mediaStreamRef (hook late) = None.
Proof. vm_compute. repeat split; reflexivity. Qed.

Lemma status_after_failed_start_witness :
  let o := Faulted 5 InGraph permission_denied in
  let started := ui_step sample_createPcmBlob sample_decodeAudioData
                   (ClickStart (Some "key")) initial_app in
  let mid := mkApp (hasStarted started) (user_media_turn 0 o (assistant started)).1 in
  let done := ui_step sample_createPcmBlob sample_decodeAudioData
                (Outside (EvUserMedia 0 o)) started in
  start_button_shown initial_app = true ∧
  truthy_opt (Some "key"%string) = true ∧
  setup_failure o = Some permission_denied ∧
  awaits_close (hook (assistant mid)) = true ∧
  error_overlay_shown mid = true ∧
  getStatusText (connectionState (hook (assistant mid))) = "Connection Failed"%string ∧
  start_button_shown mid = false ∧
  mkApp (hasStarted mid) (disconnect_rest (assistant mid)).1 = done ∧
  start_button_shown done = true.
Proof.
  cbv zeta.
  destruct (status_after_failed_start sample_createPcmBlob sample_decodeAudioData
              initial_app (Some "key"%string) (Faulted 5 InGraph permission_denied)
              permission_denied eq_refl eq_refl eq_refl)
    as (Hoverlay & _ & Hsusp & _ & Hshown & _).
  do 3 (split; [reflexivity|]).
  assert (Hawait : awaits_close (hook (user_media_turn 0 (Faulted 5 InGraph permission_denied)
            (assistant (ui_step sample_createPcmBlob sample_decodeAudioData
                          (ClickStart (Some "key")) initial_app))).1) = true)
    by (vm_compute; reflexivity).
  split; [exact Hawait|]. split; [exact Hoverlay|].
  destruct (Hsusp Hawait) as (Htext & _ & Hbutton & Hrest).
  split; [exact Htext|]. split; [exact Hbutton|]. split; [exact Hrest | exact Hshown].
Defined.

Lemma stored_error_is_never_empty_witness :
  let st := run sample_createPcmBlob sample_decodeAudioData [EvConnect None] initial in
  error (hook st) = Some "API Key not found in environment variables."%string ∧
  truthy_opt (error (hook st)) = true ∧
  "API Key not found in environment variables."%string ≠ ""%string.
Proof.
  cbv zeta. split; [reflexivity|].
  apply (stored_error_is_never_empty sample_createPcmBlob sample_decodeAudioData
           [EvConnect None]). reflexivity.
Defined.

Lemma toggle_before_first_graph_is_noop_witness :
  let st := run sample_createPcmBlob sample_decodeAudioData [EvConnect (Some "key")] initial in
  inputGainRef (hook st) = None ∧
  isMuted (hook st) = false ∧
  step sample_createPcmBlob sample_decodeAudioData EvToggleMute st = st.
Proof.
  cbv zeta. split; [reflexivity|].
  apply (toggle_before_first_graph_is_noop sample_createPcmBlob sample_decodeAudioData
           [EvConnect (Some "key")]). reflexivity.
Defined.

Lemma open_session_streams_every_frame_witness :
  let st := run sample_createPcmBlob sample_decodeAudioData sample_connect initial in
  let st' := run sample_createPcmBlob sample_decodeAudioData
               (capture_events sample_frames) st in
  sessionPromiseRef (hook st) = Some 0 ∧
  attempts (world st) !! 0
  = Some {| att_rendered := DISCONNECTED; att_stage := Opened 3 sample_session |} ∧
  gain_is_zero (inputGainRef (hook st)) = false ∧
  hook st' = hook st ∧
  sent_frames (world st')
  = sent_frames (world st)
    ++ delivered sample_session (captured sample_createPcmBlob (handlers (world st)) sample_frames).
Proof.
  cbv zeta. do 3 (split; [vm_compute; reflexivity|]).
  apply (open_session_streams_every_frame sample_createPcmBlob sample_decodeAudioData
           _ 0 {| att_rendered := DISCONNECTED; att_stage := Opened 3 sample_session |}
           3 sample_session sample_frames); vm_compute; reflexivity.
Defined.

(** Of the four sample frames the first and the last reach the transport. *)
Example two_of_four_frames_are_sent :
  let st := run sample_createPcmBlob sample_decodeAudioData sample_connect initial in
  delivered sample_session (captured sample_createPcmBlob (handlers (world st)) sample_frames)
  = [(7, sample_createPcmBlob [1 # 2]); (7, sample_createPcmBlob [0 # 1])].
Proof. vm_compute. reflexivity. Qed.

Lemma frames_wait_for_pending_session_witness :
  let st := run sample_createPcmBlob sample_decodeAudioData second_connect_pending initial in
  let st' := run sample_createPcmBlob sample_decodeAudioData
               (capture_events sample_frames) st in
  let opened := step sample_createPcmBlob sample_decodeAudioData (EvOpen 4 second_session) st' in
  sessionPromiseRef (hook st) = Some 4 ∧
  attempts (world st) !! 4
  = Some {| att_rendered := CONNECTED; att_stage := Opening 7 [] |} ∧
  gain_is_zero (inputGainRef (hook st)) = false ∧
  hook st' = hook st ∧
  sent_frames (world st') = sent_frames (world st) ∧
  sent_frames (world opened)
  = sent_frames (world st)
    ++ delivered second_session
         ([] ++ captured sample_createPcmBlob (handlers (world st)) sample_frames) ∧
  connectionState (hook opened) = CONNECTED ∧
  currentSessionRef (hook opened) = Some second_session.
Proof.
  cbv zeta. do 3 (split; [vm_compute; reflexivity|]).
  apply (frames_wait_for_pending_session sample_createPcmBlob sample_decodeAudioData
           _ 4 {| att_rendered := CONNECTED; att_stage := Opening 7 [] |}
           7 [] sample_frames second_session); vm_compute; reflexivity.
Defined.

(** The frames captured by the first session's processor while the second
    session was opening go to the second session. *)
Example queued_frames_go_to_the_new_session :
  let st := run sample_createPcmBlob sample_decodeAudioData
              (second_connect_pending ++ capture_events sample_frames
               ++ [EvOpen 4 second_session]) initial in
  sent_frames (world st)
  = [(8, sample_createPcmBlob [1 # 2]); (8, sample_createPcmBlob [0 # 1])].
Proof. vm_compute. reflexivity. Qed.

Lemma mute_holds_within_a_session_witness :
  let st0 := run sample_createPcmBlob sample_decodeAudioData [EvConnect (Some "key")] initial in
  let st := run sample_createPcmBlob sample_decodeAudioData sample_connect initial in
  let evs := [EvToggleMute; EvAudioProcess 3 [1 # 2] false; EvToggleMute;
              EvAudioProcess 3 [1 # 2] false] in
  let muted := run sample_createPcmBlob sample_decodeAudioData (take 1 evs) st in
  (attempts (world st0) !! 0
   = Some {| att_rendered := DISCONNECTED; att_stage := Acquiring |} ∧
   isMuted (hook st0) = false ∧
   mute_in_sync (hook (step sample_createPcmBlob sample_decodeAudioData
                         (EvUserMedia 0 (Granted 5 None)) st0))) ∧
  mute_in_sync (hook st) ∧ Forall keeps_capture_graph evs ∧
  evs !! 1 = Some (EvAudioProcess 3 [1 # 2] false) ∧
  isMuted (hook muted) = true ∧
  mute_in_sync (hook (run sample_createPcmBlob sample_decodeAudioData evs st)) ∧
  step sample_createPcmBlob sample_decodeAudioData (EvAudioProcess 3 [1 # 2] false) muted
  = muted.
Proof.
  cbv zeta.
  pose proof (mute_holds_within_a_session sample_createPcmBlob sample_decodeAudioData)
    as [Hgrant Hsession].
  assert (Hsync : mute_in_sync
            (hook (run sample_createPcmBlob sample_decodeAudioData sample_connect initial)))
    by (eexists; split; vm_compute; reflexivity).
  assert (Hall : Forall keeps_capture_graph
            [EvToggleMute; EvAudioProcess 3 [1 # 2] false; EvToggleMute;
             EvAudioProcess 3 [1 # 2] false])
    by (repeat constructor).
  split.
  { split; [vm_compute; reflexivity|]. split; [reflexivity|].
    apply (Hgrant _ 0 {| att_rendered := DISCONNECTED; att_stage := Acquiring |} 5);
      vm_compute; reflexivity. }
  split; [exact Hsync|]. split; [exact Hall|]. split; [reflexivity|].
  split; [vm_compute; reflexivity|].
  destruct (Hsession _ _ Hsync Hall) as [Hend Hframe].
  split; [exact Hend|].
  apply (Hframe 1 3 [1 # 2] false); vm_compute; reflexivity.
Defined.

Lemma undecodable_chunk_skips_interruption_witness :
  let st := run sample_createPcmBlob sample_decodeAudioData sample_playing initial in
  let e := {| err_name := "RangeError"; err_message := "byte length" |} in
  is_Some (outputAudioContextRef (hook st)) ∧
  inlineData undecodable = Some "AAA"%string ∧ truthy "AAA" = true ∧
  sample_decodeAudioData "AAA" = Throw e ∧
  interrupted undecodable = true ∧
  handler sample_createPcmBlob sample_decodeAudioData (EvMessage undecodable 2) st
  = (mkSt (with_nextStartTimeRef (Qmax (nextStartTimeRef (hook st)) 2) (hook st)) (world st),
     Throw e) ∧
  audioSourcesRef (hook (step sample_createPcmBlob sample_decodeAudioData
                           (EvMessage undecodable 2) st))
  = audioSourcesRef (hook st) ∧
  nodes (world (step sample_createPcmBlob sample_decodeAudioData (EvMessage undecodable 2) st))
  = nodes (world st).
Proof.
  cbv zeta. split; [vm_compute; eauto|]. do 4 (split; [reflexivity|]).
  apply (undecodable_chunk_skips_interruption sample_createPcmBlob sample_decodeAudioData
           undecodable 2 _ "AAA"); [vm_compute; eauto | reflexivity ..].
Defined.

Lemma messages_without_playable_audio_change_nothing_witness :
  let st := run sample_createPcmBlob sample_decodeAudioData sample_playing initial in
  let evs := [EvConnect (Some "key"); EvMessage chunk_b 1; EvMessage barge_in 2;
              EvAudioProcess 3 [] false] in
  let td := step sample_createPcmBlob sample_decodeAudioData EvDisconnect st in
  let later := run sample_createPcmBlob sample_decodeAudioData evs td in
  interrupted chunk_a = false ∧
  Forall (λ ev, ¬ builds_graph ev) evs ∧
  outputAudioContextRef (hook later) = None ∧
  handler sample_createPcmBlob sample_decodeAudioData (EvMessage chunk_a 3) later
  = (later, Ok tt) ∧
  ∀ x n, nodes (world later) !! x = Some n →
    ∃ n0, nodes (world td) !! x = Some n0 ∧ node_start n = node_start n0.
Proof.
  cbv zeta.
  assert (Hall : Forall (λ ev, ¬ builds_graph ev)
            [EvConnect (Some "key"); EvMessage chunk_b 1; EvMessage barge_in 2;
             EvAudioProcess 3 [] false])
    by (repeat constructor; intros H; exact H).
  split; [reflexivity|]. split; [exact Hall|].
  exact (proj2 (messages_without_playable_audio_change_nothing
                  sample_createPcmBlob sample_decodeAudioData chunk_a 3
                  (run sample_createPcmBlob sample_decodeAudioData sample_playing initial)
                  eq_refl) _ Hall).
Defined.

Lemma teardown_does_not_cancel_pending_connect_witness :
  let st1 := run sample_createPcmBlob sample_decodeAudioData late_grant initial in
  let st2 := step sample_createPcmBlob sample_decodeAudioData (EvOpen 0 sample_session) st1 in
  let st3 := step sample_createPcmBlob sample_decodeAudioData
               (EvAudioProcess 3 [1 # 2] false) st2 in
  truthy_opt (Some "key"%string) = true ∧
  connectionState (hook st1) = DISCONNECTED ∧
  mediaStreamRef (hook st1) = Some 5 ∧
  sessionPromiseRef (hook st1) = Some 0 ∧
  connectionState (hook st2) = CONNECTED ∧
  currentSessionRef (hook st2) = Some sample_session ∧
  sent_frames (world st3) = [(7, sample_createPcmBlob [1 # 2])].
Proof.
  cbv zeta. split; [reflexivity|].
  destruct (teardown_does_not_cancel_pending_connect
              sample_createPcmBlob sample_decodeAudioData
              initial (Some "key"%string) 5 sample_session [1 # 2] eq_refl)
    as (H1 & H2 & _ & _ & H5 & H6 & H7 & H8).
  repeat split; assumption.
Defined.

Lemma stop_during_prompt_leaves_session_running_witness :
  let capture := Outside (EvAudioProcess 3 [1 # 2] false) in
  let app1 := ui_run sample_createPcmBlob sample_decodeAudioData
                [ClickStart (Some "key"); ClickStop;
                 Outside (EvUserMedia 0 (Granted 5 None));
                 Outside (EvOpen 0 sample_session)] initial_app in
  let app2 := ui_step sample_createPcmBlob sample_decodeAudioData
                (ClickStart (Some "key")) app1 in
  truthy_opt (Some "key"%string) = true ∧
  start_button_shown initial_app = true ∧
  connectionState (hook (assistant app1)) = CONNECTED ∧
  hasStarted app1 = false ∧ start_button_shown app1 = true ∧
  ui_step sample_createPcmBlob sample_decodeAudioData ClickStop app1 = app1 ∧
  sent_frames (world (assistant (ui_step sample_createPcmBlob sample_decodeAudioData
                                   capture app1)))
  = [(7, sample_createPcmBlob [1 # 2])] ∧
  connectionState (hook (assistant app2)) = CONNECTING ∧
  sent_frames (world (assistant (ui_step sample_createPcmBlob sample_decodeAudioData
                                   capture app2)))
  = [(7, sample_createPcmBlob [1 # 2])].
Proof.
  cbv zeta. split; [reflexivity|]. split; [reflexivity|].
  destruct (stop_during_prompt_leaves_session_running
              sample_createPcmBlob sample_decodeAudioData
              initial_app (Some "key"%string) 5 sample_session [1 # 2] eq_refl eq_refl)
    as (H1 & _ & H3 & H4 & H5 & _ & H7 & H8 & _ & H10).
  repeat split; assumption.
Defined.

Lemma failed_start_returns_to_start_screen_witness :
  let denied := ui_run sample_createPcmBlob sample_decodeAudioData
                  [ClickStart (Some "key"); Outside (EvUserMedia 0 (Rejected permission_denied))]
                  initial_app in
  let keyless := ui_step sample_createPcmBlob sample_decodeAudioData
                   (ClickStart None) initial_app in
  start_button_shown initial_app = true ∧
  setup_failure (Rejected permission_denied) = Some permission_denied ∧
  (start_button_shown denied = true ∧ error_overlay_shown denied = true ∧
   getStatusText (connectionState (hook (assistant denied))) = "Ready to Connect"%string) ∧
  (start_button_shown keyless = true ∧ error_overlay_shown keyless = true).
Proof.
  cbv zeta. split; [reflexivity|]. split; [reflexivity|]. split.
  - destruct (proj1 (failed_start_returns_to_start_screen
                       sample_createPcmBlob sample_decodeAudioData
                       initial_app (Some "key"%string) (Rejected permission_denied)
                       permission_denied eq_refl) eq_refl eq_refl)
      as (_ & H2 & _ & H4 & H5 & _).
    repeat split; assumption.
  - destruct (proj2 (failed_start_returns_to_start_screen
                       sample_createPcmBlob sample_decodeAudioData
                       initial_app None (Rejected permission_denied)
                       permission_denied eq_refl) eq_refl eq_refl)
      as (_ & H2 & H3).
    split; assumption.
Defined.

Lemma overwritten_stream_is_never_stopped_witness :
  let st := run sample_createPcmBlob sample_decodeAudioData
              (sample_connect ++ [EvConnect (Some "key")]) initial in
  let evs := [EvOpen 4 second_session; EvAudioProcess 7 [] false; EvDisconnect;
              EvConnect (Some "key"); EvUserMedia 8 (Granted 9 None); EvDisconnect] in
  let st' := run sample_createPcmBlob sample_decodeAudioData
               (EvUserMedia 4 (Granted 6 None) :: evs) st in
  attempts (world st) !! 4
  = Some {| att_rendered := CONNECTED; att_stage := Acquiring |} ∧
  mediaStreamRef (hook st) = Some 5 ∧ 5 ≠ 6 ∧
  Forall (λ ev, ¬ grants 5 ev) evs ∧
  mediaStreamRef (hook st') ≠ Some 5 ∧
  ∃ delta, stopped_streams (world st') = stopped_streams (world st) ++ delta ∧ 5 ∉ delta.
Proof.
  cbv zeta.
  assert (Hall : Forall (λ ev, ¬ grants 5 ev)
            [EvOpen 4 second_session; EvAudioProcess 7 [] false; EvDisconnect;
             EvConnect (Some "key"); EvUserMedia 8 (Granted 9 None); EvDisconnect])
    by (repeat constructor; cbn; try (intros H; exact H); lia).
  split; [vm_compute; reflexivity|]. split; [vm_compute; reflexivity|].
  split; [lia|]. split; [exact Hall|].
  apply (overwritten_stream_is_never_stopped sample_createPcmBlob sample_decodeAudioData
           _ 4 {| att_rendered := CONNECTED; att_stage := Acquiring |} 6 5 None _);
    [vm_compute; reflexivity | reflexivity | vm_compute; reflexivity | lia | exact Hall].
Defined.

(** Two teardowns later the second and third streams have been stopped,
    the first never. *)
Example first_microphone_stays_open :
  let st' := run sample_createPcmBlob sample_decodeAudioData
               (sample_connect ++
                [EvConnect (Some "key"); EvUserMedia 4 (Granted 6 None);
                 EvOpen 4 second_session; EvDisconnect;
                 EvConnect (Some "key"); EvUserMedia 8 (Granted 9 None); EvDisconnect])
               initial in
  stopped_streams (world st') = [6; 9].
Proof. vm_compute. reflexivity. Qed.

Lemma rejected_session_is_silently_ignored_witness :
  let st := run sample_createPcmBlob sample_decodeAudioData second_connect_pending initial in
  let st' := step sample_createPcmBlob sample_decodeAudioData (EvReject 4) st in
  sessionPromiseRef (hook st) = Some 4 ∧
  attempts (world st) !! 4
  = Some {| att_rendered := CONNECTED; att_stage := Opening 7 [] |} ∧
  hook st' = hook st ∧
  effects (world st') = effects (world st) ∧
  run sample_createPcmBlob sample_decodeAudioData (capture_events sample_frames) st' = st'.
Proof.
  cbv zeta. do 2 (split; [vm_compute; reflexivity|]).
  apply (rejected_session_is_silently_ignored sample_createPcmBlob sample_decodeAudioData
           _ 4 {| att_rendered := CONNECTED; att_stage := Opening 7 [] |} 7 []
           sample_frames); vm_compute; reflexivity.
Defined.

Lemma new_session_inherits_cursor_witness :
  let st := run sample_createPcmBlob sample_decodeAudioData sample_playing initial in
  let st' := run sample_createPcmBlob sample_decodeAudioData
               [EvDisconnect; EvConnect (Some "key");
                EvUserMedia 7 (Granted 6 None); EvOpen 7 second_session] st in
  let t0 := nextStartTimeRef (hook st) in
  truthy_opt (Some "key"%string) = true ∧
  playable sample_decodeAudioData chunk_a sample_buffer ∧
  interrupted chunk_a = false ∧ nextId (world st) = 7 ∧ (0 <= t0)%Q ∧
  nextStartTimeRef (hook st') = t0 ∧
  nodes (world (step sample_createPcmBlob sample_decodeAudioData (EvMessage chunk_a 0) st'))
    !! nextId (world st')
  = Some (scheduled sample_buffer (Qmax t0 0)) ∧
  Qmax t0 0 = t0.
Proof.
  cbv zeta.
  assert (Hbuf : playable sample_decodeAudioData chunk_a sample_buffer)
    by (eexists; repeat split; reflexivity).
  assert (Hle : (0 <= nextStartTimeRef
            (hook (run sample_createPcmBlob sample_decodeAudioData sample_playing initial)))%Q)
    by (vm_compute; discriminate).
  split; [reflexivity|]. split; [exact Hbuf|]. split; [reflexivity|].
  split; [vm_compute; reflexivity|]. split; [exact Hle|].
  destruct (new_session_inherits_cursor sample_createPcmBlob sample_decodeAudioData
              (run sample_createPcmBlob sample_decodeAudioData sample_playing initial)
              (Some "key"%string) 6 second_session chunk_a 0 sample_buffer
              eq_refl Hbuf eq_refl) as (H1 & H2 & H3).
  split; [exact H1|]. split; [exact H2|]. exact (H3 Hle).
Defined.

(** The previous session left the cursor at 1.35 s; the first chunk of the
    next session, arriving at clock 0, is started at 1.35 s. *)
Example first_chunk_waits_for_old_cursor :
  let st := run sample_createPcmBlob sample_decodeAudioData
              (sample_playing ++
               [EvDisconnect; EvConnect (Some "key");
                EvUserMedia 7 (Granted 6 None); EvOpen 7 second_session;
                EvMessage chunk_a 0]) initial in
  ∃ n t, nodes (world st) !! 11 = Some n ∧ node_start n = Some t ∧ (t == 27 # 20)%Q.
Proof. vm_compute. do 2 eexists. repeat split; reflexivity. Qed.

Lemma visualizer_levels_are_bounded_witness :
  let inputAvg := average [255; 255]%N in
  let outputAvg := average [10; 30]%N in
  let level := combinedAvg inputAvg outputAvg in
  length [255; 255]%N = N.to_nat (dataArrayLength (Some 2%N)) ∧
  length [10; 30]%N = N.to_nat (dataArrayLength (Some 2%N)) ∧
  Forall (λ b, (b <= 255)%N) [255; 255]%N ∧
  Forall (λ b, (b <= 255)%N) [10; 30]%N ∧
  (0 <= level)%Q ∧ (level <= 255)%Q ∧
  (60 <= radius level)%Q ∧ (radius level <= 150)%Q.
Proof.
  cbv zeta.
  assert (Hin : Forall (λ b, (b <= 255)%N) [255; 255]%N) by (repeat constructor; lia).
  assert (Hout : Forall (λ b, (b <= 255)%N) [10; 30]%N) by (repeat constructor; lia).
  split; [reflexivity|]. split; [reflexivity|]. split; [exact Hin|]. split; [exact Hout|].
  destruct (visualizer_levels_are_bounded (Some 2%N) (Some 2%N) [255; 255]%N [10; 30]%N
              eq_refl eq_refl Hin Hout) as (_ & _ & H3 & H4 & H5 & H6 & _).
  repeat split; assumption.
Defined.

(** Full input and a quiet output: the level is 255, the radius 150, the
    colour the user's, and particles are drawn. *)
Example loud_user_fills_the_circle :
  let inputAvg := average [255; 255]%N in
  let outputAvg := average [10; 30]%N in
  let level := combinedAvg inputAvg outputAvg in
  (level == 255)%Q ∧ (radius level == 150)%Q ∧
  primaryColor inputAvg outputAvg = "99, 102, 241"%string ∧
  particles_drawn level = true.
Proof. vm_compute. repeat split; reflexivity. Qed.
